(** * Scan orchestrator: trigger, collect, aggregate

    A shallow embedding of the three scripts of the repository

      - [scripts/trigger_scans.py]      (module [Trigger])
      - [scripts/collect_reports.py]    (module [Collect])
      - [scripts/aggregate_reports.py]  (module [Aggregate])

    and the properties of the specification that concern them.

    The scripts talk to GitHub, read the wall clock and sleep.  These
    effects are modelled by a small state-and-exception monad [M]: the
    state is the history of effectful calls made so far (a [trace],
    newest call first), and the outside world is an [Env], an arbitrary
    strategy that answers each call from the history.  Messages printed
    on stderr are not modelled. *)

From Stdlib Require Import ZArith QArith Lqa String Ascii List Lia Bool DecimalString.
From stdpp Require Import base list strings.
Import ListNotations.
Local Open Scope string_scope.
Local Open Scope list_scope.

(** ** Python exceptions and results *)

Inductive exn :=
| GithubException (msg : string)        (* github.GithubException *)
| SystemExit (code : Z)                 (* raised by sys.exit *)
| OtherError (kind msg : string).       (* any other exception class *)

Inductive result (A : Type) :=
| Ok (a : A)
| Raise (e : exn).
Arguments Ok {A} a.
Arguments Raise {A} e.

(** ** Effects: the calls a script can make, and the world answering them *)

Record artifact := { art_name : string; art_id : Z }.

Inductive event :=
| EvClock                                        (* time.time(), datetime.now() *)
| EvSleep (seconds : Z)                          (* time.sleep *)
| EvGetRepo (repo : string)                      (* gh.get_repo *)
| EvGetWorkflow (repo workflow : string)         (* repo.get_workflow *)
| EvCreateDispatch (repo workflow branch : string)
| EvGetRuns (repo workflow : string)             (* workflow.get_runs *)
| EvGetWorkflowRun (repo : string) (run : Z)     (* repo.get_workflow_run *)
| EvGetArtifacts (repo : string) (run : Z)       (* workflow_run.get_artifacts *)
| EvDownload (repo : string) (art : Z) (dir : string)   (* download_artifact *)
| EvMkdir (path : string).                       (* Path.mkdir *)

(** The history of calls, newest first. *)
Definition trace := list event.

(** The world: every answer may depend on everything that happened
    before.  Times are seconds as rationals. *)
Record Env := {
  clock : trace -> Q;
  (* what the platform makes of time.sleep for a length it is handed *)
  os_sleep : trace -> Z -> result unit;
  gh_get_repo : trace -> string -> result unit;
  gh_get_workflow : trace -> string -> string -> result unit;
  gh_create_dispatch : trace -> string -> string -> string -> result bool;
  (* (run id, created_at) of the workflow's runs, newest first *)
  gh_get_runs : trace -> string -> string -> result (list (Z * Q));
  (* (status, conclusion) of a run *)
  gh_get_workflow_run : trace -> string -> Z -> result (string * option string);
  gh_get_artifacts : trace -> string -> Z -> result (list artifact);
  (* download_artifact catches every Exception and answers a bool *)
  http_download : trace -> string -> Z -> string -> bool;
}.

Definition github_or_ok {A} (r : result A) : Prop :=
  match r with
  | Ok _ | Raise (GithubException _) => True
  | Raise _ => False
  end.

(** A world whose GitHub calls fail, when they fail, with
    [GithubException]: the "remote error" the scripts handle. *)
Record github_errors_only (env : Env) : Prop := {
  geo_repo : forall tr r, github_or_ok (gh_get_repo env tr r);
  geo_workflow : forall tr r w, github_or_ok (gh_get_workflow env tr r w);
  geo_dispatch : forall tr r w b, github_or_ok (gh_create_dispatch env tr r w b);
  geo_runs : forall tr r w, github_or_ok (gh_get_runs env tr r w);
  geo_run : forall tr r i, github_or_ok (gh_get_workflow_run env tr r i);
  geo_artifacts : forall tr r i, github_or_ok (gh_get_artifacts env tr r i);
}.

(** ** The monad *)

Definition M (A : Type) : Type := trace -> result A * trace.

Definition ret {A} (a : A) : M A := fun tr => (Ok a, tr).

Definition bind {A B} (m : M A) (k : A -> M B) : M B :=
  fun tr =>
    match m tr with
    | (Ok a, tr') => k a tr'
    | (Raise e, tr') => (Raise e, tr')
    end.

Definition raise {A} (e : exn) : M A := fun tr => (Raise e, tr).

(** [try: m except GithubException as e: h (str e)] *)
Definition except_github {A} (m : M A) (h : string -> M A) : M A :=
  fun tr =>
    match m tr with
    | (Raise (GithubException msg), tr') => h msg tr'
    | other => other
    end.

(** An effectful call: the world answers from the history, then the
    call is recorded. *)
Definition call {A} (ev : event) (answer : trace -> result A) : M A :=
  fun tr => (answer tr, ev :: tr).

Declare Scope py_scope.
Delimit Scope py_scope with py.
Notation "x <- m ;; k" := (bind m (fun x => k))
  (at level 100, m at next level, right associativity) : py_scope.
Notation "m ;;; k" := (bind m (fun _ => k))
  (at level 100, right associativity) : py_scope.
Local Open Scope py_scope.

Definition now (env : Env) : M Q := call EvClock (fun tr => Ok (clock env tr)).
(** [time.sleep(seconds)] for an integer: a negative length is refused
    with ValueError, and a length of more than 9223372036 seconds does
    not fit the C time type (OverflowError).  Any other length is
    handed to the platform, which sleeps or refuses: near the end of
    that range the deadline of the sleep can be out of the range of
    the platform's clock, and the call fails with OSError. *)
Definition sleep (env : Env) (seconds : Z) : M unit :=
  if (seconds <? 0)%Z
  then raise (OtherError "ValueError" "sleep length must be non-negative")
  else if (9223372036 <? seconds)%Z
  then raise (OtherError "OverflowError" "timestamp too large to convert to C _PyTime_t")
  else call (EvSleep seconds) (fun tr => os_sleep env tr seconds).
(** The platform carries out a sleep of [seconds] whenever it is asked. *)
Definition can_sleep (env : Env) (seconds : Z) : Prop :=
  (0 <= seconds <= 9223372036)%Z /\ forall tr, os_sleep env tr seconds = Ok tt.

Definition mkdir (path : string) : M unit := call (EvMkdir path) (fun _ => Ok tt).
Definition get_repo (env : Env) (repo : string) : M unit :=
  call (EvGetRepo repo) (fun tr => gh_get_repo env tr repo).
Definition get_workflow (env : Env) (repo wf : string) : M unit :=
  call (EvGetWorkflow repo wf) (fun tr => gh_get_workflow env tr repo wf).
Definition create_dispatch (env : Env) (repo wf branch : string) : M bool :=
  call (EvCreateDispatch repo wf branch) (fun tr => gh_create_dispatch env tr repo wf branch).
Definition get_runs (env : Env) (repo wf : string) : M (list (Z * Q)) :=
  call (EvGetRuns repo wf) (fun tr => gh_get_runs env tr repo wf).
Definition get_workflow_run (env : Env) (repo : string) (run : Z) : M (string * option string) :=
  call (EvGetWorkflowRun repo run) (fun tr => gh_get_workflow_run env tr repo run).
Definition get_artifacts (env : Env) (repo : string) (run : Z) : M (list artifact) :=
  call (EvGetArtifacts repo run) (fun tr => gh_get_artifacts env tr repo run).

(** The calls that reach the remote service. *)
Definition is_remote (ev : event) : bool :=
  match ev with
  | EvClock | EvSleep _ | EvMkdir _ => false
  | _ => true
  end.

(** [tr'] is [tr] with more calls made after it. *)
Definition extends (tr' tr : trace) : Prop := exists l, tr' = l ++ tr.

(** Truthiness of an optional integer ([None] and [0] are falsy). *)
Definition truthy_id (o : option Z) : bool :=
  match o with
  | Some n => negb (n =? 0)%Z
  | None => false
  end.

(** [a >= b] on times. *)
Definition time_geb (a b : Q) : bool := Qle_bool b a.
(** [a > b] on times. *)
Definition time_gtb (a b : Q) : bool := negb (Qle_bool a b).

(** ** Python strings and paths *)

(** [needle in hay] *)
Fixpoint contains (needle hay : string) : bool :=
  String.prefix needle hay ||
  match hay with
  | EmptyString => false
  | String _ rest => contains needle rest
  end.

(** [s.endswith(suffix)] *)
Fixpoint ends_with (suffix s : string) : bool :=
  String.eqb suffix s ||
  match s with
  | EmptyString => false
  | String _ rest => ends_with suffix rest
  end.

(** [c.lower()] on the ASCII letters, the only characters whose lower
    case can be a letter of the word looked for below. *)
Definition lower_char (c : ascii) : ascii :=
  let n := nat_of_ascii c in
  if (65 <=? n)%nat && (n <=? 90)%nat then ascii_of_nat (n + 32) else c.

Fixpoint lower (s : string) : string :=
  match s with
  | EmptyString => EmptyString
  | String c rest => String (lower_char c) (lower rest)
  end.

(** [dir / name], for a name that is a single path component. *)
Definition path_join (dir name : string) : string :=
  String.append dir (String "/" name).

(** * scripts/trigger_scans.py *)

Module Trigger.

(** One entry of the list built by [get_repos_to_scan]. *)
Record repo_config := {
  rc_name : string;
  rc_workflow_file : string;
  rc_branch : string;
  rc_exclude_dirs : string;
  rc_enabled : bool;
}.

(** The [result] dict of [trigger_workflow]. *)
Record run_record := {
  repo : string;
  workflow_file : string;
  branch : string;
  status : string;
  run_id : option Z;
  error : option string;
  triggered_at : Q;
}.

Definition set_status (r : run_record) (s : string) : run_record :=
  {| repo := repo r; workflow_file := workflow_file r; branch := branch r;
     status := s; run_id := run_id r; error := error r;
     triggered_at := triggered_at r |}.

Definition set_error (r : run_record) (e : string) : run_record :=
  {| repo := repo r; workflow_file := workflow_file r; branch := branch r;
     status := status r; run_id := run_id r; error := Some e;
     triggered_at := triggered_at r |}.

Definition set_run_id (r : run_record) (i : Z) : run_record :=
  {| repo := repo r; workflow_file := workflow_file r; branch := branch r;
     status := status r; run_id := Some i; error := error r;
     triggered_at := triggered_at r |}.

Definition trigger_workflow (env : Env) (repo_name wf br : string) (dry_run : bool)
  : M run_record :=
  t <- now env ;;
  let result := {| repo := repo_name; workflow_file := wf; branch := br;
                   status := "unknown"; run_id := None; error := None;
                   triggered_at := t |} in
  if dry_run then ret (set_status result "dry_run")
  else
    except_github
      (get_repo env repo_name ;;;
       get_workflow env repo_name wf ;;;
       success <- create_dispatch env repo_name wf br ;;
       if success : bool then ret (set_status result "triggered")
       else ret (set_error (set_status result "failed") "create_dispatch returned False"))
      (fun msg => ret (set_error (set_status result "error") msg)).

(** [for run in runs[:10]: if run.created_at >= triggered_after: return run.id] *)
Fixpoint first_created_after (runs : list (Z * Q)) (triggered_after : Q) : option Z :=
  match runs with
  | [] => None
  | (id, created_at) :: rest =>
      if time_geb created_at triggered_after then Some id
      else first_created_after rest triggered_after
  end.

Definition get_latest_run_id (env : Env) (repo_name wf : string) (triggered_after : Q)
  : M (option Z) :=
  except_github
    (get_repo env repo_name ;;;
     get_workflow env repo_name wf ;;;
     runs <- get_runs env repo_name wf ;;
     ret (first_created_after (firstn 10 runs) triggered_after))
    (fun _ => ret None).

(** The dispatch loop of [main]. *)
Fixpoint trigger_all (env : Env) (repos : list repo_config) (dry_run : bool)
  : M (list run_record) :=
  match repos with
  | [] => ret []
  | rc :: rest =>
      r <- trigger_workflow env (rc_name rc) (rc_workflow_file rc) (rc_branch rc) dry_run ;;
      rs <- trigger_all env rest dry_run ;;
      ret (r :: rs)
  end.

(** The run-id loop of [main]; each record is updated in place. *)
Fixpoint fetch_run_ids (env : Env) (trigger_time : Q) (results : list run_record)
  : M (list run_record) :=
  match results with
  | [] => ret []
  | r :: rest =>
      r' <- (if String.eqb (status r) "triggered" then
               o <- get_latest_run_id env (repo r) (workflow_file r) trigger_time ;;
               if truthy_id o then
                 match o with Some i => ret (set_run_id r i) | None => ret r end
               else ret r
             else ret r) ;;
      rs <- fetch_run_ids env trigger_time rest ;;
      ret (r' :: rs)
  end.

(** The [output] dict written to the trigger output file. *)
Record output := {
  trigger_time : Q;
  total_repos : nat;
  triggered : nat;
  failed : nat;
  dry_run_flag : bool;
  runs : list run_record;
}.

Definition count_status (p : string -> bool) (rs : list run_record) : nat :=
  length (filter (fun r => p (status r) = true) rs).

(** [main], after the arguments, the token and the configuration have
    been read: [repos] is the list returned by [get_repos_to_scan]. *)
Definition main (env : Env) (repos : list repo_config) (dry_run : bool) : M output :=
  match repos with
  | [] => raise (SystemExit 0)
  | _ =>
      t <- now env ;;
      results <- trigger_all env repos dry_run ;;
      results <- (if dry_run then ret results
                  else sleep env 5 ;;; fetch_run_ids env t results) ;;
      ret {| trigger_time := t;
             total_repos := length repos;
             triggered := count_status (fun s => String.eqb s "triggered") results;
             failed := count_status (fun s => String.eqb s "failed" || String.eqb s "error") results;
             dry_run_flag := dry_run;
             runs := results |}
  end.

End Trigger.

(** * scripts/collect_reports.py *)

Module Collect.

(** One entry of the [runs] list of the runs file, with the keys this
    script reads or writes.  The entries are the records written by
    the trigger script; its other keys are carried along untouched. *)
Record run := {
  repo : string;
  run_id : option Z;
  (* run.get("completed"): the key is absent (falsy) until the poll
     loop stores True *)
  completed : bool;
  (* run["run_status"]; None: the key is absent *)
  run_status : option string;
  (* run["run_conclusion"]; None: the key is absent, Some None: None is stored *)
  run_conclusion : option (option string);
}.

(** The dict returned by [check_run_status]. *)
Record status_dict := {
  sd_status : string;
  sd_conclusion : option string;
  sd_completed : bool;
  sd_error : option string;
}.

Definition check_run_status (env : Env) (repo_name : string) (id : Z) : M status_dict :=
  except_github
    (get_repo env repo_name ;;;
     r <- get_workflow_run env repo_name id ;;
     ret {| sd_status := fst r; sd_conclusion := snd r;
            sd_completed := String.eqb (fst r) "completed"; sd_error := None |})
    (fun msg =>
       ret {| sd_status := "error"; sd_conclusion := None;
              sd_completed := false; sd_error := Some msg |}).

(** [run["run_status"] = status["status"]; run["run_conclusion"] = status["conclusion"]] *)
Definition store_status (r : run) (st : status_dict) : run :=
  {| repo := repo r; run_id := run_id r; completed := completed r;
     run_status := Some (sd_status st);
     run_conclusion := Some (sd_conclusion st) |}.

(** [run["completed"] = True] *)
Definition set_completed (r : run) : run :=
  {| repo := repo r; run_id := run_id r; completed := true;
     run_status := run_status r; run_conclusion := run_conclusion r |}.

(** The body of [for run in pending_runs]: the record after the round
    and whether it counts as completed. *)
Definition poll_run (env : Env) (r : run) : M (run * bool) :=
  if completed r then ret (r, true)
  else
    match run_id r with
    | None => raise (OtherError "AssertionError" "run_id")
    | Some id =>
        st <- check_run_status env (repo r) id ;;
        let r1 := store_status r st in
        if sd_completed st then ret (set_completed r1, true)
        else ret (r1, false)
    end.

(** [pending_runs = [r for r in runs if r.get("run_id")]].  The new list
    holds the same dict objects as [runs]: it is modelled by their
    positions in [runs], and the loop updates [runs] at these positions. *)
Fixpoint pending_from (i : nat) (runs : list run) : list nat :=
  match runs with
  | [] => []
  | r :: rest =>
      if truthy_id (run_id r) then i :: pending_from (S i) rest
      else pending_from (S i) rest
  end.

Definition pending_runs (runs : list run) : list nat := pending_from 0 runs.

Record round_state := {
  store : list run;
  all_completed : bool;
  completed_count : nat;
}.

(** One pass of the [for] loop over [pending_runs]. *)
Fixpoint poll_round (env : Env) (pending : list nat) (st : round_state) : M round_state :=
  match pending with
  | [] => ret st
  | i :: rest =>
      match store st !! i with
      | None => raise (OtherError "IndexError" "pending_runs")
      | Some r =>
          p <- poll_run env r ;;
          poll_round env rest
            {| store := <[i := fst p]> (store st);
               all_completed := if snd p then all_completed st else false;
               completed_count := if snd p then S (completed_count st)
                                  else completed_count st |}
      end
  end.

(** The [while True] loop; [None] when [fuel] rounds were not enough. *)
Fixpoint wait_loop (env : Env) (fuel : nat) (start_time : Q) (timeout_seconds : Z)
    (poll_interval_seconds : Z) (pending : list nat) (runs : list run)
  : M (option (list run)) :=
  match fuel with
  | O => ret None
  | S fuel' =>
      t <- now env ;;
      let elapsed := Qminus t start_time in
      if time_gtb elapsed (inject_Z timeout_seconds) then ret (Some runs)
      else
        st <- poll_round env pending
                {| store := runs; all_completed := true; completed_count := 0 |} ;;
        if all_completed st then ret (Some (store st))
        else
          sleep env poll_interval_seconds ;;;
          wait_loop env fuel' start_time timeout_seconds poll_interval_seconds
                    pending (store st)
  end.

Definition wait_for_completion (env : Env) (fuel : nat) (runs : list run)
    (timeout_minutes poll_interval_seconds : Z) : M (option (list run)) :=
  start_time <- now env ;;
  let timeout_seconds := (timeout_minutes * 60)%Z in
  let pending := pending_runs runs in
  match pending with
  | [] => ret (Some runs)
  | _ => wait_loop env fuel start_time timeout_seconds poll_interval_seconds
                   pending runs
  end.

(** [download_artifact]: one HTTP fetch and the extraction of the
    archive into [output_dir]; every exception is caught. *)
Definition download_artifact (env : Env) (repo_name : string) (artifact_id : Z)
    (output_dir : string) : M bool :=
  call (EvDownload repo_name artifact_id output_dir)
       (fun tr => Ok (http_download env tr repo_name artifact_id output_dir)).

(** [s.replace("/", "-")]: both strings are one ASCII character, so the
    replacement acts on each character by itself (and on each byte of
    the UTF-8 encoding alike). *)
Fixpoint replace_slash (s : string) : string :=
  match s with
  | EmptyString => EmptyString
  | String c rest =>
      String (if Ascii.eqb c "/" then "-"%char else c) (replace_slash rest)
  end.

(** The name of the per-repository directory. *)
Definition repo_dir_name (repo_name : string) : string := replace_slash repo_name.

(** One entry of the [results] list. *)
Record collection_result := {
  cr_repo : string;
  cr_status : string;
  cr_reason : option string;
  cr_output_dir : option string;
  cr_error : option string;
}.

Definition canonical_token : string := "nim-scan-report".
Definition fallback_tokens : list string := ["docker-image-report"; "hosted-nim-report"].

Definition is_canonical (a : artifact) : bool := contains canonical_token (art_name a).
Definition is_fallback (a : artifact) : bool :=
  existsb (fun name => contains name (art_name a)) fallback_tokens.

(** The first [for artifact in artifacts] loop; [found] is [found_report]. *)
Fixpoint download_canonical (env : Env) (repo_name repo_dir : string)
    (artifacts : list artifact) (found : bool) : M bool :=
  match artifacts with
  | [] => ret found
  | a :: rest =>
      if is_canonical a then
        ok <- download_artifact env repo_name (art_id a) repo_dir ;;
        download_canonical env repo_name repo_dir rest (if ok then true else found)
      else download_canonical env repo_name repo_dir rest found
  end.

(** The second loop, under [# Try to get other reports]. *)
Fixpoint download_fallback (env : Env) (repo_name repo_dir : string)
    (artifacts : list artifact) (found : bool) : M bool :=
  match artifacts with
  | [] => ret found
  | a :: rest =>
      if is_fallback a then
        download_artifact env repo_name (art_id a) repo_dir ;;;
        download_fallback env repo_name repo_dir rest true
      else download_fallback env repo_name repo_dir rest found
  end.

Definition skipped (repo_name reason : string) : collection_result :=
  {| cr_repo := repo_name; cr_status := "skipped"; cr_reason := Some reason;
     cr_output_dir := None; cr_error := None |}.

Definition with_dir (repo_name st repo_dir : string) : collection_result :=
  {| cr_repo := repo_name; cr_status := st; cr_reason := None;
     cr_output_dir := Some repo_dir; cr_error := None |}.

Definition no_artifacts (repo_name : string) : collection_result :=
  {| cr_repo := repo_name; cr_status := "no_artifacts"; cr_reason := None;
     cr_output_dir := None; cr_error := None |}.

Definition errored (repo_name msg : string) : collection_result :=
  {| cr_repo := repo_name; cr_status := "error"; cr_reason := None;
     cr_output_dir := None; cr_error := Some msg |}.

(** The body of [for run in runs] in [collect_reports]. *)
Definition collect_one (env : Env) (output_dir : string) (r : run) : M collection_result :=
  let repo_name := repo r in
  if negb (truthy_id (run_id r)) then ret (skipped repo_name "no_run_id")
  else if negb (completed r) then ret (skipped repo_name "not_completed")
  else
    match run_id r with
    | None => raise (OtherError "AssertionError" "run_id")
    | Some id =>
        except_github
          (get_repo env repo_name ;;;
           get_workflow_run env repo_name id ;;;
           artifacts <- get_artifacts env repo_name id ;;
           let repo_dir := path_join output_dir (repo_dir_name repo_name) in
           mkdir repo_dir ;;;
           found_report <- download_canonical env repo_name repo_dir artifacts false ;;
           if found_report then ret (with_dir repo_name "collected" repo_dir)
           else
             found_report <- download_fallback env repo_name repo_dir artifacts false ;;
             if found_report then ret (with_dir repo_name "partial" repo_dir)
             else ret (no_artifacts repo_name))
          (fun msg => ret (errored repo_name msg))
    end.

Fixpoint collect_loop (env : Env) (output_dir : string) (runs : list run)
  : M (list collection_result) :=
  match runs with
  | [] => ret []
  | r :: rest =>
      c <- collect_one env output_dir r ;;
      cs <- collect_loop env output_dir rest ;;
      ret (c :: cs)
  end.

Definition collect_reports (env : Env) (runs : list run) (output_dir : string)
  : M (list collection_result) :=
  mkdir output_dir ;;;
  collect_loop env output_dir runs.

(** The statuses of the specification's CollectionResult, read off the
    [status] and [reason] keys of a result. *)
Inductive collection_status :=
| skipped_no_run_id | skipped_not_completed | collected | partial
| st_no_artifacts | st_error.

Definition spec_status (c : collection_result) : option collection_status :=
  if String.eqb (cr_status c) "skipped" then
    match cr_reason c with
    | Some reason =>
        if String.eqb reason "no_run_id" then Some skipped_no_run_id
        else if String.eqb reason "not_completed" then Some skipped_not_completed
        else None
    | None => None
    end
  else if String.eqb (cr_status c) "collected" then Some collected
  else if String.eqb (cr_status c) "partial" then Some partial
  else if String.eqb (cr_status c) "no_artifacts" then Some st_no_artifacts
  else if String.eqb (cr_status c) "error" then Some st_error
  else None.

End Collect.

(** * scripts/aggregate_reports.py *)

Module Aggregate.

Set Warnings "-register-all".

(** The values [json.load] returns (numbers are taken to be integers)
    and [json.dump] writes.  An object keeps its keys in order. *)
Inductive json :=
| JNull
| JBool (b : bool)
| JInt (z : Z)
| JStr (s : string)
| JList (l : list json)
| JObj (d : list (string * json)).

Definition dict := list (string * json).

(** [d.get(k)] *)
Fixpoint dict_get (d : dict) (k : string) : option json :=
  match d with
  | [] => None
  | (k', v) :: rest => if String.eqb k' k then Some v else dict_get rest k
  end.

(** [d.get(k, default)] *)
Definition get_default (d : dict) (k : string) (default : json) : json :=
  match dict_get d k with
  | Some v => v
  | None => default
  end.

(** [d[k] = v]: an existing key keeps its place, a new one goes last. *)
Fixpoint dict_set (d : dict) (k : string) (v : json) : dict :=
  match d with
  | [] => [(k, v)]
  | (k', v') :: rest =>
      if String.eqb k' k then (k', v) :: rest else (k', v') :: dict_set rest k v
  end.

(** [bool(v)] *)
Definition truthy (v : json) : bool :=
  match v with
  | JNull => false
  | JBool b => b
  | JInt z => negb (z =? 0)%Z
  | JStr s => negb (String.eqb s "")
  | JList l => match l with [] => false | _ => true end
  | JObj d => match d with [] => false | _ => true end
  end.

(** Lists and dicts cannot be keys of a [Counter]. *)
Definition hashable (v : json) : bool :=
  match v with
  | JList _ | JObj _ => false
  | _ => true
  end.

Definition as_number (v : json) : option Z :=
  match v with
  | JBool b => Some (if b then 1 else 0)%Z
  | JInt z => Some z
  | _ => None
  end.

(** [a == b] between hashable values ([True == 1], [False == 0]). *)
Definition key_eqb (a b : json) : bool :=
  match a, b with
  | JNull, JNull => true
  | JStr s, JStr t => String.eqb s t
  | _, _ =>
      match as_number a, as_number b with
      | Some x, Some y => (x =? y)%Z
      | _, _ => false
      end
  end.

(** A [collections.Counter]: keys in insertion order with their counts. *)
Definition counter := list (json * Z).

(** [c[k]]; a missing key counts 0. *)
Fixpoint count (c : counter) (k : json) : Z :=
  match c with
  | [] => 0
  | (k', n) :: rest => if key_eqb k' k then n else count rest k
  end.

(** [c[k] += 1] *)
Fixpoint incr (c : counter) (k : json) : counter :=
  match c with
  | [] => [(k, 1%Z)]
  | (k', n) :: rest =>
      if key_eqb k' k then (k', (n + 1)%Z) :: rest else (k', n) :: incr rest k
  end.

(** The dict returned by [aggregate_statistics]. *)
Record statistics := {
  by_classification : counter;
  by_support_type : counter;
  by_actions_usage : counter;
}.

Definition support_bucket (supports_local supports_hosted : json) : string :=
  if truthy supports_local && truthy supports_hosted then "both"
  else if truthy supports_local then "local_only"
  else if truthy supports_hosted then "hosted_only"
  else "none".

Definition usage_bucket (uses_local uses_hosted : json) : string :=
  if truthy uses_local && truthy uses_hosted then "both_in_actions"
  else if truthy uses_local then "local_in_actions"
  else if truthy uses_hosted then "hosted_in_actions"
  else "none_in_actions".

(** The body of [for report in reports]. *)
Definition tally (acc : statistics) (report : dict) : result statistics :=
  let classification := get_default report "classification" (JStr "UNKNOWN") in
  if negb (hashable classification)
  then Raise (OtherError "TypeError" "unhashable type")
  else
    let classifications := incr (by_classification acc) classification in
    match get_default report "summary" (JObj []) with
    | JObj summary =>
        let supports_local := get_default summary "supports_local_nim" (JBool false) in
        let supports_hosted := get_default summary "supports_hosted_nim" (JBool false) in
        let support_types :=
          incr (by_support_type acc) (JStr (support_bucket supports_local supports_hosted)) in
        let uses_local := get_default summary "uses_local_nim_in_actions" (JBool false) in
        let uses_hosted := get_default summary "uses_hosted_nim_in_actions" (JBool false) in
        let actions_usage :=
          incr (by_actions_usage acc) (JStr (usage_bucket uses_local uses_hosted)) in
        Ok {| by_classification := classifications;
              by_support_type := support_types;
              by_actions_usage := actions_usage |}
    | _ => Raise (OtherError "AttributeError" "object has no attribute 'get'")
    end.

Fixpoint tally_all (acc : statistics) (reports : list dict) : result statistics :=
  match reports with
  | [] => Ok acc
  | report :: rest =>
      match tally acc report with
      | Ok acc' => tally_all acc' rest
      | Raise e => Raise e
      end
  end.

Definition aggregate_statistics (reports : list dict) : result statistics :=
  tally_all {| by_classification := []; by_support_type := []; by_actions_usage := [] |}
            reports.

(** ** Discovery: [load_repo_reports] *)

(** A directory entry of a repository directory: its name and what
    [open] followed by [json.load] gives ([None] when either raises). *)
Record file := { f_name : string; f_content : option json }.

(** An entry of the reports directory, in [iterdir] order; [e_files]
    lists the directory in the order [glob] yields it. *)
Record dir_entry := {
  e_name : string;
  e_is_dir : bool;
  e_files : list file;
}.

Fixpoint find_file (name : string) (files : list file) : option file :=
  match files with
  | [] => None
  | f :: rest => if String.eqb (f_name f) name then Some f else find_file name rest
  end.

(** The [try] block around one candidate file.  Storing a key into a
    loaded value that is not a dict raises TypeError, which the
    [except Exception] clause catches like a failed load. *)
Definition load_file (repo_dir : string) (source_file : option string) (f : file)
  : list dict :=
  match f_content f with
  | Some (JObj report) =>
      let report := dict_set report "_source_dir" (JStr repo_dir) in
      match source_file with
      | Some name => [dict_set report "_source_file" (JStr name)]
      | None => [report]
      end
  | _ => []
  end.

Fixpoint load_fallback (repo_dir : string) (files : list file) : list dict :=
  match files with
  | [] => []
  | f :: rest =>
      (if ends_with ".json" (f_name f) && contains "report" (lower (f_name f))
       then load_file repo_dir (Some (f_name f)) f
       else [])
      ++ load_fallback repo_dir rest
  end.

Definition load_entry (reports_dir : string) (e : dir_entry) : list dict :=
  if negb (e_is_dir e) then []
  else if String.prefix "." (e_name e) then []
  else
    let repo_dir := path_join reports_dir (e_name e) in
    match find_file "nim-scan-report.json" (e_files e) with
    | Some f => load_file repo_dir None f
    | None => load_fallback repo_dir (e_files e)
    end.

(** [listing] is [None] when the reports directory does not exist. *)
Definition load_repo_reports (reports_dir : string) (listing : option (list dir_entry))
  : list dict :=
  match listing with
  | None => []
  | Some entries => flat_map (load_entry reports_dir) entries
  end.

(** ** [main] *)

(** [{k: v for k, v in report.items() if not k.startswith("_")}] *)
Definition clean (report : dict) : dict :=
  filter (fun kv => String.prefix "_" (fst kv) = false) report.

(** The key [json.dump] writes for a key of a dict. *)
Definition dump_key (k : json) : string :=
  match k with
  | JStr s => s
  | JBool true => "true"
  | JBool false => "false"
  | JNull => "null"
  | JInt z => NilZero.string_of_int (Z.to_int z)
  | _ => ""
  end.

Definition dump_counter (c : counter) : json :=
  JObj (map (fun kn => (dump_key (fst kn), JInt (snd kn))) c).

Definition dump_statistics (s : statistics) : json :=
  JObj [("by_classification", dump_counter (by_classification s));
        ("by_support_type", dump_counter (by_support_type s));
        ("by_actions_usage", dump_counter (by_actions_usage s))].

(** The document [main] writes to the output file, from the listing of
    the reports directory and the rendering of the current time. *)
Definition main (reports_dir : string) (listing : option (list dir_entry))
    (aggregation_time : string) : result json :=
  let reports := load_repo_reports reports_dir listing in
  match reports with
  | [] =>
      Ok (JObj [("metadata", JObj [("aggregation_time", JStr aggregation_time);
                                   ("total_repos", JInt 0)]);
                ("summary", JObj []);
                ("repositories", JList [])])
  | _ =>
      match aggregate_statistics reports with
      | Raise e => Raise e
      | Ok stats =>
          let cleaned_reports := map (fun r => JObj (clean r)) reports in
          Ok (JObj [("metadata",
                     JObj [("aggregation_time", JStr aggregation_time);
                           ("total_repos", JInt (Z.of_nat (length reports)));
                           ("successful_scans", JInt (Z.of_nat (length reports)))]);
                    ("summary", dump_statistics stats);
                    ("repositories", JList cleaned_reports)])
      end
  end.

(** [doc[k1][k2]] as far as the keys exist. *)
Definition lookup2 (doc : json) (k1 k2 : string) : option json :=
  match doc with
  | JObj d =>
      match dict_get d k1 with
      | Some (JObj d') => dict_get d' k2
      | _ => None
      end
  | _ => None
  end.

Definition lookup1 (doc : json) (k : string) : option json :=
  match doc with
  | JObj d => dict_get d k
  | _ => None
  end.

End Aggregate.

(** * Example worlds and the vocabulary of the properties *)

(** A world for examples: the repository "org/broken" cannot be
    reached, "org/refuses" refuses the dispatch, the clock stands
    still, every other call succeeds and every download fails. *)
Definition flaky_env : Env :=
  {| clock := fun _ => 0%Q;
     os_sleep := fun _ _ => Ok tt;
     gh_get_repo := fun _ r =>
       if String.eqb r "org/broken" then Raise (GithubException "404") else Ok tt;
     gh_get_workflow := fun _ _ _ => Ok tt;
     gh_create_dispatch := fun _ r _ _ => Ok (negb (String.eqb r "org/refuses"));
     gh_get_runs := fun _ _ _ => Ok [(17%Z, 0%Q)];
     gh_get_workflow_run := fun _ _ _ => Ok ("in_progress", None);
     gh_get_artifacts := fun _ _ _ => Ok [];
     http_download := fun _ _ _ _ => false |}.

Definition three_repos : list Trigger.repo_config :=
  map (fun n => {| Trigger.rc_name := n; Trigger.rc_workflow_file := "ci.yml";
                   Trigger.rc_branch := "main"; Trigger.rc_exclude_dirs := "";
                   Trigger.rc_enabled := true |})
      ["org/broken"; "org/refuses"; "org/fine"].

(** The dispatch to one repository as the world answers it after the
    history [tr]: the status of its record and the calls made, newest
    first.  The clock is read, the repository is asked for, then its
    workflow, then the dispatch is created; the first call that raises
    ends the step with status "error", and a dispatch that is created
    gives "triggered" or, when the answer is false, "failed". *)
Definition dispatch_step (env : Env) (rc : Trigger.repo_config) (tr : trace)
  : string * list event :=
  let name := Trigger.rc_name rc in
  let wf := Trigger.rc_workflow_file rc in
  let br := Trigger.rc_branch rc in
  match gh_get_repo env (EvClock :: tr) name with
  | Raise _ => ("error", [EvGetRepo name; EvClock])
  | Ok _ =>
      match gh_get_workflow env (EvGetRepo name :: EvClock :: tr) name wf with
      | Raise _ => ("error", [EvGetWorkflow name wf; EvGetRepo name; EvClock])
      | Ok _ =>
          (match gh_create_dispatch env
                   (EvGetWorkflow name wf :: EvGetRepo name :: EvClock :: tr)
                   name wf br with
           | Ok true => "triggered"
           | Ok false => "failed"
           | Raise _ => "error"
           end,
           [EvCreateDispatch name wf br; EvGetWorkflow name wf; EvGetRepo name; EvClock])
      end
  end.

(** The history after every repository of the list has had its
    dispatch step, one after the other, whatever the steps gave. *)
Fixpoint batch_trace (env : Env) (repos : list Trigger.repo_config) (tr : trace) : trace :=
  match repos with
  | [] => tr
  | rc :: rest => batch_trace env rest (snd (dispatch_step env rc tr) ++ tr)
  end.

(** The statuses of these steps, in the order of the list. *)
Fixpoint batch_statuses (env : Env) (repos : list Trigger.repo_config) (tr : trace)
  : list string :=
  match repos with
  | [] => []
  | rc :: rest =>
      fst (dispatch_step env rc tr)
      :: batch_statuses env rest (snd (dispatch_step env rc tr) ++ tr)
  end.


(** A world built from the answer to a status query, the artifacts of
    a run, the outcome of every download and a clock. *)
Definition simple_env (answer : result (string * option string))
    (artifacts : list artifact) (download_ok : bool) (time : trace -> Q) : Env :=
  {| clock := time;
     os_sleep := fun _ _ => Ok tt;
     gh_get_repo := fun _ _ => Ok tt;
     gh_get_workflow := fun _ _ _ => Ok tt;
     gh_create_dispatch := fun _ _ _ _ => Ok true;
     gh_get_runs := fun _ _ _ => Ok [];
     gh_get_workflow_run := fun _ _ _ => answer;
     gh_get_artifacts := fun _ _ _ => Ok artifacts;
     http_download := fun _ _ _ _ => download_ok |}.

(** A world in which every status query raises. *)
Definition unreachable_env : Env :=
  simple_env (Raise (GithubException "502")) [] false (fun _ => 0%Q).

Definition unresolved_run : Collect.run :=
  {| Collect.repo := "org/fine"; Collect.run_id := None; Collect.completed := false;
     Collect.run_status := None; Collect.run_conclusion := None |}.

Definition pending_run : Collect.run :=
  {| Collect.repo := "org/fine"; Collect.run_id := Some 17%Z; Collect.completed := false;
     Collect.run_status := None; Collect.run_conclusion := None |}.

Definition in_progress_run : Collect.run :=
  {| Collect.repo := "org/fine"; Collect.run_id := Some 17%Z; Collect.completed := false;
     Collect.run_status := Some "in_progress"; Collect.run_conclusion := Some None |}.

Definition completed_run : Collect.run :=
  {| Collect.repo := "org/fine"; Collect.run_id := Some 17%Z; Collect.completed := true;
     Collect.run_status := Some "completed";
     Collect.run_conclusion := Some (Some "success") |}.

(** The status query for [repo] and [id], made after the history [tr],
    raises a GithubException: from [get_repo], or from
    [get_workflow_run] after [get_repo] succeeded. *)
Definition query_fails (env : Env) (tr : trace) (repo : string) (id : Z) (msg : string)
  : Prop :=
  gh_get_repo env tr repo = Raise (GithubException msg)
  \/ (gh_get_repo env tr repo = Ok tt
      /\ gh_get_workflow_run env (EvGetRepo repo :: tr) repo id
         = Raise (GithubException msg)).

(** The first three calls of a collection, made after [tr], succeed and
    list [artifacts]. *)
Definition listing_succeeds (env : Env) (tr : trace) (repo : string) (id : Z)
    (artifacts : list artifact) : Prop :=
  gh_get_repo env tr repo = Ok tt
  /\ (exists x, gh_get_workflow_run env (EvGetRepo repo :: tr) repo id = Ok x)
  /\ gh_get_artifacts env (EvGetWorkflowRun repo id :: EvGetRepo repo :: tr) repo id
     = Ok artifacts.

(** The history after the downloads of the canonical tier. *)
Fixpoint canonical_trace (repo dir : string) (artifacts : list artifact) (tr : trace)
  : trace :=
  match artifacts with
  | [] => tr
  | a :: rest =>
      if Collect.is_canonical a
      then canonical_trace repo dir rest (EvDownload repo (art_id a) dir :: tr)
      else canonical_trace repo dir rest tr
  end.

(** Whether some download of the canonical tier succeeds. *)
Fixpoint canonical_found (env : Env) (repo dir : string) (artifacts : list artifact)
    (tr : trace) : bool :=
  match artifacts with
  | [] => false
  | a :: rest =>
      if Collect.is_canonical a
      then http_download env tr repo (art_id a) dir
           || canonical_found env repo dir rest (EvDownload repo (art_id a) dir :: tr)
      else canonical_found env repo dir rest tr
  end.

(** The history after the downloads of the fallback tier. *)
Fixpoint fallback_trace (repo dir : string) (artifacts : list artifact) (tr : trace)
  : trace :=
  match artifacts with
  | [] => tr
  | a :: rest =>
      if Collect.is_fallback a
      then fallback_trace repo dir rest (EvDownload repo (art_id a) dir :: tr)
      else fallback_trace repo dir rest tr
  end.

Definition canonical_artifact : artifact :=
  {| art_name := "nim-scan-report-org-fine"; art_id := 1 |}.
Definition docker_artifact : artifact :=
  {| art_name := "docker-image-report"; art_id := 2 |}.
Definition hosted_artifact : artifact :=
  {| art_name := "hosted-nim-report"; art_id := 3 |}.
Definition other_artifact : artifact :=
  {| art_name := "coverage"; art_id := 4 |}.

(** A world whose runs are completed and list [artifacts]; every
    download succeeds or fails as [download_ok] says. *)
Definition artifacts_env (artifacts : list artifact) (download_ok : bool) : Env :=
  simple_env (Ok ("completed", Some "success")) artifacts download_ok (fun _ => 0%Q).

(** A world in which only the download of the artifact [good] succeeds. *)
Definition one_good_download_env (artifacts : list artifact) (good : Z) : Env :=
  {| clock := fun _ => 0%Q;
     os_sleep := fun _ _ => Ok tt;
     gh_get_repo := fun _ _ => Ok tt;
     gh_get_workflow := fun _ _ _ => Ok tt;
     gh_create_dispatch := fun _ _ _ _ => Ok true;
     gh_get_runs := fun _ _ _ => Ok [];
     gh_get_workflow_run := fun _ _ _ => Ok ("completed", Some "success");
     gh_get_artifacts := fun _ _ _ => Ok artifacts;
     http_download := fun _ _ id _ => (id =? good)%Z |}.

(** [c in s] for a character. *)
Fixpoint has_char (c : ascii) (s : string) : bool :=
  match s with
  | EmptyString => false
  | String c' rest => Ascii.eqb c' c || has_char c rest
  end.

(** The candidate inverse of [replace_slash]: every "-" back to "/". *)
Fixpoint restore_slash (s : string) : string :=
  match s with
  | EmptyString => EmptyString
  | String c rest =>
      String (if Ascii.eqb c "-" then "/"%char else c) (restore_slash rest)
  end.

(** The identifier "owner/name". *)
Definition repo_id (owner name : string) : string :=
  String.append owner (String "/" name).

(** A status query for the record, made after the history [tr] and
    recorded in [tr'], answered "completed". *)
Definition reported_completed (env : Env) (tr tr' : trace) (r : Collect.run) : Prop :=
  exists id conclusion tr0,
    Collect.run_id r = Some id
    /\ extends tr0 tr
    /\ extends tr' (EvGetWorkflowRun (Collect.repo r) id :: tr0)
    /\ gh_get_workflow_run env tr0 (Collect.repo r) id = Ok ("completed", conclusion).

(** [r'] is the record [r] after the polling that led from the history
    [tr] to [tr']: the same repository and run, and marked completed
    only if it already was or a status query made in between reported
    the run completed. *)
Definition polled_from (env : Env) (tr tr' : trace) (r r' : Collect.run) : Prop :=
  Collect.repo r' = Collect.repo r
  /\ Collect.run_id r' = Collect.run_id r
  /\ (Collect.completed r' = true ->
      Collect.completed r = true \/ reported_completed env tr tr' r).

(** The history after one round of status checks over [runs], made
    after [tr]: every record with a usable run id that is not completed
    is queried once, in the order of the list; its repository is asked
    for and, unless that raises, its run. *)
Fixpoint round_trace (env : Env) (runs : list Collect.run) (tr : trace) : trace :=
  match runs with
  | [] => tr
  | r :: rest =>
      match Collect.run_id r with
      | Some id =>
          if truthy_id (Some id) && negb (Collect.completed r) then
            match gh_get_repo env tr (Collect.repo r) with
            | Ok _ =>
                round_trace env rest
                  (EvGetWorkflowRun (Collect.repo r) id :: EvGetRepo (Collect.repo r) :: tr)
            | Raise _ => round_trace env rest (EvGetRepo (Collect.repo r) :: tr)
            end
          else round_trace env rest tr
      | None => round_trace env rest tr
      end
  end.

(** The remote never reports the run of the record completed. *)
Definition stays_pending (env : Env) (r : Collect.run) : Prop :=
  forall tr id status conclusion,
    Collect.run_id r = Some id ->
    gh_get_workflow_run env tr (Collect.repo r) id = Ok (status, conclusion) ->
    status <> "completed".

(** Every position of [pending] holds a record with a usable run id. *)
Definition pending_valid (pending : list nat) (runs : list Collect.run) : Prop :=
  Forall (fun i => exists r, runs !! i = Some r
                             /\ truthy_id (Collect.run_id r) = true) pending.

(** The seconds slept so far. *)
Fixpoint slept (tr : trace) : Z :=
  match tr with
  | [] => 0
  | EvSleep n :: rest => n + slept rest
  | _ :: rest => slept rest
  end.

(** A world whose clock moves only while the script sleeps, and whose
    runs stay in progress. *)
Definition coarse_clock_env : Env :=
  simple_env (Ok ("in_progress", None)) [] false (fun tr => inject_Z (slept tr)).

(** A world whose clock ticks once per call, and whose runs stay in
    progress. *)
Definition ticking_env : Env :=
  simple_env (Ok ("in_progress", None)) [] false
             (fun tr => inject_Z (Z.of_nat (length tr))).

(** A report that [aggregate_statistics] can read: its classification,
    when present, is a scalar, and its summary, when present, is an
    object. *)
Definition readable (report : Aggregate.dict) : bool :=
  Aggregate.hashable
    (Aggregate.get_default report "classification" (Aggregate.JStr "UNKNOWN"))
  && match Aggregate.get_default report "summary" (Aggregate.JObj []) with
     | Aggregate.JObj _ => true
     | _ => false
     end.

Definition support_buckets : list string :=
  ["both"; "local_only"; "hosted_only"; "none"].
Definition usage_buckets : list string :=
  ["both_in_actions"; "local_in_actions"; "hosted_in_actions"; "none_in_actions"].

(** The sum of the counts of the given buckets. *)
Fixpoint bucket_total (c : Aggregate.counter) (buckets : list string) : Z :=
  match buckets with
  | [] => 0
  | b :: rest => Aggregate.count c (Aggregate.JStr b) + bucket_total c rest
  end.

Definition keys (c : Aggregate.counter) : list Aggregate.json := map fst c.

(** A flag of a report as the specification reads it: the truth value
    stored under [key] in the summary; a flag that is missing, or a
    summary that is missing, counts as false. *)
Definition flag (report : Aggregate.dict) (key : string) : bool :=
  match Aggregate.dict_get report "summary" with
  | Some (Aggregate.JObj summary) =>
      match Aggregate.dict_get summary key with
      | Some v => Aggregate.truthy v
      | None => false
      end
  | _ => false
  end.

(** The one bucket of two booleans: both, only the first, only the
    second, neither. *)
Definition bucket_of_flags (both first second neither : string) (a b : bool) : string :=
  match a, b with
  | true, true => both
  | true, false => first
  | false, true => second
  | false, false => neither
  end.

Definition support_bucket_of (report : Aggregate.dict) : string :=
  bucket_of_flags "both" "local_only" "hosted_only" "none"
    (flag report "supports_local_nim") (flag report "supports_hosted_nim").

Definition usage_bucket_of (report : Aggregate.dict) : string :=
  bucket_of_flags "both_in_actions" "local_in_actions" "hosted_in_actions"
    "none_in_actions"
    (flag report "uses_local_nim_in_actions") (flag report "uses_hosted_nim_in_actions").

(** The number of reports that fall into the bucket [b]. *)
Definition assigned (bucket_of : Aggregate.dict -> string) (b : string)
    (reports : list Aggregate.dict) : nat :=
  length (List.filter (fun r => String.eqb (bucket_of r) b) reports).

(** The report of the specification's example. *)
Definition local_report : Aggregate.dict :=
  [("classification", Aggregate.JStr "LOCAL");
   ("summary", Aggregate.JObj
      [("supports_local_nim", Aggregate.JBool true);
       ("supports_hosted_nim", Aggregate.JBool false);
       ("uses_local_nim_in_actions", Aggregate.JBool true);
       ("uses_hosted_nim_in_actions", Aggregate.JBool false)])].

(** A report without summary and without classification. *)
Definition bare_report : Aggregate.dict := [("note", Aggregate.JStr "n/a")].

(** A report whose summary is null. *)
Definition null_summary_report : Aggregate.dict := [("summary", Aggregate.JNull)].

(** A reports directory with one repository directory that has no
    canonical report file but two fallback report files, next to a
    file, a hidden directory and a directory with the canonical file. *)
Definition two_fallback_files : list Aggregate.dir_entry :=
  [ {| Aggregate.e_name := "org-fine"; Aggregate.e_is_dir := true;
       Aggregate.e_files :=
         [ {| Aggregate.f_name := "docker-image-report.json";
              Aggregate.f_content := Some (Aggregate.JObj local_report) |};
           {| Aggregate.f_name := "Hosted-NIM-Report.json";
              Aggregate.f_content := Some (Aggregate.JObj bare_report) |};
           {| Aggregate.f_name := "notes.json";
              Aggregate.f_content := Some (Aggregate.JObj bare_report) |};
           {| Aggregate.f_name := "broken-report.json";
              Aggregate.f_content := None |};
           {| Aggregate.f_name := "list-report.json";
              Aggregate.f_content := Some (Aggregate.JList []) |} ] |} ].

Definition empty_listing : list Aggregate.dir_entry :=
  [ {| Aggregate.e_name := "collection-results.json"; Aggregate.e_is_dir := false;
       Aggregate.e_files := [] |};
    {| Aggregate.e_name := ".cache"; Aggregate.e_is_dir := true;
       Aggregate.e_files :=
         [ {| Aggregate.f_name := "nim-scan-report.json";
              Aggregate.f_content := Some (Aggregate.JObj bare_report) |} ] |};
    {| Aggregate.e_name := "org-broken"; Aggregate.e_is_dir := true;
       Aggregate.e_files :=
         [ {| Aggregate.f_name := "nim-scan-report.json";
              Aggregate.f_content := None |} ] |} ].

(** * More of the scripts *)

(** ** Configuration and credentials (trigger_scans.py) *)

Module TriggerConfig.

Import Aggregate.

(** [os.environ.get(name)], for an environment given as the function
    from variable names to their values. *)
Definition environ := string -> option string.

(** [get_github_token]: [a or b] is [a] when [a] is set and not empty,
    and [b] otherwise; a token that is missing or empty ends the
    process with code 1. *)
Definition get_github_token (env : environ) : result string :=
  let token :=
    match env "GITHUB_TOKEN" with
    | Some t => if String.eqb t "" then env "BP_GITHUB_TOKEN" else Some t
    | None => env "BP_GITHUB_TOKEN"
    end in
  match token with
  | Some t => if String.eqb t "" then Raise (SystemExit 1) else Ok t
  | None => Raise (SystemExit 1)
  end.

(** [s.split(",")]: the pieces between the commas, empty ones included.
    The comma is one byte that is part of no other character of a
    UTF-8 string. *)
Fixpoint split_comma (s : string) : list string :=
  match s with
  | EmptyString => [EmptyString]
  | String c rest =>
      if Ascii.eqb c ","
      then EmptyString :: split_comma rest
      else match split_comma rest with
           | piece :: pieces => String c piece :: pieces
           | [] => [String c EmptyString]
           end
  end.

(** The characters [str.strip] removes, as the bytes of their UTF-8
    encoding: U+0009..000D, U+001C..0020; U+0085 and U+00A0; U+1680,
    U+2000..200A, U+2028, U+2029, U+202F, U+205F and U+3000. *)
Definition is_space1 (c : ascii) : bool :=
  let n := nat_of_ascii c in
  ((9 <=? n)%nat && (n <=? 13)%nat) || ((28 <=? n)%nat && (n <=? 32)%nat).

Definition is_space2 (c1 c2 : ascii) : bool :=
  let a := nat_of_ascii c1 in
  let b := nat_of_ascii c2 in
  (a =? 194)%nat && ((b =? 133)%nat || (b =? 160)%nat).

Definition is_space3 (c1 c2 c3 : ascii) : bool :=
  let a := nat_of_ascii c1 in
  let b := nat_of_ascii c2 in
  let c := nat_of_ascii c3 in
  ((a =? 225)%nat && (b =? 154)%nat && (c =? 128)%nat)
  || ((a =? 226)%nat && (b =? 128)%nat
      && (((128 <=? c)%nat && (c <=? 138)%nat)
          || (c =? 168)%nat || (c =? 169)%nat || (c =? 175)%nat))
  || ((a =? 226)%nat && (b =? 129)%nat && (c =? 159)%nat)
  || ((a =? 227)%nat && (b =? 128)%nat && (c =? 128)%nat).

(** [s.lstrip()] *)
Fixpoint lstrip (s : string) : string :=
  match s with
  | EmptyString => s
  | String c1 r1 =>
      if is_space1 c1 then lstrip r1
      else
        match r1 with
        | EmptyString => s
        | String c2 r2 =>
            if is_space2 c1 c2 then lstrip r2
            else
              match r2 with
              | EmptyString => s
              | String c3 r3 => if is_space3 c1 c2 c3 then lstrip r3 else s
              end
        end
  end.

(** [lstrip] on a string read backwards: the bytes of a character come
    last byte first. *)
Fixpoint lstrip_reversed (s : string) : string :=
  match s with
  | EmptyString => s
  | String c1 r1 =>
      if is_space1 c1 then lstrip_reversed r1
      else
        match r1 with
        | EmptyString => s
        | String c2 r2 =>
            if is_space2 c2 c1 then lstrip_reversed r2
            else
              match r2 with
              | EmptyString => s
              | String c3 r3 =>
                  if is_space3 c3 c2 c1 then lstrip_reversed r3 else s
              end
        end
  end.

Fixpoint reverse_onto (s acc : string) : string :=
  match s with
  | EmptyString => acc
  | String c rest => reverse_onto rest (String c acc)
  end.

Definition reverse (s : string) : string := reverse_onto s EmptyString.

(** [s.rstrip()] *)
Definition rstrip (s : string) : string := reverse (lstrip_reversed (reverse s)).

(** [s.strip()] *)
Definition strip (s : string) : string := rstrip (lstrip s).

(** One entry of the list [get_repos_to_scan] returns.  The values
    taken from the configuration are whatever the YAML document holds
    (modelled as far as JSON has them). *)
Record target := {
  name : json;
  workflow_file : json;
  branch : json;
  exclude_dirs : json;
  enabled : bool;
}.

(** The loop over [specific_repos.split(",")]. *)
Fixpoint specific_targets (default_workflow default_branch : json) (pieces : list string)
  : list target :=
  match pieces with
  | [] => []
  | repo_name :: rest =>
      let repo_name := strip repo_name in
      if negb (String.eqb repo_name "")
      then {| name := JStr repo_name; workflow_file := default_workflow;
              branch := default_branch; exclude_dirs := JStr ""; enabled := true |}
           :: specific_targets default_workflow default_branch rest
      else specific_targets default_workflow default_branch rest
  end.

(** [d.get(k)] with Python's [None] for a missing key. *)
Definition get_or_none (d : dict) (k : string) : json := get_default d k JNull.

(** The loop over [config.get("repos", [])]. *)
Fixpoint config_targets (default_workflow default_branch : json) (entries : list json)
  : list target :=
  match entries with
  | [] => []
  | JObj repo :: rest =>
      if negb (truthy (get_default repo "enabled" (JBool true)))
      then config_targets default_workflow default_branch rest
      else {| name := get_or_none repo "name";
              workflow_file := get_default repo "workflow_file" default_workflow;
              branch := get_default repo "branch" default_branch;
              exclude_dirs := get_default repo "exclude_dirs" (JStr "");
              enabled := true |}
           :: config_targets default_workflow default_branch rest
  | _ :: rest => config_targets default_workflow default_branch rest
  end.

(** What [for repo in v] goes through: the items of a list, the keys
    of a mapping, the characters of a string (one string each; here
    one per byte, never a mapping either way); other values are not
    iterable. *)
Definition iterate (v : json) : result (list json) :=
  match v with
  | JList l => Ok l
  | JObj d => Ok (map (fun kv => JStr (fst kv)) d)
  | JStr s => Ok (map (fun c => JStr (String c EmptyString)) (list_ascii_of_string s))
  | _ => Raise (OtherError "TypeError" "object is not iterable")
  end.

Definition get_repos_to_scan (config : json) (specific_repos : string)
  : result (list target) :=
  match config with
  | JObj config =>
      match get_default config "settings" (JObj []) with
      | JObj settings =>
          let default_branch := get_default settings "default_branch" (JStr "main") in
          let default_workflow := get_default settings "default_workflow" (JStr "ci.yml") in
          if negb (String.eqb specific_repos "")
          then Ok (specific_targets default_workflow default_branch
                     (split_comma specific_repos))
          else
            match iterate (get_default config "repos" (JList [])) with
            | Ok entries => Ok (config_targets default_workflow default_branch entries)
            | Raise e => Raise e
            end
      | _ => Raise (OtherError "AttributeError" "object has no attribute 'get'")
      end
  | _ => Raise (OtherError "AttributeError" "object has no attribute 'get'")
  end.

End TriggerConfig.

(** ** The entry point of collect_reports.py *)

Module CollectMain.

Import Collect.

(** The [summary] dict of the collection results. *)
Record summary := {
  n_collected : nat;
  n_partial : nat;
  n_failed : nat;
}.

(** The [collection_results] dict written to collection-results.json. *)
Record collection_results := {
  collection_time : Q;
  output_dir : string;
  results : list collection_result;
  results_summary : summary;
}.

(** [sum(1 for r in results if p(r["status"]))] *)
Definition count_results (p : string -> bool) (rs : list collection_result) : nat :=
  length (List.filter (fun r => p (cr_status r)) rs).

(** [main], after the arguments, the token and the runs file have been
    read: [dry_run] is the truth of [runs_data.get("dry_run")] and
    [runs] is [runs_data.get("runs", [])].  The result is [None] when
    [fuel] rounds of polling were not enough. *)
Definition main (env : Env) (fuel : nat) (dry_run : bool) (runs : list run)
    (skip_wait : bool) (timeout poll_interval : Z) (out_dir : string)
  : M (option collection_results) :=
  if dry_run then raise (SystemExit 0)
  else
    match runs with
    | [] => raise (SystemExit 0)
    | _ =>
        waited <- (if skip_wait then ret (Some runs)
                   else wait_for_completion env fuel runs timeout poll_interval) ;;
        match waited with
        | None => ret None
        | Some runs =>
            rs <- collect_reports env runs out_dir ;;
            let collected := count_results (fun s => String.eqb s "collected") rs in
            let partial := count_results (fun s => String.eqb s "partial") rs in
            let failed :=
              count_results (fun s => String.eqb s "error" || String.eqb s "no_artifacts"
                                      || String.eqb s "skipped") rs in
            t <- now env ;;
            ret (Some {| collection_time := t; output_dir := out_dir; results := rs;
                         results_summary := {| n_collected := collected;
                                               n_partial := partial;
                                               n_failed := failed |} |})
        end
    end.

(** A record of the trigger output as the collect script reads it back
    from the runs file: the keys it uses, and no poll state yet. *)
Definition of_trigger (r : Trigger.run_record) : run :=
  {| repo := Trigger.repo r; run_id := Trigger.run_id r; completed := false;
     run_status := None; run_conclusion := None |}.

End CollectMain.

(** * Vocabulary of the further properties *)

(** A world in which every remote call fails with an exception that is
    not a GithubException. *)
Definition offline_env : Env :=
  {| clock := fun tr => inject_Z (Z.of_nat (length tr));
     os_sleep := fun _ _ => Ok tt;
     gh_get_repo := fun _ _ => Raise (OtherError "ConnectionError" "offline");
     gh_get_workflow := fun _ _ _ => Raise (OtherError "ConnectionError" "offline");
     gh_create_dispatch := fun _ _ _ _ => Raise (OtherError "ConnectionError" "offline");
     gh_get_runs := fun _ _ _ => Raise (OtherError "ConnectionError" "offline");
     gh_get_workflow_run := fun _ _ _ => Raise (OtherError "ConnectionError" "offline");
     gh_get_artifacts := fun _ _ _ => Raise (OtherError "ConnectionError" "offline");
     http_download := fun _ _ _ _ => false |}.

(** The [error] key of a record agrees with its [status]. *)
Definition error_matches_status (r : Trigger.run_record) : Prop :=
  match Trigger.error r with
  | None => Trigger.status r = "dry_run" \/ Trigger.status r = "triggered"
  | Some e =>
      (Trigger.status r = "failed" /\ e = "create_dispatch returned False")
      \/ Trigger.status r = "error"
  end.

(** What [trigger_workflow] returns, before run ids are resolved. *)
Definition fresh_record (dry_run : bool) (name wf br : string) (r : Trigger.run_record)
  : Prop :=
  Trigger.repo r = name /\ Trigger.workflow_file r = wf /\ Trigger.branch r = br
  /\ Trigger.run_id r = None
  /\ error_matches_status r
  /\ (if dry_run then Trigger.status r = "dry_run"
      else Trigger.status r = "triggered" \/ Trigger.status r = "failed"
           \/ Trigger.status r = "error").

(** [r'] is [r] after the run-id loop. *)
Definition resolved_from (r r' : Trigger.run_record) : Prop :=
  Trigger.repo r' = Trigger.repo r
  /\ Trigger.workflow_file r' = Trigger.workflow_file r
  /\ Trigger.branch r' = Trigger.branch r
  /\ Trigger.status r' = Trigger.status r
  /\ Trigger.error r' = Trigger.error r
  /\ (Trigger.run_id r' = Trigger.run_id r
      \/ (Trigger.status r = "triggered"
          /\ exists i, Trigger.run_id r' = Some i /\ i <> 0%Z)).

(** The dispatches recorded in a history, oldest first. *)
Fixpoint dispatched (tr : trace) : list (string * string * string) :=
  match tr with
  | [] => []
  | EvCreateDispatch r w b :: rest => dispatched rest ++ [(r, w, b)]
  | _ :: rest => dispatched rest
  end.

Definition dispatch_of (rc : Trigger.repo_config) : string * string * string :=
  (Trigger.rc_name rc, Trigger.rc_workflow_file rc, Trigger.rc_branch rc).

(** A world that lists the given runs for every workflow. *)
Definition runs_env (runs : list (Z * Q)) : Env :=
  {| clock := fun _ => 0%Q;
     os_sleep := fun _ _ => Ok tt;
     gh_get_repo := fun _ _ => Ok tt;
     gh_get_workflow := fun _ _ _ => Ok tt;
     gh_create_dispatch := fun _ _ _ _ => Ok true;
     gh_get_runs := fun _ _ _ => Ok runs;
     gh_get_workflow_run := fun _ _ _ => Ok ("completed", None);
     gh_get_artifacts := fun _ _ _ => Ok [];
     http_download := fun _ _ _ _ => true |}.

(** Eleven runs, of which only the last was created after time 5. *)
Definition eleven_runs : list (Z * Q) :=
  map (fun i => (i, 1%Q)) [1; 2; 3; 4; 5; 6; 7; 8; 9; 10]%Z ++ [(11%Z, 9%Q)].

(** [",".join(pieces)] *)
Fixpoint join_comma (pieces : list string) : string :=
  match pieces with
  | [] => EmptyString
  | [p] => p
  | p :: rest => String.append p (String "," (join_comma rest))
  end.

(** The target the command line gives for a repository name. *)
Definition specific_target (default_workflow default_branch : Aggregate.json)
    (n : string) : TriggerConfig.target :=
  {| TriggerConfig.name := Aggregate.JStr n;
     TriggerConfig.workflow_file := default_workflow;
     TriggerConfig.branch := default_branch;
     TriggerConfig.exclude_dirs := Aggregate.JStr "";
     TriggerConfig.enabled := true |}.

(** The pieces of the command line that name a repository: stripped,
    and not blank. *)
Definition nonblank_names (pieces : list string) : list string :=
  List.filter (fun n => negb (String.eqb n "")) (map TriggerConfig.strip pieces).

Definition default_workflow_of (settings : Aggregate.dict) : Aggregate.json :=
  Aggregate.get_default settings "default_workflow" (Aggregate.JStr "ci.yml").
Definition default_branch_of (settings : Aggregate.dict) : Aggregate.json :=
  Aggregate.get_default settings "default_branch" (Aggregate.JStr "main").

(** An entry of the configured list that is scanned: a mapping whose
    [enabled] is absent or truthy. *)
Definition scanned_entry (entry : Aggregate.json) : bool :=
  match entry with
  | Aggregate.JObj repo =>
      Aggregate.truthy (Aggregate.get_default repo "enabled" (Aggregate.JBool true))
  | _ => false
  end.

(** The target of a scanned entry. *)
Definition target_of_entry (settings : Aggregate.dict) (entry : Aggregate.json)
  : TriggerConfig.target :=
  match entry with
  | Aggregate.JObj repo =>
      {| TriggerConfig.name := Aggregate.get_default repo "name" Aggregate.JNull;
         TriggerConfig.workflow_file :=
           Aggregate.get_default repo "workflow_file" (default_workflow_of settings);
         TriggerConfig.branch :=
           Aggregate.get_default repo "branch" (default_branch_of settings);
         TriggerConfig.exclude_dirs :=
           Aggregate.get_default repo "exclude_dirs" (Aggregate.JStr "");
         TriggerConfig.enabled := true |}
  | _ => specific_target (default_workflow_of settings) (default_branch_of settings) ""
  end.

(** The configurations [get_repos_to_scan] accepts: a mapping whose
    [settings], when present, is a mapping, and, unless repositories
    are named on the command line, whose [repos], when present, can be
    iterated. *)
Definition accepted_config (config : Aggregate.json) (specific_repos : string) : bool :=
  match config with
  | Aggregate.JObj config =>
      match Aggregate.dict_get config "settings" with
      | None | Some (Aggregate.JObj _) =>
          negb (String.eqb specific_repos "")
          || match Aggregate.dict_get config "repos" with
             | None | Some (Aggregate.JList _) | Some (Aggregate.JObj _)
             | Some (Aggregate.JStr _) => true
             | _ => false
             end
      | _ => false
      end
  | _ => false
  end.

(** A configuration with two settings and five entries. *)
Definition sample_mapping : Aggregate.dict :=
    [("settings", Aggregate.JObj [("default_branch", Aggregate.JStr "develop")]);
     ("repos", Aggregate.JList
        [Aggregate.JObj [("name", Aggregate.JStr "org/a")];
         Aggregate.JObj [("name", Aggregate.JStr "org/b");
                         ("enabled", Aggregate.JBool false)];
         Aggregate.JStr "org/c";
         Aggregate.JObj [("workflow_file", Aggregate.JStr "scan.yml");
                         ("branch", Aggregate.JStr "main")];
         Aggregate.JObj [("name", Aggregate.JStr "org/e"); ("enabled", Aggregate.JInt 0)]])].

Definition sample_config : Aggregate.json := Aggregate.JObj sample_mapping.

(** An environment of the process with the two token variables. *)
Definition token_environ (github bp : option string) : TriggerConfig.environ :=
  fun name =>
    if String.eqb name "GITHUB_TOKEN" then github
    else if String.eqb name "BP_GITHUB_TOKEN" then bp
    else None.

(** [r'] is [r] after some polling: the same repository and run, and
    the same record altogether when [r] was completed or has no usable
    run id. *)
Definition settled_kept (r r' : Collect.run) : Prop :=
  Collect.repo r' = Collect.repo r
  /\ Collect.run_id r' = Collect.run_id r
  /\ (Collect.completed r = true -> r' = r)
  /\ (truthy_id (Collect.run_id r) = false -> r' = r).

(** A record the poll loop has nothing to ask about. *)
Definition settled (r : Collect.run) : bool :=
  negb (truthy_id (Collect.run_id r)) || Collect.completed r.

(** The number of sleeps in a history. *)
Fixpoint sleeps (tr : trace) : nat :=
  match tr with
  | [] => 0
  | EvSleep _ :: rest => S (sleeps rest)
  | _ :: rest => sleeps rest
  end.


(** A world whose clock shows the seconds slept, and whose runs stay
    in progress. *)
Definition patient_env : Env :=
  simple_env (Ok ("in_progress", None)) [] false (fun tr => inject_Z (slept tr)).

(** The seconds spent sleeping in a history. *)
Fixpoint waited (tr : trace) : Z :=
  match tr with
  | [] => 0
  | EvSleep n :: rest => Z.max 0 n + waited rest
  | _ :: rest => waited rest
  end.

(** A world whose clock shows the time spent sleeping, and whose runs
    stay in progress. *)
Definition steady_env : Env :=
  simple_env (Ok ("in_progress", None)) [] false (fun tr => inject_Z (waited tr)).

(** The results [collect_one] can give for a record. *)
Definition result_of (out_dir : string) (r : Collect.run) (c : Collect.collection_result)
  : Prop :=
  let dir := path_join out_dir (Collect.repo_dir_name (Collect.repo r)) in
  c = Collect.skipped (Collect.repo r) "no_run_id"
  \/ c = Collect.skipped (Collect.repo r) "not_completed"
  \/ c = Collect.with_dir (Collect.repo r) "collected" dir
  \/ c = Collect.with_dir (Collect.repo r) "partial" dir
  \/ c = Collect.no_artifacts (Collect.repo r)
  \/ exists msg, c = Collect.errored (Collect.repo r) msg.

(** One of the three calls that list the artifacts of a run, made after
    [tr], raises a GithubException. *)
Definition listing_fails (env : Env) (tr : trace) (repo : string) (id : Z) (msg : string)
  : Prop :=
  gh_get_repo env tr repo = Raise (GithubException msg)
  \/ (gh_get_repo env tr repo = Ok tt
      /\ gh_get_workflow_run env (EvGetRepo repo :: tr) repo id
         = Raise (GithubException msg))
  \/ (gh_get_repo env tr repo = Ok tt
      /\ (exists x, gh_get_workflow_run env (EvGetRepo repo :: tr) repo id = Ok x)
      /\ gh_get_artifacts env (EvGetWorkflowRun repo id :: EvGetRepo repo :: tr) repo id
         = Raise (GithubException msg)).

(** The calls that write below the output directory. *)
Definition writes_files (ev : event) : bool :=
  match ev with
  | EvMkdir _ | EvDownload _ _ _ => true
  | _ => false
  end.

(** The download of a listed artifact whose name carries a token, into
    the directory [dir]. *)
Definition download_of_match (repo dir : string) (artifacts : list artifact) (ev : event)
  : Prop :=
  exists a,
    In a artifacts
    /\ (Collect.is_canonical a = true \/ Collect.is_fallback a = true)
    /\ ev = EvDownload repo (art_id a) dir.

(** A world in which the artifacts of no run can be listed. *)
Definition no_listing_env : Env :=
  {| clock := fun _ => 0%Q;
     os_sleep := fun _ _ => Ok tt;
     gh_get_repo := fun _ _ => Ok tt;
     gh_get_workflow := fun _ _ _ => Ok tt;
     gh_create_dispatch := fun _ _ _ _ => Ok true;
     gh_get_runs := fun _ _ _ => Ok [];
     gh_get_workflow_run := fun _ _ _ => Ok ("completed", Some "success");
     gh_get_artifacts := fun _ _ _ => Raise (GithubException "410 Gone");
     http_download := fun _ _ _ _ => true |}.

(** The sum of all the counts of a table. *)
Fixpoint values_total (c : Aggregate.counter) : Z :=
  match c with
  | [] => 0
  | (_, n) :: rest => n + values_total rest
  end.

(** The keys under which a report is counted in the three tables. *)
Definition classification_of (report : Aggregate.dict) : Aggregate.json :=
  Aggregate.get_default report "classification" (Aggregate.JStr "UNKNOWN").

Definition summary_of (report : Aggregate.dict) : Aggregate.dict :=
  match Aggregate.get_default report "summary" (Aggregate.JObj []) with
  | Aggregate.JObj summary => summary
  | _ => []
  end.

Definition support_of (report : Aggregate.dict) : Aggregate.json :=
  Aggregate.JStr
    (Aggregate.support_bucket
       (Aggregate.get_default (summary_of report) "supports_local_nim" (Aggregate.JBool false))
       (Aggregate.get_default (summary_of report) "supports_hosted_nim" (Aggregate.JBool false))).

Definition usage_of (report : Aggregate.dict) : Aggregate.json :=
  Aggregate.JStr
    (Aggregate.usage_bucket
       (Aggregate.get_default (summary_of report) "uses_local_nim_in_actions"
          (Aggregate.JBool false))
       (Aggregate.get_default (summary_of report) "uses_hosted_nim_in_actions"
          (Aggregate.JBool false))).

(** The number of reports counted under the key [k]. *)
Definition counted_under (key_of : Aggregate.dict -> Aggregate.json) (k : Aggregate.json)
    (reports : list Aggregate.dict) : nat :=
  length (List.filter (fun r => Aggregate.key_eqb (key_of r) k) reports).

(** No key of the dict starts with an underscore. *)
Definition no_private_key (d : Aggregate.dict) : Prop :=
  forall k, String.prefix "_" k = true -> Aggregate.dict_get d k = None.

(** [cleaned] is [report] without the keys that start with an
    underscore: the other entries, every one of them, in their order
    and with their values. *)
Definition public_part (report cleaned : Aggregate.dict) : Prop :=
  sublist cleaned report
  /\ Forall (fun kv => String.prefix "_" (fst kv) = false) cleaned
  /\ (forall kv, In kv report -> String.prefix "_" (fst kv) = false -> In kv cleaned)
  /\ (forall k, String.prefix "_" k = false ->
       Aggregate.dict_get cleaned k = Aggregate.dict_get report k).

(** Where a loaded report comes from: a file [f] of a visible
    directory [e] of the reports directory. *)
Definition loaded_from (reports_dir : string) (e : Aggregate.dir_entry)
    (f : Aggregate.file) (d report : Aggregate.dict) : Prop :=
  Aggregate.e_is_dir e = true
  /\ String.prefix "." (Aggregate.e_name e) = false
  /\ In f (Aggregate.e_files e)
  /\ Aggregate.f_content f = Some (Aggregate.JObj d)
  /\ Aggregate.clean report = Aggregate.clean d
  /\ Aggregate.dict_get report "_source_dir"
     = Some (Aggregate.JStr (path_join reports_dir (Aggregate.e_name e)))
  /\ (Aggregate.f_name f = "nim-scan-report.json"
      \/ (Aggregate.find_file "nim-scan-report.json" (Aggregate.e_files e) = None
          /\ ends_with ".json" (Aggregate.f_name f) = true
          /\ contains "report" (lower (Aggregate.f_name f)) = true
          /\ Aggregate.dict_get report "_source_file"
             = Some (Aggregate.JStr (Aggregate.f_name f)))).

(** A report with keys of its own that start with an underscore. *)
Definition private_report : Aggregate.dict :=
  [("classification", Aggregate.JStr "LOCAL"); ("_id", Aggregate.JInt 7);
   ("_source_dir", Aggregate.JStr "elsewhere")].

Definition private_listing : list Aggregate.dir_entry :=
  [ {| Aggregate.e_name := "org-fine"; Aggregate.e_is_dir := true;
       Aggregate.e_files :=
         [ {| Aggregate.f_name := "nim-scan-report.json";
              Aggregate.f_content := Some (Aggregate.JObj private_report) |} ] |} ].

(** The record [r] after a status query that reports its run
    completed with [conclusion]. *)
Definition completed_with (conclusion : option string) (r : Collect.run) : Collect.run :=
  {| Collect.repo := Collect.repo r; Collect.run_id := Collect.run_id r;
     Collect.completed := true; Collect.run_status := Some "completed";
     Collect.run_conclusion := Some conclusion |}.

(** What the poll loop makes of a record when every run is reported
    completed: settled records stay, the others are completed. *)
Definition finish (conclusion : string -> option string) (r : Collect.run) : Collect.run :=
  if settled r then r else completed_with (conclusion (Collect.repo r)) r.

(** A world in which every run has completed, with the conclusion the
    function gives for its repository; the clock stands still. *)
Definition all_done_env (conclusion : string -> option string) : Env :=
  {| clock := fun _ => 0%Q;
     os_sleep := fun _ _ => Ok tt;
     gh_get_repo := fun _ _ => Ok tt;
     gh_get_workflow := fun _ _ _ => Ok tt;
     gh_create_dispatch := fun _ _ _ _ => Ok true;
     gh_get_runs := fun _ _ _ => Ok [];
     gh_get_workflow_run := fun _ r _ => Ok ("completed", conclusion r);
     gh_get_artifacts := fun _ _ _ => Ok [];
     http_download := fun _ _ _ _ => true |}.
(** * Properties *)

(** ** The monad and the world *)

Lemma extends_refl (tr : trace) : extends tr tr.
Proof. exists []. reflexivity. Qed.

Lemma extends_cons (ev : event) (tr' tr : trace) :
  extends tr' tr -> extends (ev :: tr') tr.
Proof. intros [l ->]. exists (ev :: l). reflexivity. Qed.

Lemma extends_trans (t3 t2 t1 : trace) :
  extends t3 t2 -> extends t2 t1 -> extends t3 t1.
Proof. intros [l ->] [l' ->]. exists (l ++ l'). now rewrite app_assoc. Qed.

Lemma extends_In (ev : event) (tr' tr : trace) :
  extends tr' tr -> In ev tr -> In ev tr'.
Proof. intros [l ->] H. apply in_or_app. now right. Qed.

Create HintDb trace.
#[local] Hint Resolve extends_refl extends_cons extends_trans : trace.

(** Case analysis on the answer of a GitHub call in a world that only
    raises [GithubException]. *)
Ltac github_cases H :=
  match goal with
  | |- context [gh_get_repo ?e ?t ?r] =>
      let G := fresh "G" in
      pose proof (geo_repo e H t r) as G;
      destruct (gh_get_repo e t r) as [[]|[| |]]; simpl in G; try contradiction; clear G
  | |- context [gh_get_workflow ?e ?t ?r ?w] =>
      let G := fresh "G" in
      pose proof (geo_workflow e H t r w) as G;
      destruct (gh_get_workflow e t r w) as [[]|[| |]]; simpl in G; try contradiction; clear G
  | |- context [gh_create_dispatch ?e ?t ?r ?w ?b] =>
      let G := fresh "G" in
      pose proof (geo_dispatch e H t r w b) as G;
      destruct (gh_create_dispatch e t r w b) as [[|]|[| |]]; simpl in G; try contradiction; clear G
  | |- context [gh_get_runs ?e ?t ?r ?w] =>
      let G := fresh "G" in
      pose proof (geo_runs e H t r w) as G;
      destruct (gh_get_runs e t r w) as [?|[| |]]; simpl in G; try contradiction; clear G
  | |- context [gh_get_workflow_run ?e ?t ?r ?i] =>
      let G := fresh "G" in
      pose proof (geo_run e H t r i) as G;
      destruct (gh_get_workflow_run e t r i) as [[? ?]|[| |]]; simpl in G; try contradiction; clear G
  | |- context [gh_get_artifacts ?e ?t ?r ?i] =>
      let G := fresh "G" in
      pose proof (geo_artifacts e H t r i) as G;
      destruct (gh_get_artifacts e t r i) as [?|[| |]]; simpl in G; try contradiction; clear G
  end.

Ltac run_monad :=
  unfold bind, ret, raise, call, except_github, now, mkdir,
    get_repo, get_workflow, create_dispatch, get_runs, get_workflow_run,
    get_artifacts; simpl.

(** ** Dispatch (trigger_scans.py) *)

Lemma batch_trace_app (env : Env) (l1 l2 : list Trigger.repo_config) (tr : trace) :
  batch_trace env (l1 ++ l2) tr = batch_trace env l2 (batch_trace env l1 tr).
Proof.
  revert tr. induction l1 as [|rc l1 IH]; intros tr; simpl; [reflexivity | apply IH].
Qed.

Lemma batch_trace_extends (env : Env) (repos : list Trigger.repo_config) (tr : trace) :
  extends (batch_trace env repos tr) tr.
Proof.
  revert tr. induction repos as [|rc rest IH]; intros tr; simpl; [apply extends_refl|].
  eapply extends_trans; [apply IH|]. eexists. reflexivity.
Qed.

(** Every dispatch step asks for its repository. *)
Lemma dispatch_step_asks (env : Env) (rc : Trigger.repo_config) (tr : trace) :
  In (EvGetRepo (Trigger.rc_name rc)) (snd (dispatch_step env rc tr)).
Proof.
  unfold dispatch_step.
  destruct (gh_get_repo env _ _); [|simpl; tauto].
  destruct (gh_get_workflow env _ _ _); simpl; tauto.
Qed.

Section Dispatch.

Variable env : Env.
Hypothesis Hgh : github_errors_only env.

(** A dispatch always yields a record for its repository, whatever the
    remote answers, and in a real run the repository was asked for. *)
Lemma trigger_workflow_total (name wf br : string) (dry_run : bool) (tr : trace) :
  exists r tr',
    Trigger.trigger_workflow env name wf br dry_run tr = (Ok r, tr')
    /\ Trigger.repo r = name
    /\ extends tr' tr
    /\ (dry_run = false -> In (EvGetRepo name) tr').
Proof.
  unfold Trigger.trigger_workflow. run_monad.
  destruct dry_run.
  - eexists _, _. repeat split; eauto with trace. discriminate.
  - github_cases Hgh; [github_cases Hgh; [github_cases Hgh|]|];
      (eexists _, _; repeat split; [eauto 10 with trace | intros _; simpl; tauto]).
Qed.

Lemma trigger_all_total (repos : list Trigger.repo_config) (dry_run : bool) (tr : trace) :
  exists results tr',
    Trigger.trigger_all env repos dry_run tr = (Ok results, tr')
    /\ length results = length repos
    /\ map Trigger.repo results = map Trigger.rc_name repos
    /\ extends tr' tr
    /\ (dry_run = false ->
        Forall (fun rc => In (EvGetRepo (Trigger.rc_name rc)) tr') repos).
Proof.
  revert tr. induction repos as [|rc rest IH]; intros tr; simpl.
  - exists [], tr. repeat split; auto with trace.
  - destruct (trigger_workflow_total (Trigger.rc_name rc) (Trigger.rc_workflow_file rc)
                (Trigger.rc_branch rc) dry_run tr) as (r & tr1 & E1 & Hr & X1 & G1).
    destruct (IH tr1) as (rs & tr2 & E2 & Hl & Hm & X2 & G2).
    exists (r :: rs), tr2. unfold bind at 1. rewrite E1.
    unfold bind at 1. rewrite E2. unfold ret. simpl.
    repeat split; try congruence; eauto with trace.
    intros Hd. constructor.
    + eapply extends_In; eauto.
    + auto.
Qed.

(** A real dispatch is the dispatch step: the calls the world lets it
    make, and the status the answers give. *)
Lemma trigger_workflow_step (rc : Trigger.repo_config) (tr : trace) :
  exists r,
    Trigger.trigger_workflow env (Trigger.rc_name rc) (Trigger.rc_workflow_file rc)
      (Trigger.rc_branch rc) false tr
    = (Ok r, snd (dispatch_step env rc tr) ++ tr)
    /\ Trigger.repo r = Trigger.rc_name rc
    /\ Trigger.status r = fst (dispatch_step env rc tr).
Proof.
  unfold Trigger.trigger_workflow, dispatch_step. run_monad.
  github_cases Hgh; [github_cases Hgh; [github_cases Hgh|]|];
    (eexists; split; [reflexivity|]; split; reflexivity).
Qed.

Lemma trigger_all_steps (repos : list Trigger.repo_config) (tr : trace) :
  exists results,
    Trigger.trigger_all env repos false tr = (Ok results, batch_trace env repos tr)
    /\ map Trigger.repo results = map Trigger.rc_name repos
    /\ map Trigger.status results = batch_statuses env repos tr.
Proof.
  revert tr. induction repos as [|rc rest IH]; intros tr; simpl.
  - exists []. auto.
  - destruct (trigger_workflow_step rc tr) as (r & E1 & Hr & Hs).
    destruct (IH (snd (dispatch_step env rc tr) ++ tr)) as (rs & E2 & Hm & Hst).
    exists (r :: rs). unfold bind at 1. rewrite E1.
    unfold bind at 1. rewrite E2. unfold ret. simpl.
    repeat split; congruence.
Qed.

Lemma get_latest_run_id_total (name wf : string) (t : Q) (tr : trace) :
  exists o tr',
    Trigger.get_latest_run_id env name wf t tr = (Ok o, tr') /\ extends tr' tr.
Proof.
  unfold Trigger.get_latest_run_id. run_monad.
  github_cases Hgh; [github_cases Hgh; [github_cases Hgh|]|];
    eexists _, _; (split; [reflexivity | eauto 6 with trace]).
Qed.

(** Resolving run ids keeps every record in place, with its status. *)
Lemma fetch_run_ids_total (t : Q) (results : list Trigger.run_record) (tr : trace) :
  exists results' tr',
    Trigger.fetch_run_ids env t results tr = (Ok results', tr')
    /\ length results' = length results
    /\ map Trigger.repo results' = map Trigger.repo results
    /\ map Trigger.status results' = map Trigger.status results
    /\ extends tr' tr.
Proof.
  revert tr. induction results as [|r rest IH]; intros tr; simpl.
  - exists [], tr. auto 6 with trace.
  - assert (exists r' tr1,
        (if String.eqb (Trigger.status r) "triggered"
         then
           o <- Trigger.get_latest_run_id env (Trigger.repo r) (Trigger.workflow_file r) t ;;
           (if truthy_id o
            then match o with
                 | Some i => ret (Trigger.set_run_id r i)
                 | None => ret r
                 end
            else ret r)
         else ret r) tr = (Ok r', tr1)
        /\ Trigger.repo r' = Trigger.repo r
        /\ Trigger.status r' = Trigger.status r
        /\ extends tr1 tr)
      as (r' & tr1 & E1 & Hr & Hs & X1).
    { destruct (String.eqb (Trigger.status r) "triggered").
      - destruct (get_latest_run_id_total (Trigger.repo r) (Trigger.workflow_file r) t tr)
          as (o & tr1 & E & X).
        unfold bind. rewrite E.
        destruct o as [i|]; simpl; [destruct (negb (i =? 0)%Z)|]; unfold ret; eauto 7.
      - unfold ret. eauto 7 with trace. }
    destruct (IH tr1) as (rs & tr2 & E2 & Hl & Hm & Hst & X2).
    exists (r' :: rs), tr2. unfold bind at 1. rewrite E1.
    unfold bind at 1. rewrite E2. unfold ret. simpl.
    repeat split; try congruence. eauto with trace.
Qed.

(** C1, as the code has it.  In a world whose remote errors are
    GithubExceptions the dispatch loop gives every repository of the
    list its dispatch step, in order and whatever the steps before it
    gave: the repository is asked for, then its workflow, then the
    dispatch is created, up to the first call that raises.  The loop
    returns one record per repository with the status of its step.
    For a list that is not empty, and when the pause of five seconds
    is carried out, [main] returns an output whose [runs] are these N
    records, in input order. *)
Theorem dispatch_batch_one_record_per_repository
    (repos : list Trigger.repo_config) (tr : trace) :
  (exists results,
      Trigger.trigger_all env repos false tr = (Ok results, batch_trace env repos tr)
      /\ length results = length repos
      /\ map Trigger.repo results = map Trigger.rc_name repos
      /\ map Trigger.status results = batch_statuses env repos tr)
  /\ (forall before rc after,
        repos = before ++ rc :: after ->
        let tr_rc := batch_trace env before tr in
        extends (batch_trace env repos tr) (snd (dispatch_step env rc tr_rc) ++ tr_rc)
        /\ In (EvGetRepo (Trigger.rc_name rc)) (batch_trace env repos tr))
  /\ (repos <> [] -> can_sleep env 5 ->
      forall dry_run,
      exists out tr',
        Trigger.main env repos dry_run tr = (Ok out, tr')
        /\ length (Trigger.runs out) = length repos
        /\ map Trigger.repo (Trigger.runs out) = map Trigger.rc_name repos
        /\ (dry_run = false ->
            map Trigger.status (Trigger.runs out)
            = batch_statuses env repos (EvClock :: tr)
            /\ extends tr' (batch_trace env repos (EvClock :: tr)))).
Proof.
  split; [|split].
  - destruct (trigger_all_steps repos tr) as (rs & E & Hm & Hs).
    exists rs. repeat split; auto.
    rewrite <- (length_map Trigger.repo), Hm. apply length_map.
  - intros before rc after -> tr_rc. subst tr_rc.
    rewrite batch_trace_app. cbn [batch_trace].
    assert (Hx : extends
                   (batch_trace env after
                      (snd (dispatch_step env rc (batch_trace env before tr))
                       ++ batch_trace env before tr))
                   (snd (dispatch_step env rc (batch_trace env before tr))
                    ++ batch_trace env before tr))
      by apply batch_trace_extends.
    split; [exact Hx|].
    eapply extends_In; [exact Hx|]. apply in_or_app. left. apply dispatch_step_asks.
  - intros Hne [Hrange Hsleep] dry_run. unfold Trigger.main.
    destruct repos as [|rc rest]; [congruence|]. cbv iota.
    clear Hne. generalize (rc :: rest). clear rc rest. intros repos.
    unfold bind at 1. unfold now at 1. unfold call at 1. cbv beta iota.
    destruct dry_run.
    + destruct (trigger_all_total repos true (EvClock :: tr))
        as (rs & tr1 & E & Hl & Hm & _ & _).
      unfold bind at 1. rewrite E. run_monad.
      eexists _, _. split; [reflexivity|]. simpl.
      split; [exact Hl|]. split; [exact Hm | discriminate].
    + destruct (trigger_all_steps repos (EvClock :: tr)) as (rs & E & Hm & Hs).
      unfold bind at 1. rewrite E.
      destruct (fetch_run_ids_total (clock env tr) rs
                  (EvSleep 5 :: batch_trace env repos (EvClock :: tr)))
        as (rs' & tr2 & E2 & Hl2 & Hm2 & Hs2 & X2).
      unfold bind at 1, sleep. cbn [Z.ltb Z.compare Pos.compare Pos.compare_cont].
      unfold bind at 1, call at 1. rewrite Hsleep. cbv beta iota.
      rewrite E2. unfold ret. eexists _, _. split; [reflexivity|]. simpl.
      split; [|split; [congruence|]].
      * rewrite Hl2, <- (length_map Trigger.repo), Hm. apply length_map.
      * intros _. split; [congruence|].
        eapply extends_trans; [exact X2|]. eexists [_]. reflexivity.
Qed.

End Dispatch.

Lemma flaky_env_github_errors_only : github_errors_only flaky_env.
Proof.
  constructor; intros; simpl; auto.
  destruct (String.eqb r "org/broken"); exact I.
Qed.

(** The statuses of a batch in which the first dispatch raises and the
    second returns false. *)
Example flaky_batch_statuses :
  match Trigger.main flaky_env three_repos false [] with
  | (Ok out, _) =>
      map Trigger.status (Trigger.runs out) = ["error"; "failed"; "triggered"]
      /\ map Trigger.run_id (Trigger.runs out) = [None; None; Some 17%Z]
      /\ Trigger.triggered out = 1 /\ Trigger.failed out = 2
  | _ => False
  end.
Proof. vm_compute. auto. Qed.

Lemma dispatch_batch_one_record_per_repository_witness :
  (exists results,
      Trigger.trigger_all flaky_env three_repos false []
      = (Ok results,
         [EvCreateDispatch "org/fine" "ci.yml" "main"; EvGetWorkflow "org/fine" "ci.yml";
          EvGetRepo "org/fine"; EvClock;
          EvCreateDispatch "org/refuses" "ci.yml" "main";
          EvGetWorkflow "org/refuses" "ci.yml"; EvGetRepo "org/refuses"; EvClock;
          EvGetRepo "org/broken"; EvClock])
      /\ length results = 3
      /\ map Trigger.repo results = ["org/broken"; "org/refuses"; "org/fine"]
      /\ map Trigger.status results = ["error"; "failed"; "triggered"])
  /\ (exists out tr',
        Trigger.main flaky_env three_repos false [] = (Ok out, tr')
        /\ length (Trigger.runs out) = 3
        /\ map Trigger.repo (Trigger.runs out) = ["org/broken"; "org/refuses"; "org/fine"]
        /\ map Trigger.status (Trigger.runs out) = ["error"; "failed"; "triggered"]).
Proof.
  destruct (dispatch_batch_one_record_per_repository flaky_env
              flaky_env_github_errors_only three_repos [])
    as [Hloop [_ Hmain]].
  split.
  - exact Hloop.
  - assert (Hne : three_repos <> []) by discriminate.
    assert (Hsleep : can_sleep flaky_env 5) by (split; [lia | reflexivity]).
    destruct (Hmain Hne Hsleep false) as (out & tr' & E & Hl & Hm & Hs).
    exists out, tr'. split; [exact E|]. split; [exact Hl|]. split; [exact Hm|].
    exact (proj1 (Hs eq_refl)).
Defined.

(** C1 as stated fails.  For an empty list [main] exits with code 0
    before the dispatch loop and writes no output at all; and a remote
    error that is not a GithubException is not handled by
    [trigger_workflow]: raised for the first repository, it ends the
    batch, nothing is dispatched for the other two and no output is
    written. *)
Lemma dispatch_batch_without_output :
  Trigger.main flaky_env [] false [] = (Raise (SystemExit 0), [])
  /\ Trigger.main offline_env three_repos false []
     = (Raise (OtherError "ConnectionError" "offline"),
        [EvGetRepo "org/broken"; EvClock; EvClock]).
Proof. split; reflexivity. Qed.

(** With no repository to scan [main] exits with code 0 in every world. *)
Example main_without_repositories (env : Env) (dry_run : bool) (tr : trace) :
  Trigger.main env [] dry_run tr = (Raise (SystemExit 0), tr).
Proof. reflexivity. Qed.

(** ** Collection (collect_reports.py) *)

(** C6: a record without a usable run id is skipped with reason
    [no_run_id], a record with a run id that is not completed is
    skipped with reason [not_completed]; both are ordinary results, and
    neither makes any call: the history is returned as it was. *)
Theorem collect_skips_without_remote_call
    (env : Env) (output_dir : string) (r : Collect.run) (tr : trace) :
  (truthy_id (Collect.run_id r) = false ->
     exists c,
       Collect.collect_one env output_dir r tr = (Ok c, tr)
       /\ Collect.cr_repo c = Collect.repo r
       /\ Collect.cr_status c = "skipped"
       /\ Collect.cr_reason c = Some "no_run_id"
       /\ Collect.spec_status c = Some Collect.skipped_no_run_id)
  /\ (truthy_id (Collect.run_id r) = true -> Collect.completed r = false ->
     exists c,
       Collect.collect_one env output_dir r tr = (Ok c, tr)
       /\ Collect.cr_repo c = Collect.repo r
       /\ Collect.cr_status c = "skipped"
       /\ Collect.cr_reason c = Some "not_completed"
       /\ Collect.spec_status c = Some Collect.skipped_not_completed).
Proof.
  unfold Collect.collect_one. split.
  - intros ->. simpl. eexists. split; [reflexivity|]. auto.
  - intros -> ->. simpl. eexists. split; [reflexivity|]. auto.
Qed.

Lemma collect_skips_without_remote_call_witness :
  (exists c,
      Collect.collect_one flaky_env "reports" unresolved_run [] = (Ok c, [])
      /\ Collect.cr_repo c = "org/fine"
      /\ Collect.cr_status c = "skipped"
      /\ Collect.cr_reason c = Some "no_run_id"
      /\ Collect.spec_status c = Some Collect.skipped_no_run_id)
  /\ (exists c,
      Collect.collect_one flaky_env "reports" pending_run [] = (Ok c, [])
      /\ Collect.cr_repo c = "org/fine"
      /\ Collect.cr_status c = "skipped"
      /\ Collect.cr_reason c = Some "not_completed"
      /\ Collect.spec_status c = Some Collect.skipped_not_completed).
Proof.
  split.
  - apply (collect_skips_without_remote_call flaky_env "reports" unresolved_run []).
    reflexivity.
  - apply (collect_skips_without_remote_call flaky_env "reports" pending_run []);
      reflexivity.
Defined.

(** A run id of 0 is falsy in Python: such a record is skipped like a
    record without run id. *)
Example run_id_zero_is_skipped :
  fst (Collect.collect_one flaky_env "reports"
         {| Collect.repo := "org/fine"; Collect.run_id := Some 0%Z;
            Collect.completed := true; Collect.run_status := None;
            Collect.run_conclusion := None |} [])
  = Ok (Collect.skipped "org/fine" "no_run_id").
Proof. reflexivity. Qed.

(** *** The poll loop *)

(** What [check_run_status] returns when the query raises. *)
Lemma check_run_status_failed (env : Env) (repo : string) (id : Z) (msg : string)
    (tr : trace) :
  query_fails env tr repo id msg ->
  exists tr',
    Collect.check_run_status env repo id tr
    = (Ok {| Collect.sd_status := "error"; Collect.sd_conclusion := None;
             Collect.sd_completed := false; Collect.sd_error := Some msg |}, tr')
    /\ extends tr' (EvGetRepo repo :: tr).
Proof.
  unfold query_fails, Collect.check_run_status. run_monad.
  intros [H | [H1 H2]].
  - rewrite H. eauto with trace.
  - rewrite H1, H2. eauto with trace.
Qed.

(** A poll of a record that is not completed starts with a status
    query for it. *)
Lemma poll_run_queries (env : Env) (r : Collect.run) (id : Z) (tr : trace) :
  Collect.completed r = false -> Collect.run_id r = Some id ->
  extends (snd (Collect.poll_run env r tr)) (EvGetRepo (Collect.repo r) :: tr).
Proof.
  intros Hc Hid. unfold Collect.poll_run. rewrite Hc, Hid.
  unfold Collect.check_run_status. run_monad.
  destruct (gh_get_repo env tr (Collect.repo r)) as [[]|[| |]]; simpl;
    eauto with trace.
  destruct (gh_get_workflow_run env _ (Collect.repo r) id) as [[s c]|[| |]]; simpl;
    try destruct (String.eqb s "completed"); simpl; eauto with trace.
Qed.

(** C2, as the code has it: when the status query of a pending record
    raises a GithubException, the round does not mark the record
    completed and reports it as not completed, so that the loop goes
    on and the next round queries it again; the stored status is
    overwritten with "error" and the stored conclusion with None. *)
Theorem failed_status_query_keeps_record_pending
    (env : Env) (r : Collect.run) (id : Z) (msg : string) (tr : trace) :
  Collect.completed r = false ->
  Collect.run_id r = Some id ->
  query_fails env tr (Collect.repo r) id msg ->
  exists r' tr',
    Collect.poll_run env r tr = (Ok (r', false), tr')
    /\ Collect.completed r' = false
    /\ Collect.repo r' = Collect.repo r
    /\ Collect.run_id r' = Collect.run_id r
    /\ Collect.run_status r' = Some "error"
    /\ Collect.run_conclusion r' = Some None
    /\ forall tr2,
         extends (snd (Collect.poll_run env r' tr2)) (EvGetRepo (Collect.repo r) :: tr2).
Proof.
  intros Hc Hid Hq.
  destruct (check_run_status_failed env (Collect.repo r) id msg tr Hq) as (tr' & E & _).
  unfold Collect.poll_run. rewrite Hc, Hid. unfold bind. rewrite E. simpl.
  eexists _, _. split; [reflexivity|]. simpl. repeat split; auto.
  intros tr2.
  apply (poll_run_queries env (Collect.store_status r _) id tr2); simpl; auto.
Qed.

Lemma failed_status_query_keeps_record_pending_witness :
  exists r' tr',
    Collect.poll_run unreachable_env in_progress_run [] = (Ok (r', false), tr')
    /\ Collect.completed r' = false
    /\ Collect.repo r' = "org/fine"
    /\ Collect.run_id r' = Some 17%Z
    /\ Collect.run_status r' = Some "error"
    /\ Collect.run_conclusion r' = Some None
    /\ forall tr2,
         extends (snd (Collect.poll_run unreachable_env r' tr2))
                 (EvGetRepo "org/fine" :: tr2).
Proof.
  apply (failed_status_query_keeps_record_pending unreachable_env in_progress_run
           17%Z "502" []).
  - reflexivity.
  - reflexivity.
  - right. split; reflexivity.
Defined.

(** C2 as stated fails: the stored status of a record that was
    "in_progress" is not left unchanged by a failed query. *)
Lemma failed_status_query_overwrites_status :
  match Collect.poll_run unreachable_env in_progress_run [] with
  | (Ok (r', _), _) =>
      Collect.run_status in_progress_run = Some "in_progress"
      /\ Collect.run_status r' = Some "error"
      /\ Collect.run_status r' <> Collect.run_status in_progress_run
  | _ => False
  end.
Proof. vm_compute. repeat split; discriminate. Qed.

(** *** The poll loop under a deadline *)

Lemma reported_completed_widen (env : Env) (tr1 tr1' tr tr' : trace) (r : Collect.run) :
  extends tr1 tr -> extends tr' tr1' ->
  reported_completed env tr1 tr1' r -> reported_completed env tr tr' r.
Proof.
  intros X1 X2 (id & c & tr0 & Hid & Xa & Xb & Hq).
  exists id, c, tr0. repeat split; eauto with trace.
Qed.

Lemma polled_from_refl (env : Env) (tr tr' : trace) (r : Collect.run) :
  polled_from env tr tr' r r.
Proof. unfold polled_from. auto. Qed.

Lemma polled_from_widen (env : Env) (tr1 tr1' tr tr' : trace) (r r' : Collect.run) :
  extends tr1 tr -> extends tr' tr1' ->
  polled_from env tr1 tr1' r r' -> polled_from env tr tr' r r'.
Proof.
  intros X1 X2 (Hr & Hi & Hc). unfold polled_from. repeat split; auto.
  intros H. destruct (Hc H) as [|Hq]; [auto|].
  right. eapply reported_completed_widen; eauto.
Qed.

Lemma polled_from_trans (env : Env) (tr tr' : trace) (r1 r2 r3 : Collect.run) :
  polled_from env tr tr' r1 r2 -> polled_from env tr tr' r2 r3 ->
  polled_from env tr tr' r1 r3.
Proof.
  intros (Hr & Hi & Hc) (Hr' & Hi' & Hc'). unfold polled_from.
  repeat split; try congruence.
  intros H3. destruct (Hc' H3) as [H2 | (id & c & tr0 & E1 & Xa & Xb & E2)]; [auto|].
  right. exists id, c, tr0. rewrite <- Hr, <- Hi. auto.
Qed.

Lemma polled_from_all_refl (env : Env) (tr tr' : trace) (runs : list Collect.run) :
  Forall2 (polled_from env tr tr') runs runs.
Proof. induction runs; constructor; auto using polled_from_refl. Qed.

Lemma polled_from_all_widen (env : Env) (tr1 tr1' tr tr' : trace)
    (l l' : list Collect.run) :
  extends tr1 tr -> extends tr' tr1' ->
  Forall2 (polled_from env tr1 tr1') l l' -> Forall2 (polled_from env tr tr') l l'.
Proof.
  intros X1 X2 H. induction H; constructor; eauto using polled_from_widen.
Qed.

Lemma polled_from_all_trans (env : Env) (tr tr' : trace) (l1 l2 l3 : list Collect.run) :
  Forall2 (polled_from env tr tr') l1 l2 -> Forall2 (polled_from env tr tr') l2 l3 ->
  Forall2 (polled_from env tr tr') l1 l3.
Proof.
  intros H. revert l3. induction H; intros l3 H3; inversion H3; subst; constructor;
    eauto using polled_from_trans.
Qed.

Lemma pending_valid_polled (env : Env) (tr tr' : trace) (pending : list nat)
    (runs runs' : list Collect.run) :
  Forall2 (polled_from env tr tr') runs runs' ->
  pending_valid pending runs -> pending_valid pending runs'.
Proof.
  intros H2 Hv. unfold pending_valid in *. eapply Forall_impl; [exact Hv|].
  intros i (r & Hl & Ht). simpl.
  destruct (Forall2_lookup_l _ _ _ _ _ H2 Hl) as (r' & Hl' & (_ & Hid & _)).
  exists r'. split; [exact Hl' | congruence].
Qed.

Lemma pending_from_valid (pre runs : list Collect.run) :
  pending_valid (Collect.pending_from (length pre) runs) (pre ++ runs).
Proof.
  revert pre. induction runs as [|r rest IH]; intros pre; simpl.
  - constructor.
  - pose proof (IH (pre ++ [r])) as IH'.
    rewrite length_app in IH'. simpl in IH'. rewrite Nat.add_1_r in IH'.
    rewrite <- app_assoc in IH'. simpl in IH'.
    destruct (truthy_id (Collect.run_id r)) eqn:Et; [|exact IH'].
    constructor; [|exact IH'].
    exists r. split; [|exact Et]. now apply list_lookup_middle.
Qed.

Lemma wait_loop_round (env : Env) (fuel : nat) (start : Q) (timeout interval : Z)
    (pending : list nat) (runs : list Collect.run) :
  Collect.wait_loop env (S fuel) start timeout interval pending runs
  = (t <- now env ;;
     if time_gtb (Qminus t start) (inject_Z timeout) then ret (Some runs)
     else
       st <- Collect.poll_round env pending
               {| Collect.store := runs; Collect.all_completed := true;
                  Collect.completed_count := 0 |} ;;
       if Collect.all_completed st then ret (Some (Collect.store st))
       else sleep env interval ;;;
            Collect.wait_loop env fuel start timeout interval pending (Collect.store st)).
Proof. reflexivity. Qed.

(** A sleep the platform carries out is recorded and returns. *)
Lemma sleep_carried_out (env : Env) (seconds : Z) (tr : trace) :
  can_sleep env seconds -> sleep env seconds tr = (Ok tt, EvSleep seconds :: tr).
Proof.
  intros [[Hlo Hhi] Hs]. unfold sleep.
  apply Z.ltb_ge in Hlo. rewrite Hlo.
  assert (Hhi' : (9223372036 <? seconds)%Z = false) by (apply Z.ltb_ge; exact Hhi).
  rewrite Hhi'. unfold call. now rewrite Hs.
Qed.

Lemma round_trace_cons (env : Env) (r : Collect.run) (rest : list Collect.run)
    (tr : trace) :
  round_trace env (r :: rest) tr = round_trace env rest (round_trace env [r] tr).
Proof.
  cbn [round_trace]. destruct (Collect.run_id r) as [id|]; [|reflexivity].
  destruct (truthy_id (Some id) && negb (Collect.completed r)); [|reflexivity].
  destruct (gh_get_repo env tr (Collect.repo r)); reflexivity.
Qed.

Section Polling.

Variable env : Env.
Hypothesis Hgh : github_errors_only env.

Lemma check_run_status_total (repo : string) (id : Z) (tr : trace) :
  exists st tr',
    Collect.check_run_status env repo id tr = (Ok st, tr')
    /\ extends tr' tr
    /\ (Collect.sd_completed st = true ->
        exists c,
          gh_get_workflow_run env (EvGetRepo repo :: tr) repo id = Ok ("completed", c)
          /\ tr' = EvGetWorkflowRun repo id :: EvGetRepo repo :: tr).
Proof.
  unfold Collect.check_run_status. run_monad.
  github_cases Hgh.
  - destruct (gh_get_workflow_run env (EvGetRepo repo :: tr) repo id)
      as [[s c]|[| |]] eqn:E.
    + eexists _, _. split; [reflexivity|]. split; [eauto with trace|]. simpl.
      intros Hs. apply String.eqb_eq in Hs. subst s. eauto.
    + eexists _, _. split; [reflexivity|]. split; [eauto with trace | discriminate].
    + pose proof (geo_run env Hgh (EvGetRepo repo :: tr) repo id) as G.
      rewrite E in G. contradiction.
    + pose proof (geo_run env Hgh (EvGetRepo repo :: tr) repo id) as G.
      rewrite E in G. contradiction.
  - eexists _, _. split; [reflexivity|]. split; [eauto with trace | discriminate].
Qed.

(** A poll of a record with a usable run id returns, and marks the
    record completed only on the word of the remote, given in this
    very poll. *)
Lemma poll_run_total (r : Collect.run) (tr : trace) :
  truthy_id (Collect.run_id r) = true ->
  exists r' done tr',
    Collect.poll_run env r tr = (Ok (r', done), tr')
    /\ extends tr' tr
    /\ polled_from env tr tr' r r'.
Proof.
  intros Ht. unfold Collect.poll_run.
  destruct (Collect.completed r) eqn:Ec.
  - unfold ret. eexists _, _, _. split; [reflexivity|].
    split; [apply extends_refl | apply polled_from_refl].
  - destruct (Collect.run_id r) as [id|] eqn:Eid; [|discriminate].
    destruct (check_run_status_total (Collect.repo r) id tr) as (st & tr' & E & X & Hst).
    unfold bind. rewrite E.
    destruct (Collect.sd_completed st) eqn:Es; unfold ret; eexists _, _, _;
      (split; [reflexivity|]); (split; [exact X|]);
      unfold polled_from; simpl; repeat split; auto.
    intros _. right. destruct (Hst eq_refl) as (c & Hq & ->).
    exists id, c, (EvGetRepo (Collect.repo r) :: tr).
    repeat split; auto with trace.
Qed.

Lemma poll_round_total (pending : list nat) (st : Collect.round_state) (tr : trace) :
  pending_valid pending (Collect.store st) ->
  exists st' tr',
    Collect.poll_round env pending st tr = (Ok st', tr')
    /\ extends tr' tr
    /\ Forall2 (polled_from env tr tr') (Collect.store st) (Collect.store st').
Proof.
  revert st tr. induction pending as [|i rest IH]; intros st tr Hv; simpl.
  - unfold ret. eexists _, _. split; [reflexivity|].
    split; [apply extends_refl | apply polled_from_all_refl].
  - inversion Hv as [|? ? (r & Hl & Ht) Hrest]; subst. rewrite Hl.
    destruct (poll_run_total r tr Ht) as (r' & done & tr1 & E & X1 & Hp).
    unfold bind. rewrite E. simpl.
    assert (Hstep : Forall2 (polled_from env tr tr1) (Collect.store st)
                      (<[i:=r']> (Collect.store st))).
    { rewrite <- (list_insert_id _ _ _ Hl) at 1.
      apply Forall2_insert; [apply polled_from_all_refl | exact Hp]. }
    match goal with
    | |- context [Collect.poll_round env rest ?s tr1] =>
        destruct (IH s tr1) as (st' & tr2 & E2 & X2 & H2)
    end.
    { simpl. eapply pending_valid_polled; eauto. }
    rewrite E2. eexists _, _. split; [reflexivity|].
    split; [eauto with trace|].
    simpl in H2. eapply polled_from_all_trans.
    + eapply polled_from_all_widen; [apply extends_refl | exact X2 | exact Hstep].
    + eapply polled_from_all_widen; [exact X1 | apply extends_refl | exact H2].
Qed.

Lemma wait_loop_total (fuel : nat) (start : Q) (timeout interval : Z)
    (pending : list nat) (runs : list Collect.run) (tr : trace) :
  can_sleep env interval ->
  pending_valid pending runs ->
  exists res tr',
    Collect.wait_loop env fuel start timeout interval pending runs tr = (Ok res, tr')
    /\ extends tr' tr
    /\ forall runs', res = Some runs' -> Forall2 (polled_from env tr tr') runs runs'.
Proof.
  intros Hi. revert runs tr. induction fuel as [|fuel IH]; intros runs tr Hv.
  - simpl. unfold ret. eexists _, _. split; [reflexivity|].
    split; [apply extends_refl | discriminate].
  - rewrite wait_loop_round. unfold bind at 1, now, call at 1. cbv beta iota.
    destruct (time_gtb _ _).
    + unfold ret. eexists _, _. split; [reflexivity|].
      split; [eauto with trace|].
      intros ? [= <-]. apply polled_from_all_refl.
    + destruct (poll_round_total pending
                  {| Collect.store := runs; Collect.all_completed := true;
                     Collect.completed_count := 0 |} (EvClock :: tr) Hv)
        as (st' & tr1 & E & X1 & H2).
      unfold bind at 1. rewrite E. simpl in H2.
      assert (Hfirst : Forall2 (polled_from env tr tr1) runs (Collect.store st')).
      { eapply polled_from_all_widen; [|apply extends_refl | exact H2].
        eauto with trace. }
      destruct (Collect.all_completed st').
      * unfold ret. eexists _, _. split; [reflexivity|].
        split; [eauto with trace|]. now intros ? [= <-].
      * unfold bind at 1. rewrite (sleep_carried_out env interval tr1 Hi).
        destruct (IH (Collect.store st') (EvSleep interval :: tr1))
          as (res & tr2 & E2 & X2 & H3).
        { eapply pending_valid_polled; eauto. }
        rewrite E2. eexists _, _. split; [reflexivity|].
        split; [eauto 6 with trace|].
        intros runs' ->. eapply polled_from_all_trans.
        -- eapply polled_from_all_widen; [apply extends_refl | | exact Hfirst].
           eauto with trace.
        -- eapply polled_from_all_widen; [| apply extends_refl | exact (H3 _ eq_refl)].
           eauto 6 with trace.
Qed.

(** Whatever the deadline and the clock, the poll loop raises nothing,
    and the records it returns are the given ones, each marked
    completed only if it was already or the remote said so when asked
    by this call. *)
Lemma wait_for_completion_total (fuel : nat) (runs : list Collect.run)
    (timeout_minutes interval : Z) (tr : trace) :
  can_sleep env interval ->
  exists res tr',
    Collect.wait_for_completion env fuel runs timeout_minutes interval tr = (Ok res, tr')
    /\ extends tr' tr
    /\ forall runs', res = Some runs' -> Forall2 (polled_from env tr tr') runs runs'.
Proof.
  intros Hi. unfold Collect.wait_for_completion, bind, now, call.
  pose proof (pending_from_valid [] runs) as Hv. simpl in Hv.
  fold (Collect.pending_runs runs) in Hv.
  destruct (Collect.pending_runs runs) as [|i rest].
  - unfold ret. eexists _, _. split; [reflexivity|].
    split; [eauto with trace|].
    intros ? [= <-]. apply polled_from_all_refl.
  - destruct (wait_loop_total fuel (clock env tr) (timeout_minutes * 60) interval
                (i :: rest) runs (EvClock :: tr) Hi Hv) as (res & tr' & E & X & H).
    rewrite E. eexists _, _. split; [reflexivity|].
    split; [eauto with trace|].
    intros runs' Hr. eapply polled_from_all_widen; [| apply extends_refl | exact (H _ Hr)].
    eauto with trace.
Qed.

(** The poll of one record with a usable run id makes the calls of its
    round; a record that is not completed, and whose run the remote
    never reports completed, counts as not completed. *)
Lemma poll_run_round (r : Collect.run) (tr : trace) :
  truthy_id (Collect.run_id r) = true ->
  exists r' done,
    Collect.poll_run env r tr = (Ok (r', done), round_trace env [r] tr)
    /\ (Collect.completed r = false -> stays_pending env r -> done = false).
Proof.
  intros Ht. unfold Collect.poll_run. cbn [round_trace].
  destruct (Collect.run_id r) as [id|] eqn:Eid; [|discriminate].
  rewrite Ht. destruct (Collect.completed r) eqn:Ec; cbn [negb andb].
  - unfold ret. eexists _, _. split; [reflexivity | discriminate].
  - unfold Collect.check_run_status. run_monad.
    github_cases Hgh.
    + destruct (gh_get_workflow_run env (EvGetRepo (Collect.repo r) :: tr)
                  (Collect.repo r) id) as [[s c]|[| |]] eqn:E.
      * simpl. destruct (String.eqb s "completed") eqn:Es.
        -- eexists _, _. split; [reflexivity|]. intros _ Hp.
           apply String.eqb_eq in Es. subst s. now destruct (Hp _ _ _ _ Eid E).
        -- eexists _, _. split; [reflexivity | reflexivity].
      * eexists _, _. split; [reflexivity | reflexivity].
      * pose proof (geo_run env Hgh (EvGetRepo (Collect.repo r) :: tr)
                      (Collect.repo r) id) as G.
        rewrite E in G. contradiction.
      * pose proof (geo_run env Hgh (EvGetRepo (Collect.repo r) :: tr)
                      (Collect.repo r) id) as G.
        rewrite E in G. contradiction.
    + eexists _, _. split; [reflexivity | reflexivity].
Qed.

(** One pass over the pending records makes the calls of a round, and
    does not count all completed when a record stays pending. *)
Lemma poll_round_round (suffix pre : list Collect.run) (st : Collect.round_state)
    (tr : trace) :
  Collect.store st = pre ++ suffix ->
  exists st',
    Collect.poll_round env (Collect.pending_from (length pre) suffix) st tr
    = (Ok st', round_trace env suffix tr)
    /\ (Collect.all_completed st = false -> Collect.all_completed st' = false)
    /\ (forall r, In r suffix -> truthy_id (Collect.run_id r) = true ->
                  Collect.completed r = false -> stays_pending env r ->
                  Collect.all_completed st' = false).
Proof.
  revert pre st tr. induction suffix as [|r rest IH]; intros pre st tr Hst.
  - simpl. unfold ret. exists st. split; [reflexivity|]. split; [auto|]. intros r [].
  - assert (Hnext : forall (x : Collect.run) t, (pre ++ [x]) ++ t = pre ++ x :: t)
      by (intros; now rewrite <- app_assoc).
    assert (Hlen : forall x : Collect.run, length (pre ++ [x]) = S (length pre))
      by (intros; rewrite length_app; simpl; lia).
    rewrite round_trace_cons. cbn [Collect.pending_from].
    destruct (truthy_id (Collect.run_id r)) eqn:Et.
    + cbn [Collect.poll_round]. rewrite Hst.
      rewrite (list_lookup_middle pre rest r (length pre) eq_refl).
      destruct (poll_run_round r tr Et) as (r' & done & E1 & Hdone).
      unfold bind at 1. rewrite E1. cbn [fst snd].
      rewrite insert_app_r_alt by lia. rewrite Nat.sub_diag. cbn [insert list_insert].
      match goal with
      | |- context [Collect.poll_round env _ ?s (round_trace env [r] tr)] =>
          destruct (IH (pre ++ [r']) s (round_trace env [r] tr))
            as (st' & E2 & Hkeep & Hpend)
      end.
      { simpl. now rewrite Hnext. }
      rewrite Hlen in E2. exists st'. split; [exact E2|]. simpl in Hkeep.
      split.
      * intros Hf. apply Hkeep. rewrite Hf. now destruct done.
      * intros x [<-|Hin] Hx Hc Hp; [|eauto].
        apply Hkeep. rewrite (Hdone Hc Hp). reflexivity.
    + destruct (IH (pre ++ [r]) st (round_trace env [r] tr)) as (st' & E & Hkeep & Hpend);
        [now rewrite Hnext|].
      rewrite Hlen in E.
      assert (Hsame : round_trace env [r] tr = tr).
      { cbn [round_trace]. destruct (Collect.run_id r) as [id|]; [|reflexivity].
        rewrite Et. reflexivity. }
      rewrite Hsame in E. rewrite Hsame. exists st'. split; [exact E|].
      split; [exact Hkeep|].
      intros x [<-|Hin] Hx Hc Hp; [congruence | eauto].
Qed.

End Polling.

Lemma time_gtb_elapsed (start t : Q) :
  Qlt start t -> time_gtb (Qminus t start) (inject_Z 0) = true.
Proof.
  intros H. unfold time_gtb. apply negb_true_iff.
  destruct (Qle_bool (Qminus t start) (inject_Z 0)) eqn:E; [|reflexivity].
  apply Qle_bool_iff in E. change (inject_Z 0) with 0%Q in E. lra.
Qed.

Lemma time_gtb_not_elapsed (start t : Q) :
  Qle t start -> time_gtb (Qminus t start) (inject_Z 0) = false.
Proof.
  intros H. unfold time_gtb. apply negb_false_iff. apply Qle_bool_iff.
  change (inject_Z 0) with 0%Q. lra.
Qed.

Lemma pending_from_of_usable (r : Collect.run) (runs : list Collect.run) (i : nat) :
  In r runs -> truthy_id (Collect.run_id r) = true -> Collect.pending_from i runs <> [].
Proof.
  revert i. induction runs as [|x rest IH]; intros i Hin Ht; [destruct Hin|].
  destruct Hin as [<-|Hin]; simpl.
  - rewrite Ht. discriminate.
  - destruct (truthy_id (Collect.run_id x)); [discriminate | now apply IH].
Qed.

(** C3, as the code has it.  With a zero timeout: once the clock has
    moved past the start time at the first deadline check, the loop
    makes no status check and does not sleep, and returns the records
    as they were.  When the clock has not moved by then, the elapsed
    time 0 is not greater than the timeout 0: the loop makes a round
    of status checks, one query for each record with a usable run id
    that is not completed, and, a record staying pending, sleeps for
    the poll interval before it checks the deadline again.  And
    whatever the clock does, with remote errors that are
    GithubExceptions and a poll interval that the platform sleeps, the
    call raises nothing and a record comes back marked completed only
    if it already was or a status query of this call reported its run
    completed. *)
Theorem zero_timeout_poll
    (env : Env) (runs : list Collect.run) (interval : Z) (tr : trace) :
  (Qlt (clock env tr) (clock env (EvClock :: tr)) ->
     forall fuel,
     exists tr',
       Collect.wait_for_completion env (S fuel) runs 0 interval tr = (Ok (Some runs), tr')
       /\ (tr' = EvClock :: tr \/ tr' = EvClock :: EvClock :: tr))
  /\ (github_errors_only env -> can_sleep env interval ->
      (Qle (clock env (EvClock :: tr)) (clock env tr) ->
       forall r,
         In r runs -> truthy_id (Collect.run_id r) = true ->
         Collect.completed r = false -> stays_pending env r ->
         forall fuel,
         exists res l,
           Collect.wait_for_completion env (S fuel) runs 0 interval tr
           = (Ok res,
              l ++ EvSleep interval :: round_trace env runs (EvClock :: EvClock :: tr)))
      /\ (forall fuel,
          exists res tr',
            Collect.wait_for_completion env fuel runs 0 interval tr = (Ok res, tr')
            /\ forall runs', res = Some runs' ->
                 Forall2 (polled_from env tr tr') runs runs')).
Proof.
  split.
  - intros Hclock fuel. unfold Collect.wait_for_completion, bind at 1, now, call at 1.
    destruct (Collect.pending_runs runs) as [|i rest].
    + unfold ret. eauto.
    + rewrite wait_loop_round. unfold bind at 1, now, call at 1. cbv beta iota.
      change (0 * 60)%Z with 0%Z. rewrite (time_gtb_elapsed _ _ Hclock).
      unfold ret. eauto.
  - intros Hgh Hi. split.
    + intros Hclock r Hin Ht Hc Hp fuel.
      unfold Collect.wait_for_completion, bind at 1, now, call at 1. cbv beta iota.
      pose proof (pending_from_valid [] runs) as Hv. simpl in Hv.
      pose proof (pending_from_of_usable r runs 0 Hin Ht) as Hne.
      unfold Collect.pending_runs.
      destruct (Collect.pending_from 0 runs) as [|i rest] eqn:Ep; [congruence|].
      rewrite <- Ep. rewrite <- Ep in Hv. clear Hne. rewrite wait_loop_round.
      unfold bind at 1, now, call at 1. cbv beta iota.
      change (0 * 60)%Z with 0%Z. rewrite (time_gtb_not_elapsed _ _ Hclock).
      destruct (poll_round_round env Hgh runs []
                  {| Collect.store := runs; Collect.all_completed := true;
                     Collect.completed_count := 0 |} (EvClock :: EvClock :: tr) eq_refl)
        as (st' & E & _ & Hpend).
      simpl in E. unfold bind at 1. rewrite E.
      rewrite (Hpend r Hin Ht Hc Hp).
      destruct (poll_round_total env Hgh (Collect.pending_from 0 runs)
                  {| Collect.store := runs; Collect.all_completed := true;
                     Collect.completed_count := 0 |} (EvClock :: EvClock :: tr))
        as (st2 & tr2 & E' & _ & Hpolled); [exact Hv|].
      rewrite E in E'. injection E' as <- <-. simpl in Hpolled.
      unfold bind at 1. rewrite (sleep_carried_out env interval _ Hi).
      destruct (wait_loop_total env Hgh fuel (clock env tr) 0 interval
                  (Collect.pending_from 0 runs) (Collect.store st')
                  (EvSleep interval :: round_trace env runs (EvClock :: EvClock :: tr))
                  Hi)
        as (res & tr3 & E3 & [l ->] & _).
      { eapply pending_valid_polled; eauto. }
      rewrite E3. exists res, l. reflexivity.
    + intros fuel.
      destruct (wait_for_completion_total env Hgh fuel runs 0 interval tr Hi)
        as (res & tr' & E & _ & H).
      exists res, tr'. auto.
Qed.

Lemma zero_timeout_poll_witness :
  (exists tr',
      Collect.wait_for_completion ticking_env 1 [unresolved_run; pending_run] 0 30 []
      = (Ok (Some [unresolved_run; pending_run]), tr')
      /\ (tr' = [EvClock] \/ tr' = [EvClock; EvClock]))
  /\ (exists res l,
      Collect.wait_for_completion coarse_clock_env 3 [unresolved_run; pending_run] 0 30 []
      = (Ok res,
         l ++ [EvSleep 30; EvGetWorkflowRun "org/fine" 17; EvGetRepo "org/fine";
               EvClock; EvClock]))
  /\ (exists res tr',
      Collect.wait_for_completion coarse_clock_env 3 [unresolved_run; pending_run] 0 30 []
      = (Ok res, tr')
      /\ forall runs', res = Some runs' ->
           Forall2 (polled_from coarse_clock_env [] tr') [unresolved_run; pending_run]
                   runs').
Proof.
  assert (Hgh : github_errors_only coarse_clock_env) by (constructor; intros; exact I).
  assert (Hi : can_sleep coarse_clock_env 30) by (split; [lia | reflexivity]).
  split; [|split].
  - apply (zero_timeout_poll ticking_env [unresolved_run; pending_run] 30 []).
    reflexivity.
  - destruct (zero_timeout_poll coarse_clock_env [unresolved_run; pending_run] 30 [])
      as [_ H].
    destruct (H Hgh Hi) as [Hround _].
    apply (Hround ltac:(discriminate) pending_run).
    + simpl. tauto.
    + reflexivity.
    + reflexivity.
    + intros tr id s c _ [= <- _]. discriminate.
  - destruct (zero_timeout_poll coarse_clock_env [unresolved_run; pending_run] 30 [])
      as [_ H].
    destruct (H Hgh Hi) as [_ Hsafe]. apply Hsafe.
Defined.

(** C3 as stated fails: when the clock has not moved at the first
    deadline check, the elapsed time 0 is not greater than the timeout
    0, a round of status checks is made and, a record being still
    pending, the loop sleeps for the poll interval before it returns. *)
Lemma zero_timeout_poll_sleeps :
  Collect.wait_for_completion coarse_clock_env 3 [pending_run] 0 30 []
  = (Ok (Some [{| Collect.repo := "org/fine"; Collect.run_id := Some 17%Z;
                  Collect.completed := false;
                  Collect.run_status := Some "in_progress";
                  Collect.run_conclusion := Some None |}]),
     [EvClock; EvSleep 30; EvGetWorkflowRun "org/fine" 17; EvGetRepo "org/fine";
      EvClock; EvClock])
  /\ In (EvSleep 30)
        (snd (Collect.wait_for_completion coarse_clock_env 3 [pending_run] 0 30 [])).
Proof. split; [reflexivity | simpl; tauto]. Qed.

(** A poll interval that does not fit the C time type makes the sleep
    raise, and a negative one as well: the poll loop ends with the
    exception. *)
Example poll_interval_out_of_range :
  fst (Collect.wait_for_completion coarse_clock_env 3 [pending_run] 0 10000000000 [])
  = Raise (OtherError "OverflowError" "timestamp too large to convert to C _PyTime_t")
  /\ fst (Collect.wait_for_completion coarse_clock_env 3 [pending_run] 0 (-1) [])
     = Raise (OtherError "ValueError" "sleep length must be non-negative").
Proof. split; reflexivity. Qed.

(** *** Artifact tiers *)

Lemma download_canonical_run (env : Env) (repo dir : string) (artifacts : list artifact)
    (found : bool) (tr : trace) :
  Collect.download_canonical env repo dir artifacts found tr
  = (Ok (found || canonical_found env repo dir artifacts tr),
     canonical_trace repo dir artifacts tr).
Proof.
  revert found tr. induction artifacts as [|a rest IH]; intros found tr; simpl.
  - unfold ret. now rewrite orb_false_r.
  - destruct (Collect.is_canonical a).
    + unfold bind, Collect.download_artifact, call. rewrite IH.
      destruct (http_download env tr repo (art_id a) dir); simpl.
      * now rewrite orb_true_r.
      * reflexivity.
    + apply IH.
Qed.

Lemma download_fallback_run (env : Env) (repo dir : string) (artifacts : list artifact)
    (found : bool) (tr : trace) :
  Collect.download_fallback env repo dir artifacts found tr
  = (Ok (found || existsb Collect.is_fallback artifacts),
     fallback_trace repo dir artifacts tr).
Proof.
  revert found tr. induction artifacts as [|a rest IH]; intros found tr; simpl.
  - unfold ret. now rewrite orb_false_r.
  - destruct (Collect.is_fallback a).
    + unfold bind, Collect.download_artifact, call. rewrite IH. simpl.
      now rewrite orb_true_r.
    + apply IH.
Qed.

(** A download of the canonical tier succeeds exactly when some listed
    artifact carries the canonical token and its download, made after
    the downloads of the artifacts before it, answers true. *)
Lemma canonical_found_iff (env : Env) (repo dir : string) (artifacts : list artifact)
    (tr : trace) :
  canonical_found env repo dir artifacts tr = true <->
  exists l1 a l2,
    artifacts = l1 ++ a :: l2
    /\ Collect.is_canonical a = true
    /\ http_download env (canonical_trace repo dir l1 tr) repo (art_id a) dir = true.
Proof.
  revert tr. induction artifacts as [|a rest IH]; intros tr; simpl.
  - split; [discriminate|]. intros (l1 & b & l2 & E & _). now destruct l1.
  - destruct (Collect.is_canonical a) eqn:Ea.
    + rewrite orb_true_iff, IH. split.
      * intros [H | (l1 & b & l2 & -> & Hb & Hd)].
        -- exists [], a, rest. auto.
        -- exists (a :: l1), b, l2. simpl. rewrite Ea. auto.
      * intros (l1 & b & l2 & E & Hb & Hd). destruct l1 as [|x l1]; simpl in *.
        -- injection E as -> ->. now left.
        -- injection E as -> ->. rewrite Ea in Hd. right. eauto 6.
    + rewrite IH. split.
      * intros (l1 & b & l2 & -> & Hb & Hd).
        exists (a :: l1), b, l2. simpl. rewrite Ea. auto.
      * intros (l1 & b & l2 & E & Hb & Hd). destruct l1 as [|x l1]; simpl in *.
        -- injection E as -> ->. congruence.
        -- injection E as -> ->. rewrite Ea in Hd. eauto 6.
Qed.

(** C5, as the code has it: for a completed record with a run id whose
    artifacts are listed, the status is [collected] exactly when the
    download of some artifact carrying the canonical token succeeds;
    otherwise it is [partial] when some artifact name contains a
    fallback token and [no_artifacts] when none does; the fallback tier
    is consulted only when no canonical download succeeded. *)
Theorem collect_two_tier
    (env : Env) (output_dir : string) (r : Collect.run) (id : Z)
    (artifacts : list artifact) (tr : trace) :
  Collect.run_id r = Some id -> id <> 0%Z -> Collect.completed r = true ->
  listing_succeeds env tr (Collect.repo r) id artifacts ->
  let repo := Collect.repo r in
  let dir := path_join output_dir (Collect.repo_dir_name repo) in
  let tr0 := EvMkdir dir :: EvGetArtifacts repo id :: EvGetWorkflowRun repo id
             :: EvGetRepo repo :: tr in
  let downloaded := canonical_found env repo dir artifacts tr0 in
  exists c tr',
    Collect.collect_one env output_dir r tr = (Ok c, tr')
    /\ Collect.cr_status c =
         (if downloaded then "collected"
          else if existsb Collect.is_fallback artifacts then "partial"
          else "no_artifacts")
    /\ (downloaded = true <->
         exists l1 a l2,
           artifacts = l1 ++ a :: l2
           /\ Collect.is_canonical a = true
           /\ http_download env (canonical_trace repo dir l1 tr0) repo (art_id a) dir
              = true)
    /\ tr' = (if downloaded then canonical_trace repo dir artifacts tr0
              else fallback_trace repo dir artifacts
                     (canonical_trace repo dir artifacts tr0)).
Proof.
  intros Hid Hnz Hc (Hrepo & (x & Hrun) & Harts). cbv zeta.
  set (dir := path_join output_dir (Collect.repo_dir_name (Collect.repo r))).
  set (tr0 := EvMkdir dir :: _).
  pose proof (canonical_found_iff env (Collect.repo r) dir artifacts tr0) as Hiff.
  unfold Collect.collect_one. rewrite Hid, Hc.
  apply Z.eqb_neq in Hnz. unfold truthy_id. rewrite Hnz. cbv beta iota delta [negb].
  unfold except_github, bind at 1, get_repo, call at 1. rewrite Hrepo.
  unfold bind at 1, get_workflow_run, call at 1. rewrite Hrun.
  unfold bind at 1, get_artifacts, call at 1. rewrite Harts.
  unfold bind at 1, mkdir, call at 1.
  unfold bind at 1. fold dir. fold tr0. rewrite download_canonical_run.
  cbv beta iota delta [orb].
  destruct (canonical_found env (Collect.repo r) dir artifacts tr0).
  - unfold ret. eexists _, _. split; [reflexivity|]. simpl. auto.
  - unfold bind. rewrite download_fallback_run. cbv beta iota delta [orb].
    destruct (existsb Collect.is_fallback artifacts); unfold ret;
      (eexists _, _; split; [reflexivity|]; simpl; auto).
Qed.

Lemma collect_two_tier_witness :
  exists c tr',
    Collect.collect_one
      (one_good_download_env [other_artifact; canonical_artifact; docker_artifact] 1)
      "reports" completed_run [] = (Ok c, tr')
    /\ Collect.cr_status c = "collected"
    /\ tr' = [EvDownload "org/fine" 1 "reports/org-fine"; EvMkdir "reports/org-fine";
              EvGetArtifacts "org/fine" 17; EvGetWorkflowRun "org/fine" 17;
              EvGetRepo "org/fine"].
Proof.
  destruct (collect_two_tier
              (one_good_download_env [other_artifact; canonical_artifact; docker_artifact] 1)
              "reports" completed_run 17%Z
              [other_artifact; canonical_artifact; docker_artifact] [])
    as (c & tr' & E & Hs & _ & Ht).
  - reflexivity.
  - discriminate.
  - reflexivity.
  - split; [reflexivity|]. split; [eexists; reflexivity | reflexivity].
  - exists c, tr'. split; [exact E|]. split; [exact Hs | exact Ht].
Defined.

(** The three fixture lists of the specification, with downloads that
    succeed. *)
Example fixture_statuses :
  option_map Collect.cr_status
    (match Collect.collect_one (artifacts_env [canonical_artifact] true)
             "reports" completed_run [] with (Ok c, _) => Some c | _ => None end)
  = Some "collected"
  /\ option_map Collect.cr_status
    (match Collect.collect_one (artifacts_env [hosted_artifact] true)
             "reports" completed_run [] with (Ok c, _) => Some c | _ => None end)
  = Some "partial"
  /\ option_map Collect.cr_status
    (match Collect.collect_one (artifacts_env [other_artifact] true)
             "reports" completed_run [] with (Ok c, _) => Some c | _ => None end)
  = Some "no_artifacts".
Proof. repeat split. Qed.

(** C5 as stated fails: an artifact carrying the canonical token is
    listed, yet its download fails and the status is [no_artifacts];
    and with a fallback artifact listed next to it the fallback tier is
    consulted, although the canonical tier had a match. *)
Lemma canonical_match_without_download_not_collected :
  existsb Collect.is_canonical [canonical_artifact] = true
  /\ fst (Collect.collect_one (artifacts_env [canonical_artifact] false)
            "reports" completed_run [])
     = Ok (Collect.no_artifacts "org/fine")
  /\ existsb Collect.is_canonical [canonical_artifact; docker_artifact] = true
  /\ Collect.collect_one (artifacts_env [canonical_artifact; docker_artifact] false)
       "reports" completed_run []
     = (Ok (Collect.with_dir "org/fine" "partial" "reports/org-fine"),
        [EvDownload "org/fine" 2 "reports/org-fine";
         EvDownload "org/fine" 1 "reports/org-fine";
         EvMkdir "reports/org-fine"; EvGetArtifacts "org/fine" 17;
         EvGetWorkflowRun "org/fine" 17; EvGetRepo "org/fine"]).
Proof. repeat split. Qed.

(** A failed download does not stop the loop: the artifacts after it
    are still downloaded. *)
Lemma failed_download_does_not_abort (env : Env) (repo dir : string)
    (l1 l2 : list artifact) (a : artifact) (found : bool) (tr : trace) :
  Collect.is_canonical a = true ->
  snd (Collect.download_canonical env repo dir (l1 ++ a :: l2) found tr)
  = canonical_trace repo dir l2
      (EvDownload repo (art_id a) dir :: canonical_trace repo dir l1 tr).
Proof.
  intros Ha. rewrite download_canonical_run. simpl.
  revert tr. induction l1 as [|x l1 IH]; intros tr; simpl.
  - now rewrite Ha.
  - destruct (Collect.is_canonical x); apply IH.
Qed.

(** C4: the fallback tier reports [partial] although its only download
    failed, where the canonical tier, in the same state, reports
    nothing collected. *)
Theorem partial_although_download_failed :
  (forall tr repo id dir,
      http_download (artifacts_env [docker_artifact] false) tr repo id dir = false)
  /\ Collect.collect_one (artifacts_env [docker_artifact] false)
       "reports" completed_run []
     = (Ok (Collect.with_dir "org/fine" "partial" "reports/org-fine"),
        [EvDownload "org/fine" 2 "reports/org-fine";
         EvMkdir "reports/org-fine"; EvGetArtifacts "org/fine" 17;
         EvGetWorkflowRun "org/fine" 17; EvGetRepo "org/fine"]).
Proof. split; reflexivity. Qed.

(** In the fallback tier the outcome of the downloads plays no part. *)
Lemma fallback_status_ignores_downloads (env : Env) (repo dir : string)
    (artifacts : list artifact) (tr : trace) :
  fst (Collect.download_fallback env repo dir artifacts false tr)
  = Ok (existsb Collect.is_fallback artifacts).
Proof. now rewrite download_fallback_run. Qed.

(** *** The directory of a repository *)

Lemma replace_slash_append (s t : string) :
  Collect.replace_slash (String.append s t)
  = String.append (Collect.replace_slash s) (Collect.replace_slash t).
Proof. induction s as [|c s IH]; simpl; [reflexivity | now rewrite IH]. Qed.

Lemma replace_slash_without_slash (s : string) :
  has_char "/" s = false -> Collect.replace_slash s = s.
Proof.
  induction s as [|c s IH]; simpl; [reflexivity|].
  intros H. apply orb_false_iff in H as [Hc Hs].
  rewrite Hc. now rewrite IH.
Qed.

Lemma append_cancel_l (s a b : string) :
  String.append s a = String.append s b -> a = b.
Proof. induction s as [|c s IH]; simpl; [auto | intros [= H]; auto]. Qed.

Lemma restore_replace_slash (s : string) :
  has_char "-" s = false -> restore_slash (Collect.replace_slash s) = s.
Proof.
  induction s as [|c s IH]; simpl; [reflexivity|].
  intros H. apply orb_false_iff in H as [Hc Hs]. rewrite (IH Hs).
  destruct (Ascii.eqb c "/") eqn:E.
  - apply Ascii.eqb_eq in E. subst c. reflexivity.
  - rewrite Hc. reflexivity.
Qed.

(** C9, as the code has it: the directory name is the identifier with
    every "/" turned into "-".  On identifiers without "-" the
    identifier is recovered by turning "-" back into "/", and distinct
    identifiers get distinct directories; so do two identifiers with
    the same owner and distinct names. *)
Theorem repo_dir_name_injective_without_hyphen (r1 r2 owner n1 n2 : string) :
  (has_char "-" r1 = false ->
     restore_slash (Collect.repo_dir_name r1) = r1
     /\ (has_char "-" r2 = false -> r1 <> r2 ->
         Collect.repo_dir_name r1 <> Collect.repo_dir_name r2))
  /\ (has_char "/" n1 = false -> has_char "/" n2 = false -> n1 <> n2 ->
      Collect.repo_dir_name (repo_id owner n1) <> Collect.repo_dir_name (repo_id owner n2)).
Proof.
  unfold Collect.repo_dir_name. split.
  - intros H1. split; [now apply restore_replace_slash|].
    intros H2 Hne E. apply Hne.
    rewrite <- (restore_replace_slash r1 H1), <- (restore_replace_slash r2 H2).
    now rewrite E.
  - intros H1 H2 Hne. unfold repo_id. rewrite !replace_slash_append. simpl.
    rewrite (replace_slash_without_slash n1 H1), (replace_slash_without_slash n2 H2).
    intros E. apply append_cancel_l in E. apply Hne. now injection E.
Qed.

Lemma repo_dir_name_injective_without_hyphen_witness :
  (restore_slash (Collect.repo_dir_name "org/fine") = "org/fine"
   /\ Collect.repo_dir_name "org/fine" <> Collect.repo_dir_name "org/broken")
  /\ Collect.repo_dir_name (repo_id "bp-cicd-org" "scan-a")
     <> Collect.repo_dir_name (repo_id "bp-cicd-org" "scan-b").
Proof.
  destruct (repo_dir_name_injective_without_hyphen
              "org/fine" "org/broken" "bp-cicd-org" "scan-a" "scan-b") as [H1 H2].
  split.
  - destruct (H1 eq_refl) as [Ha Hb]. split; [exact Ha|].
    apply Hb; [reflexivity | discriminate].
  - apply H2; [reflexivity | reflexivity | discriminate].
Defined.

(** C9 as stated fails: two distinct identifiers share a directory
    name, and turning "-" back into "/" does not recover either. *)
Lemma repo_dir_name_collision :
  "a/b-c" <> "a-b/c"
  /\ Collect.repo_dir_name "a/b-c" = Collect.repo_dir_name "a-b/c"
  /\ Collect.repo_dir_name "a/b-c" = "a-b-c"
  /\ restore_slash (Collect.repo_dir_name "a/b-c") <> "a/b-c".
Proof. repeat split; discriminate. Qed.

(** ** Aggregation (aggregate_reports.py) *)

Lemma key_eqb_str (k : Aggregate.json) (s : string) :
  Aggregate.key_eqb k (Aggregate.JStr s) = true <-> k = Aggregate.JStr s.
Proof.
  destruct k as [|b|z|t|l|d]; simpl; try (split; discriminate).
  rewrite String.eqb_eq. split; [now intros -> | now intros [= ->]].
Qed.

(** [c[k] += 1] adds one to the count of [k] and leaves the others. *)
Lemma count_incr (c : Aggregate.counter) (k k' : string) :
  Aggregate.count (Aggregate.incr c (Aggregate.JStr k)) (Aggregate.JStr k')
  = if String.eqb k k'
    then (Aggregate.count c (Aggregate.JStr k) + 1)%Z
    else Aggregate.count c (Aggregate.JStr k').
Proof.
  induction c as [|[k0 n] rest IH]; simpl.
  - destruct (String.eqb k k'); reflexivity.
  - destruct (Aggregate.key_eqb k0 (Aggregate.JStr k)) eqn:E0.
    + apply key_eqb_str in E0. subst k0. simpl.
      destruct (String.eqb k k'); reflexivity.
    + simpl. destruct (Aggregate.key_eqb k0 (Aggregate.JStr k')) eqn:E1.
      * apply key_eqb_str in E1. subst k0. simpl in E0.
        rewrite String.eqb_sym in E0. now rewrite E0.
      * exact IH.
Qed.

Lemma keys_incr (c : Aggregate.counter) (k x : Aggregate.json) :
  In x (keys (Aggregate.incr c k)) -> x = k \/ In x (keys c).
Proof.
  unfold keys. induction c as [|[k0 n] rest IH]; simpl.
  - intros [H|[]]; auto.
  - destruct (Aggregate.key_eqb k0 k); simpl; intros [H|H]; auto.
    destruct (IH H); auto.
Qed.

(** The flag the code reads off a summary is the flag of the
    specification. *)
Lemma truthy_flag (report summary : Aggregate.dict) (key : string) :
  Aggregate.get_default report "summary" (Aggregate.JObj []) = Aggregate.JObj summary ->
  Aggregate.truthy (Aggregate.get_default summary key (Aggregate.JBool false))
  = flag report key.
Proof.
  unfold Aggregate.get_default, flag.
  destruct (Aggregate.dict_get report "summary") as [v|].
  - intros ->. destruct (Aggregate.dict_get summary key); reflexivity.
  - intros [= <-]. reflexivity.
Qed.

Lemma support_bucket_cases (report : Aggregate.dict) :
  In (support_bucket_of report) support_buckets.
Proof.
  unfold support_bucket_of, bucket_of_flags.
  destruct (flag report _), (flag report _); simpl; auto.
Qed.

Lemma usage_bucket_cases (report : Aggregate.dict) :
  In (usage_bucket_of report) usage_buckets.
Proof.
  unfold usage_bucket_of, bucket_of_flags.
  destruct (flag report _), (flag report _); simpl; auto.
Qed.

(** What one report adds to the two bucket tables: one to the bucket
    of its two flags in each. *)
Lemma tally_buckets (acc acc' : Aggregate.statistics) (report : Aggregate.dict) :
  Aggregate.tally acc report = Ok acc' ->
  Aggregate.by_support_type acc'
  = Aggregate.incr (Aggregate.by_support_type acc)
      (Aggregate.JStr (support_bucket_of report))
  /\ Aggregate.by_actions_usage acc'
     = Aggregate.incr (Aggregate.by_actions_usage acc)
         (Aggregate.JStr (usage_bucket_of report)).
Proof.
  unfold Aggregate.tally.
  destruct (negb _); [discriminate|].
  destruct (Aggregate.get_default report "summary" _) as [| | | | |summary] eqn:Es;
    try discriminate.
  intros [= <-]. cbn [Aggregate.by_support_type Aggregate.by_actions_usage].
  unfold Aggregate.support_bucket, Aggregate.usage_bucket,
    support_bucket_of, usage_bucket_of, bucket_of_flags.
  rewrite !(truthy_flag report summary _ Es).
  split.
  - destruct (flag report "supports_local_nim"), (flag report "supports_hosted_nim");
      reflexivity.
  - destruct (flag report "uses_local_nim_in_actions"),
             (flag report "uses_hosted_nim_in_actions"); reflexivity.
Qed.

Lemma tally_readable (acc : Aggregate.statistics) (report : Aggregate.dict) :
  readable report = true -> exists acc', Aggregate.tally acc report = Ok acc'.
Proof.
  unfold readable, Aggregate.tally. intros H. apply andb_true_iff in H as [H1 H2].
  rewrite H1. simpl.
  destruct (Aggregate.get_default report "summary" _); try discriminate. eauto.
Qed.

Lemma tally_all_readable (reports : list Aggregate.dict) (acc : Aggregate.statistics) :
  forallb readable reports = true -> exists stats, Aggregate.tally_all acc reports = Ok stats.
Proof.
  revert acc. induction reports as [|r rest IH]; intros acc H; simpl in *; [eauto|].
  apply andb_true_iff in H as [Hr Hrest].
  destruct (tally_readable acc r Hr) as (acc' & ->). auto.
Qed.

Lemma assigned_cons (bucket_of : Aggregate.dict -> string) (b : string)
    (r : Aggregate.dict) (rest : list Aggregate.dict) :
  assigned bucket_of b (r :: rest)
  = (if String.eqb (bucket_of r) b then 1 else 0) + assigned bucket_of b rest.
Proof.
  unfold assigned. cbn [List.filter].
  destruct (String.eqb (bucket_of r) b); reflexivity.
Qed.

(** The counts of the two bucket tables after the loop: what they
    were, and one more for every report of the bucket. *)
Lemma tally_all_buckets (reports : list Aggregate.dict) (acc stats : Aggregate.statistics) :
  Aggregate.tally_all acc reports = Ok stats ->
  (forall b,
      Aggregate.count (Aggregate.by_support_type stats) (Aggregate.JStr b)
      = (Aggregate.count (Aggregate.by_support_type acc) (Aggregate.JStr b)
         + Z.of_nat (assigned support_bucket_of b reports))%Z)
  /\ (forall u,
      Aggregate.count (Aggregate.by_actions_usage stats) (Aggregate.JStr u)
      = (Aggregate.count (Aggregate.by_actions_usage acc) (Aggregate.JStr u)
         + Z.of_nat (assigned usage_bucket_of u reports))%Z)
  /\ (forall k, In k (keys (Aggregate.by_support_type stats)) ->
        In k (keys (Aggregate.by_support_type acc))
        \/ In k (map Aggregate.JStr support_buckets))
  /\ (forall k, In k (keys (Aggregate.by_actions_usage stats)) ->
        In k (keys (Aggregate.by_actions_usage acc))
        \/ In k (map Aggregate.JStr usage_buckets)).
Proof.
  revert acc. induction reports as [|r rest IH]; intros acc; cbn [Aggregate.tally_all].
  - intros [= ->]. unfold assigned. simpl. repeat split; auto; intros; lia.
  - destruct (Aggregate.tally acc r) as [acc'|] eqn:E; [|discriminate].
    intros H. destruct (IH acc' H) as (Hs & Hu & Hks & Hku).
    destruct (tally_buckets acc acc' r E) as (Es & Eu).
    rewrite Es, Eu in *.
    split; [|split; [|split]].
    + intros b. rewrite Hs, count_incr, assigned_cons.
      destruct (String.eqb (support_bucket_of r) b) eqn:Eb.
      * apply String.eqb_eq in Eb. rewrite Eb. lia.
      * lia.
    + intros u. rewrite Hu, count_incr, assigned_cons.
      destruct (String.eqb (usage_bucket_of r) u) eqn:Eb.
      * apply String.eqb_eq in Eb. rewrite Eb. lia.
      * lia.
    + intros k Hk. destruct (Hks k Hk) as [Hin|Hin]; [|auto].
      destruct (keys_incr _ _ _ Hin) as [->|]; [right|auto].
      apply in_map. apply support_bucket_cases.
    + intros k Hk. destruct (Hku k Hk) as [Hin|Hin]; [|auto].
      destruct (keys_incr _ _ _ Hin) as [->|]; [right|auto].
      apply in_map. apply usage_bucket_cases.
Qed.

(** Every report falls into one of the four buckets, so that the four
    numbers of reports add up to the number of reports. *)
Lemma assigned_support_total (reports : list Aggregate.dict) :
  assigned support_bucket_of "both" reports
  + assigned support_bucket_of "local_only" reports
  + assigned support_bucket_of "hosted_only" reports
  + assigned support_bucket_of "none" reports
  = length reports.
Proof.
  induction reports as [|r rest IH]; [reflexivity|].
  rewrite !assigned_cons. cbn [length]. rewrite <- IH.
  destruct (support_bucket_cases r) as [H|[H|[H|[H|[]]]]]; rewrite <- H; simpl; lia.
Qed.

Lemma assigned_usage_total (reports : list Aggregate.dict) :
  assigned usage_bucket_of "both_in_actions" reports
  + assigned usage_bucket_of "local_in_actions" reports
  + assigned usage_bucket_of "hosted_in_actions" reports
  + assigned usage_bucket_of "none_in_actions" reports
  = length reports.
Proof.
  induction reports as [|r rest IH]; [reflexivity|].
  rewrite !assigned_cons. cbn [length]. rewrite <- IH.
  destruct (usage_bucket_cases r) as [H|[H|[H|[H|[]]]]]; rewrite <- H; simpl; lia.
Qed.

(** The statistics of readable reports are computed. *)
Lemma aggregate_statistics_readable (reports : list Aggregate.dict) :
  forallb readable reports = true ->
  exists stats, Aggregate.aggregate_statistics reports = Ok stats.
Proof. apply tally_all_readable. Qed.

(** C8, as the code has it.  For every sequence of reports whose
    summary, when present, is an object and whose classification, when
    present, is a scalar, the statistics are computed, and each report
    is counted in exactly one of the four support-type buckets and in
    exactly one of the four actions-usage buckets: the bucket of its
    two flags, a flag being the truth value stored in the summary and
    false when it is missing.  The count of a bucket is the number of
    reports with that bucket, no other key appears in the two tables,
    and in each table the four counts add up to the number of
    reports. *)
Theorem bucket_counts_sum_to_total (reports : list Aggregate.dict) :
  forallb readable reports = true ->
  exists stats,
    Aggregate.aggregate_statistics reports = Ok stats
    /\ (forall b,
          Aggregate.count (Aggregate.by_support_type stats) (Aggregate.JStr b)
          = Z.of_nat (assigned support_bucket_of b reports))
    /\ (forall u,
          Aggregate.count (Aggregate.by_actions_usage stats) (Aggregate.JStr u)
          = Z.of_nat (assigned usage_bucket_of u reports))
    /\ Forall (fun r => In (support_bucket_of r) support_buckets
                        /\ In (usage_bucket_of r) usage_buckets) reports
    /\ (forall k, In k (keys (Aggregate.by_support_type stats)) ->
          In k (map Aggregate.JStr support_buckets))
    /\ (forall k, In k (keys (Aggregate.by_actions_usage stats)) ->
          In k (map Aggregate.JStr usage_buckets))
    /\ bucket_total (Aggregate.by_support_type stats) support_buckets
       = Z.of_nat (length reports)
    /\ bucket_total (Aggregate.by_actions_usage stats) usage_buckets
       = Z.of_nat (length reports).
Proof.
  intros Hr. destruct (aggregate_statistics_readable reports Hr) as (stats & E).
  exists stats. split; [exact E|].
  unfold Aggregate.aggregate_statistics in E.
  destruct (tally_all_buckets _ _ _ E) as (Hs & Hu & Hks & Hku).
  simpl in Hs, Hu.
  split; [exact Hs|]. split; [exact Hu|]. split; [|split; [|split; [|split]]].
  - apply List.Forall_forall. intros r _.
    split; [apply support_bucket_cases | apply usage_bucket_cases].
  - intros k Hk. destruct (Hks k Hk) as [[]|]; auto.
  - intros k Hk. destruct (Hku k Hk) as [[]|]; auto.
  - unfold bucket_total, support_buckets. rewrite !Hs.
    rewrite <- (assigned_support_total reports). lia.
  - unfold bucket_total, usage_buckets. rewrite !Hu.
    rewrite <- (assigned_usage_total reports). lia.
Qed.

Lemma bucket_counts_sum_to_total_witness :
  exists stats,
    Aggregate.aggregate_statistics [local_report; bare_report; local_report] = Ok stats
    /\ Aggregate.count (Aggregate.by_support_type stats) (Aggregate.JStr "local_only")
       = 2%Z
    /\ Aggregate.count (Aggregate.by_support_type stats) (Aggregate.JStr "none") = 1%Z
    /\ Aggregate.count (Aggregate.by_actions_usage stats)
         (Aggregate.JStr "local_in_actions") = 2%Z
    /\ bucket_total (Aggregate.by_support_type stats) support_buckets = 3%Z
    /\ bucket_total (Aggregate.by_actions_usage stats) usage_buckets = 3%Z.
Proof.
  destruct (bucket_counts_sum_to_total [local_report; bare_report; local_report] eq_refl)
    as (stats & E & Hs & Hu & _ & _ & _ & Hts & Htu).
  exists stats. split; [exact E|].
  split; [exact (Hs "local_only")|]. split; [exact (Hs "none")|].
  split; [exact (Hu "local_in_actions")|]. split; [exact Hts | exact Htu].
Defined.

(** The example of the specification, and the defaults of a report
    without summary. *)
Example example_buckets :
  Aggregate.aggregate_statistics [local_report; bare_report]
  = Ok {| Aggregate.by_classification :=
            [(Aggregate.JStr "LOCAL", 1%Z); (Aggregate.JStr "UNKNOWN", 1%Z)];
          Aggregate.by_support_type :=
            [(Aggregate.JStr "local_only", 1%Z); (Aggregate.JStr "none", 1%Z)];
          Aggregate.by_actions_usage :=
            [(Aggregate.JStr "local_in_actions", 1%Z);
             (Aggregate.JStr "none_in_actions", 1%Z)] |}.
Proof. reflexivity. Qed.

(** C8 as stated fails: it does not hold for every input sequence.  A
    summary that is present but not an object makes the aggregation
    raise, [null] having no [get]: no statistics are returned, and the
    reports of the sequence are counted in no bucket. *)
Lemma null_summary_has_no_bucket_counts :
  Aggregate.aggregate_statistics [local_report; null_summary_report]
  = Raise (OtherError "AttributeError" "object has no attribute 'get'")
  /\ forall stats,
       Aggregate.aggregate_statistics [local_report; null_summary_report] <> Ok stats.
Proof. split; [reflexivity | discriminate]. Qed.

(** C7, as the code has it: with no report loaded [main] succeeds and
    writes an aggregate whose [total_repos] is 0, whose [repositories]
    is an empty sequence and whose [summary] is an empty object: it
    holds none of the three tally tables, and the metadata has no
    [successful_scans] entry. *)
Theorem empty_aggregate
    (reports_dir : string) (listing : option (list Aggregate.dir_entry))
    (aggregation_time : string) :
  Aggregate.load_repo_reports reports_dir listing = [] ->
  exists out,
    Aggregate.main reports_dir listing aggregation_time = Ok out
    /\ Aggregate.lookup2 out "metadata" "total_repos" = Some (Aggregate.JInt 0)
    /\ Aggregate.lookup1 out "repositories" = Some (Aggregate.JList [])
    /\ Aggregate.lookup1 out "summary" = Some (Aggregate.JObj [])
    /\ Aggregate.lookup2 out "metadata" "successful_scans" = None.
Proof.
  intros H. unfold Aggregate.main. rewrite H.
  eexists. split; [reflexivity|]. repeat split.
Qed.

Lemma empty_aggregate_witness :
  exists out,
    Aggregate.main "reports" (Some empty_listing) "2025-01-01T00:00:00+00:00" = Ok out
    /\ Aggregate.lookup2 out "metadata" "total_repos" = Some (Aggregate.JInt 0)
    /\ Aggregate.lookup1 out "repositories" = Some (Aggregate.JList [])
    /\ Aggregate.lookup1 out "summary" = Some (Aggregate.JObj [])
    /\ Aggregate.lookup2 out "metadata" "successful_scans" = None.
Proof.
  apply (empty_aggregate "reports" (Some empty_listing) "2025-01-01T00:00:00+00:00").
  reflexivity.
Defined.

(** C7 as stated fails: the aggregate written for an empty report
    sequence has no [successful_scans] count and no tally table. *)
Lemma empty_aggregate_lacks_counts_and_tables :
  match Aggregate.main "reports" None "2025-01-01T00:00:00+00:00" with
  | Ok out =>
      Aggregate.lookup2 out "metadata" "successful_scans" <> Some (Aggregate.JInt 0)
      /\ Aggregate.lookup2 out "summary" "by_classification" = None
      /\ Aggregate.lookup2 out "summary" "by_support_type" = None
      /\ Aggregate.lookup2 out "summary" "by_actions_usage" = None
  | Raise _ => False
  end.
Proof. simpl. repeat split. discriminate. Qed.

(** The statistics of an empty sequence, which [main] does not compute,
    would hold the three tables, empty. *)
Example aggregate_statistics_of_nothing :
  Aggregate.aggregate_statistics []
  = Ok {| Aggregate.by_classification := []; Aggregate.by_support_type := [];
          Aggregate.by_actions_usage := [] |}.
Proof. reflexivity. Qed.

Lemma main_counts (reports_dir : string) (listing : option (list Aggregate.dir_entry))
    (aggregation_time : string) (out : Aggregate.json) :
  Aggregate.load_repo_reports reports_dir listing <> [] ->
  Aggregate.main reports_dir listing aggregation_time = Ok out ->
  let n := Z.of_nat (length (Aggregate.load_repo_reports reports_dir listing)) in
  Aggregate.lookup2 out "metadata" "successful_scans" = Some (Aggregate.JInt n)
  /\ Aggregate.lookup2 out "metadata" "total_repos" = Some (Aggregate.JInt n).
Proof.
  unfold Aggregate.main.
  destruct (Aggregate.load_repo_reports reports_dir listing) as [|r rest];
    [congruence|].
  intros _. destruct (Aggregate.aggregate_statistics (r :: rest)); [|discriminate].
  intros [= <-]. split; reflexivity.
Qed.

(** C10: when at least one report file was loaded, the aggregate that
    [main] writes, and it writes one whenever the loaded reports are
    readable, has [successful_scans] equal to [total_repos], both the
    number of report files loaded; a repository directory with two
    fallback report files counts twice. *)
Theorem successful_scans_is_load_count
    (reports_dir : string) (listing : option (list Aggregate.dir_entry))
    (aggregation_time : string) :
  (Aggregate.load_repo_reports reports_dir listing <> [] ->
     let reports := Aggregate.load_repo_reports reports_dir listing in
     (forallb readable reports = true ->
        exists out, Aggregate.main reports_dir listing aggregation_time = Ok out)
     /\ (forall out,
          Aggregate.main reports_dir listing aggregation_time = Ok out ->
          Aggregate.lookup2 out "metadata" "successful_scans"
          = Some (Aggregate.JInt (Z.of_nat (length reports)))
          /\ Aggregate.lookup2 out "metadata" "total_repos"
             = Aggregate.lookup2 out "metadata" "successful_scans"))
  /\ (length two_fallback_files = 1
      /\ length (Aggregate.load_repo_reports reports_dir (Some two_fallback_files)) = 2).
Proof.
  split; [|split; reflexivity].
  intros Hne reports. split.
  - intros Hr. subst reports. unfold Aggregate.main.
    destruct (aggregate_statistics_readable _ Hr) as (stats & E). rewrite E.
    destruct (Aggregate.load_repo_reports reports_dir listing); [congruence | eauto].
  - intros out Hout.
    destruct (main_counts reports_dir listing aggregation_time out Hne Hout) as [H1 H2].
    split; [exact H1 | congruence].
Qed.

Lemma successful_scans_is_load_count_witness :
  exists out,
    Aggregate.main "reports" (Some two_fallback_files) "2025-01-01T00:00:00+00:00" = Ok out
    /\ Aggregate.lookup2 out "metadata" "successful_scans" = Some (Aggregate.JInt 2)
    /\ Aggregate.lookup2 out "metadata" "total_repos"
       = Aggregate.lookup2 out "metadata" "successful_scans".
Proof.
  destruct (successful_scans_is_load_count "reports" (Some two_fallback_files)
              "2025-01-01T00:00:00+00:00") as [H _].
  destruct H as [Hemit Hcount]; [discriminate|].
  destruct (Hemit eq_refl) as (out & E).
  exists out. split; [exact E|]. exact (Hcount out E).
Defined.

(** What is written for the directory with two fallback files: the
    provenance keys are gone from the embedded reports. *)
Example two_fallback_files_aggregate :
  Aggregate.main "reports" (Some two_fallback_files) "T"
  = Ok (Aggregate.JObj
      [("metadata", Aggregate.JObj
          [("aggregation_time", Aggregate.JStr "T");
           ("total_repos", Aggregate.JInt 2);
           ("successful_scans", Aggregate.JInt 2)]);
       ("summary", Aggregate.JObj
          [("by_classification", Aggregate.JObj
              [("LOCAL", Aggregate.JInt 1); ("UNKNOWN", Aggregate.JInt 1)]);
           ("by_support_type", Aggregate.JObj
              [("local_only", Aggregate.JInt 1); ("none", Aggregate.JInt 1)]);
           ("by_actions_usage", Aggregate.JObj
              [("local_in_actions", Aggregate.JInt 1);
               ("none_in_actions", Aggregate.JInt 1)])]);
       ("repositories", Aggregate.JList
          [Aggregate.JObj local_report; Aggregate.JObj bare_report])]).
Proof. reflexivity. Qed.

(** * Further properties *)

(** ** Running the monad backwards *)

Lemma bind_ok {A B} (m : M A) (k : A -> M B) (tr tr' : trace) (b : B) :
  bind m k tr = (Ok b, tr') ->
  exists a tr1, m tr = (Ok a, tr1) /\ k a tr1 = (Ok b, tr').
Proof.
  unfold bind. destruct (m tr) as [[a|e] tr1]; [eauto | discriminate].
Qed.

Lemma bind_run {A B} (m : M A) (k : A -> M B) (tr tr1 : trace) (a : A) :
  m tr = (Ok a, tr1) -> bind m k tr = k a tr1.
Proof. intros E. unfold bind. now rewrite E. Qed.

Lemma repeat_app_cons {A} (x : A) (n : nat) (l : list A) :
  repeat x n ++ x :: l = x :: repeat x n ++ l.
Proof. induction n as [|n IH]; simpl; [reflexivity | now rewrite IH]. Qed.

(** ** Dispatch, continued *)

Lemma count_status_none (p : string -> bool) (rs : list Trigger.run_record) :
  Forall (fun r => p (Trigger.status r) = false) rs -> Trigger.count_status p rs = 0.
Proof.
  unfold Trigger.count_status. induction 1 as [|r rs Hr _ IH]; [reflexivity|].
  rewrite filter_cons. destruct (decide _) as [Hp|_]; [congruence | exact IH].
Qed.

Lemma count_status_split (p q : string -> bool) (rs : list Trigger.run_record) :
  Forall (fun r => p (Trigger.status r) = negb (q (Trigger.status r))) rs ->
  Trigger.count_status p rs + Trigger.count_status q rs = length rs.
Proof.
  unfold Trigger.count_status. induction 1 as [|r rs Hr _ IH]; [reflexivity|].
  rewrite !filter_cons.
  destruct (q (Trigger.status r)) eqn:Eq; simpl in Hr;
    repeat (destruct (decide _); try congruence); simpl; lia.
Qed.

(** Every record [trigger_workflow] returns is a fresh record of its
    arguments, whatever the world does. *)
Lemma trigger_workflow_fresh (env : Env) (name wf br : string) (dry_run : bool)
    (tr tr' : trace) (r : Trigger.run_record) :
  Trigger.trigger_workflow env name wf br dry_run tr = (Ok r, tr') ->
  fresh_record dry_run name wf br r.
Proof.
  unfold Trigger.trigger_workflow, fresh_record, error_matches_status. run_monad.
  destruct dry_run.
  - intros [= <- <-]. simpl. auto 10.
  - destruct (gh_get_repo env _ name) as [[]|[| |]]; simpl;
      try (intros [= <- <-]; simpl; now auto 10); try discriminate.
    destruct (gh_get_workflow env _ name wf) as [[]|[| |]]; simpl;
      try (intros [= <- <-]; simpl; now auto 10); try discriminate.
    destruct (gh_create_dispatch env _ name wf br) as [[|]|[| |]]; simpl;
      try (intros [= <- <-]; simpl; now auto 10); try discriminate.
Qed.

Lemma trigger_all_fresh (env : Env) (repos : list Trigger.repo_config) (dry_run : bool)
    (tr tr' : trace) (rs : list Trigger.run_record) :
  Trigger.trigger_all env repos dry_run tr = (Ok rs, tr') ->
  Forall2 (fun rc r => fresh_record dry_run (Trigger.rc_name rc)
                         (Trigger.rc_workflow_file rc) (Trigger.rc_branch rc) r)
          repos rs.
Proof.
  revert tr tr' rs. induction repos as [|rc rest IH]; intros tr tr' rs; simpl.
  - intros [= <- <-]. constructor.
  - intros H. apply bind_ok in H as (r & tr1 & E1 & H).
    apply bind_ok in H as (rs' & tr2 & E2 & H). injection H as <- <-.
    constructor; [eapply trigger_workflow_fresh; eauto | eauto].
Qed.

Lemma resolved_from_refl (r : Trigger.run_record) : resolved_from r r.
Proof. unfold resolved_from. auto 10. Qed.

(** The run-id loop changes nothing but the run id, and sets it only
    on triggered records, to a run id that is not 0. *)
Lemma fetch_run_ids_resolved (env : Env) (t : Q) (rs rs' : list Trigger.run_record)
    (tr tr' : trace) :
  Trigger.fetch_run_ids env t rs tr = (Ok rs', tr') ->
  Forall2 resolved_from rs rs'.
Proof.
  revert tr tr' rs'. induction rs as [|r rest IH]; intros tr tr' rs'; simpl.
  - intros [= <- <-]. constructor.
  - intros H. apply bind_ok in H as (r' & tr1 & E1 & H).
    apply bind_ok in H as (rest' & tr2 & E2 & H). injection H as <- <-.
    constructor; [|eauto].
    destruct (String.eqb (Trigger.status r) "triggered") eqn:Es.
    + apply String.eqb_eq in Es.
      apply bind_ok in E1 as (o & tr0 & _ & E1).
      destruct o as [i|]; simpl in E1.
      * destruct (i =? 0)%Z eqn:Ei; simpl in E1; injection E1 as <- <-.
        -- apply resolved_from_refl.
        -- apply Z.eqb_neq in Ei. unfold resolved_from. simpl.
           repeat split; auto. right. eauto.
      * injection E1 as <- <-. apply resolved_from_refl.
    + injection E1 as <- <-. apply resolved_from_refl.
Qed.

(** The records [main] writes are the fresh records of the dispatch
    loop after the run-id loop (which a dry run skips). *)
Lemma main_records (env : Env) (repos : list Trigger.repo_config) (dry_run : bool)
    (tr tr' : trace) (out : Trigger.output) :
  Trigger.main env repos dry_run tr = (Ok out, tr') ->
  exists rs,
    Forall2 (fun rc r => fresh_record dry_run (Trigger.rc_name rc)
                           (Trigger.rc_workflow_file rc) (Trigger.rc_branch rc) r)
            repos rs
    /\ Forall2 resolved_from rs (Trigger.runs out)
    /\ (dry_run = true -> Trigger.runs out = rs)
    /\ Trigger.total_repos out = length repos
    /\ Trigger.triggered out
       = Trigger.count_status (fun s => String.eqb s "triggered") (Trigger.runs out)
    /\ Trigger.failed out
       = Trigger.count_status (fun s => String.eqb s "failed" || String.eqb s "error")
           (Trigger.runs out).
Proof.
  unfold Trigger.main. destruct repos as [|rc rest]; [discriminate|].
  generalize (rc :: rest). clear rc rest. intros repos H.
  apply bind_ok in H as (t & tr0 & _ & H).
  apply bind_ok in H as (rs & tr1 & E1 & H).
  apply bind_ok in H as (rs' & tr2 & E2 & H). injection H as <- <-. simpl.
  exists rs. split; [eapply trigger_all_fresh; eauto|].
  destruct dry_run.
  - injection E2 as <- <-. repeat split; auto.
    clear. induction rs; constructor; auto using resolved_from_refl.
  - apply bind_ok in E2 as (u & tr3 & _ & E2).
    repeat split; auto; [|discriminate]. eapply fetch_run_ids_resolved; eauto.
Qed.

Lemma trigger_all_dry_run (env : Env) (repos : list Trigger.repo_config) (tr : trace) :
  exists rs,
    Trigger.trigger_all env repos true tr
    = (Ok rs, repeat EvClock (length repos) ++ tr).
Proof.
  revert tr. induction repos as [|rc rest IH]; intros tr; simpl.
  - eexists. reflexivity.
  - destruct (IH (EvClock :: tr)) as (rs & E).
    unfold Trigger.trigger_workflow. run_monad. unfold bind in E |- *.
    rewrite E. rewrite repeat_app_cons. eexists. reflexivity.
Qed.

(** X1: a dry run of [main] needs nothing from the remote service: in
    every world it returns, it makes no call but clock reads (one for
    the batch and one per repository, no sleep), and it writes one
    record per repository with status "dry_run", no run id and no
    error, counted neither as triggered nor as failed. *)
Theorem dry_run_makes_no_remote_call
    (env : Env) (repos : list Trigger.repo_config) (tr : trace) :
  repos <> [] ->
  exists out,
    Trigger.main env repos true tr
    = (Ok out, repeat EvClock (S (length repos)) ++ tr)
    /\ map Trigger.repo (Trigger.runs out) = map Trigger.rc_name repos
    /\ Forall (fun r => Trigger.status r = "dry_run" /\ Trigger.run_id r = None
                        /\ Trigger.error r = None) (Trigger.runs out)
    /\ Trigger.triggered out = 0 /\ Trigger.failed out = 0
    /\ Trigger.total_repos out = length repos
    /\ Trigger.dry_run_flag out = true.
Proof.
  intros Hne.
  assert (exists out, Trigger.main env repos true tr
                      = (Ok out, repeat EvClock (S (length repos)) ++ tr)
                      /\ Trigger.dry_run_flag out = true) as (out & E & Hflag).
  { unfold Trigger.main. destruct repos as [|rc rest]; [congruence|].
    generalize (rc :: rest). intros l.
    destruct (trigger_all_dry_run env l (EvClock :: tr)) as (rs & E).
    run_monad. unfold bind in E |- *. rewrite E. rewrite repeat_app_cons.
    eexists. split; reflexivity. }
  exists out. split; [exact E|].
  destruct (main_records _ _ _ _ _ _ E) as (rs & Hf & _ & Hrs & Ht & Hc & Hfl).
  rewrite (Hrs eq_refl) in *.
  assert (Hall : Forall (fun r => Trigger.status r = "dry_run" /\ Trigger.run_id r = None
                                  /\ Trigger.error r = None) rs).
  { clear -Hf. induction Hf as [|rc r ? ? (_ & _ & _ & Hid & He & Hs) _ IH];
      constructor; [|exact IH].
    repeat split; auto. unfold error_matches_status in He. rewrite Hs in He.
    destruct (Trigger.error r); [|reflexivity].
    destruct He as [[He _]|He]; discriminate. }
  assert (Hnames : map Trigger.repo rs = map Trigger.rc_name repos).
  { clear -Hf. induction Hf as [|rc r ? ? (Hn & _) _ IH]; simpl; congruence. }
  repeat split; auto.
  - rewrite Hc. apply count_status_none.
    eapply Forall_impl; [exact Hall|]. intros r (-> & _). reflexivity.
  - rewrite Hfl. apply count_status_none.
    eapply Forall_impl; [exact Hall|]. intros r (-> & _). reflexivity.
Qed.

Lemma dry_run_makes_no_remote_call_witness :
  exists out,
    Trigger.main offline_env three_repos true []
    = (Ok out, [EvClock; EvClock; EvClock; EvClock])
    /\ map Trigger.repo (Trigger.runs out) = ["org/broken"; "org/refuses"; "org/fine"]
    /\ Forall (fun r => Trigger.status r = "dry_run" /\ Trigger.run_id r = None
                        /\ Trigger.error r = None) (Trigger.runs out)
    /\ Trigger.triggered out = 0 /\ Trigger.failed out = 0
    /\ Trigger.total_repos out = 3
    /\ Trigger.dry_run_flag out = true.
Proof.
  apply (dry_run_makes_no_remote_call offline_env three_repos []). discriminate.
Defined.

Lemma real_run_statuses (repos : list Trigger.repo_config)
    (rs rs' : list Trigger.run_record) :
  Forall2 (fun rc r => fresh_record false (Trigger.rc_name rc)
                         (Trigger.rc_workflow_file rc) (Trigger.rc_branch rc) r)
          repos rs ->
  Forall2 resolved_from rs rs' ->
  Forall (fun r => Trigger.status r = "triggered" \/ Trigger.status r = "failed"
                   \/ Trigger.status r = "error") rs'.
Proof.
  intros Hf. revert rs'. induction Hf as [|rc r ? ? (_ & _ & _ & _ & _ & Hs) _ IH];
    intros rs' Hr; inversion Hr as [|? r' ? ? (_ & _ & _ & Hst & _) Hrest]; subst;
    constructor; [rewrite Hst; exact Hs | auto].
Qed.

(** X2: in the output of a real run every record counts as triggered
    or as failed: the two counters add up to [total_repos], the number
    of records. *)
Theorem real_run_counters_partition
    (env : Env) (repos : list Trigger.repo_config) (tr tr' : trace)
    (out : Trigger.output) :
  Trigger.main env repos false tr = (Ok out, tr') ->
  Trigger.triggered out + Trigger.failed out = Trigger.total_repos out
  /\ Trigger.total_repos out = length (Trigger.runs out)
  /\ Forall (fun r => Trigger.status r = "triggered" \/ Trigger.status r = "failed"
                      \/ Trigger.status r = "error") (Trigger.runs out).
Proof.
  intros E. destruct (main_records _ _ _ _ _ _ E) as (rs & Hf & Hr & _ & Ht & Hc & Hfl).
  pose proof (real_run_statuses _ _ _ Hf Hr) as Hst.
  assert (Hlen : length repos = length (Trigger.runs out)).
  { rewrite (Forall2_length _ _ _ Hf). exact (Forall2_length _ _ _ Hr). }
  split; [|split; [congruence | exact Hst]].
  rewrite Hc, Hfl, Ht, Hlen. apply count_status_split.
  eapply Forall_impl; [exact Hst|]. intros r [-> | [-> | ->]]; reflexivity.
Qed.

Lemma real_run_counters_partition_witness :
  match Trigger.main flaky_env three_repos false [] with
  | (Ok out, _) =>
      Trigger.triggered out + Trigger.failed out = Trigger.total_repos out
      /\ Trigger.total_repos out = length (Trigger.runs out)
      /\ Forall (fun r => Trigger.status r = "triggered" \/ Trigger.status r = "failed"
                          \/ Trigger.status r = "error") (Trigger.runs out)
  | _ => False
  end.
Proof.
  destruct (Trigger.main flaky_env three_repos false []) as [[out|e] tr'] eqn:E.
  - exact (real_run_counters_partition flaky_env three_repos [] tr' out E).
  - vm_compute in E. discriminate.
Defined.

(** X3: a record of the output has a run id only if its dispatch was
    triggered in a real run, and a run id is never 0; records that are
    failed, in error or from a dry run stay unresolved. *)
Theorem run_id_only_on_triggered
    (env : Env) (repos : list Trigger.repo_config) (dry_run : bool) (tr tr' : trace)
    (out : Trigger.output) :
  Trigger.main env repos dry_run tr = (Ok out, tr') ->
  Forall (fun r => forall i, Trigger.run_id r = Some i ->
                     Trigger.status r = "triggered" /\ i <> 0%Z /\ dry_run = false)
         (Trigger.runs out).
Proof.
  intros E. destruct (main_records _ _ _ _ _ _ E) as (rs & Hf & Hr & _).
  clear E. revert Hr. generalize (Trigger.runs out). clear out.
  induction Hf as [|rc r ? ? (_ & _ & _ & Hid & _ & Hs) _ IH]; intros rs' Hr;
    inversion Hr as [|? r' ? ? (_ & _ & _ & Hst & _ & Hrun) Hrest]; subst;
    constructor; auto.
  intros i Hi. destruct Hrun as [Hsame | (Htr & j & Hj & Hnz)].
  - congruence.
  - rewrite Hj in Hi. injection Hi as <-. rewrite Hst. repeat split; auto.
    destruct dry_run; [|reflexivity]. rewrite Hs in Htr. discriminate.
Qed.

Lemma run_id_only_on_triggered_witness :
  match Trigger.main flaky_env three_repos false [] with
  | (Ok out, _) =>
      Forall (fun r => forall i, Trigger.run_id r = Some i ->
                         Trigger.status r = "triggered" /\ i <> 0%Z /\ false = false)
             (Trigger.runs out)
  | _ => False
  end.
Proof.
  destruct (Trigger.main flaky_env three_repos false []) as [[out|e] tr'] eqn:E.
  - exact (run_id_only_on_triggered flaky_env three_repos false [] tr' out E).
  - vm_compute in E. discriminate.
Defined.

(** X4: the records of the output keep the repository, workflow and
    branch of their configuration entries, in order, and the [error]
    key agrees with the status: no error for "dry_run" and
    "triggered", the fixed message for "failed", a message for
    "error". *)
Theorem records_keep_entry_and_error
    (env : Env) (repos : list Trigger.repo_config) (dry_run : bool) (tr tr' : trace)
    (out : Trigger.output) :
  Trigger.main env repos dry_run tr = (Ok out, tr') ->
  Forall2 (fun rc r =>
             Trigger.repo r = Trigger.rc_name rc
             /\ Trigger.workflow_file r = Trigger.rc_workflow_file rc
             /\ Trigger.branch r = Trigger.rc_branch rc
             /\ error_matches_status r)
          repos (Trigger.runs out).
Proof.
  intros E. destruct (main_records _ _ _ _ _ _ E) as (rs & Hf & Hr & _).
  clear E. revert Hr. generalize (Trigger.runs out). clear out.
  induction Hf as [|rc r ? ? (Hn & Hw & Hb & _ & He & _) _ IH]; intros rs' Hr;
    inversion Hr as [|? r' ? ? (Hn' & Hw' & Hb' & Hst & Her & _) Hrest]; subst;
    constructor; auto.
  repeat split; try congruence.
  unfold error_matches_status in *. rewrite Her, Hst. exact He.
Qed.

Lemma records_keep_entry_and_error_witness :
  match Trigger.main flaky_env three_repos false [] with
  | (Ok out, _) =>
      Forall2 (fun rc r =>
                 Trigger.repo r = Trigger.rc_name rc
                 /\ Trigger.workflow_file r = Trigger.rc_workflow_file rc
                 /\ Trigger.branch r = Trigger.rc_branch rc
                 /\ error_matches_status r)
              three_repos (Trigger.runs out)
  | _ => False
  end.
Proof.
  destruct (Trigger.main flaky_env three_repos false []) as [[out|e] tr'] eqn:E.
  - exact (records_keep_entry_and_error flaky_env three_repos false [] tr' out E).
  - vm_compute in E. discriminate.
Defined.

(** *** Resolving run ids *)

Lemma time_geb_le (a b : Q) : time_geb a b = true <-> Qle b a.
Proof. unfold time_geb. apply Qle_bool_iff. Qed.

Lemma time_geb_lt (a b : Q) : time_geb a b = false <-> Qlt a b.
Proof.
  unfold time_geb. split.
  - intros H. apply Qnot_le_lt. intros Hle. apply Qle_bool_iff in Hle. congruence.
  - intros H. destruct (Qle_bool b a) eqn:E; [|reflexivity].
    apply Qle_bool_iff in E. exfalso. exact (Qlt_not_le _ _ H E).
Qed.

Lemma first_created_after_some (runs : list (Z * Q)) (t : Q) (id : Z) :
  Trigger.first_created_after runs t = Some id ->
  exists k c,
    runs !! k = Some (id, c) /\ Qle t c
    /\ forall j id' c', j < k -> runs !! j = Some (id', c') -> Qlt c' t.
Proof.
  induction runs as [|[id0 c0] rest IH]; simpl; [discriminate|].
  destruct (time_geb c0 t) eqn:E.
  - intros [= <-]. exists 0, c0. split; [reflexivity|].
    split; [now apply time_geb_le | intros; lia].
  - intros H. destruct (IH H) as (k & c & Hk & Hc & Hbefore).
    exists (S k), c. split; [exact Hk|]. split; [exact Hc|].
    intros [|j] id' c' Hj Hl; simpl in Hl.
    + injection Hl as <- <-. now apply time_geb_lt.
    + eapply Hbefore; [|exact Hl]. lia.
Qed.

Lemma first_created_after_none (runs : list (Z * Q)) (t : Q) :
  Trigger.first_created_after runs t = None <->
  forall k id c, runs !! k = Some (id, c) -> Qlt c t.
Proof.
  induction runs as [|[id0 c0] rest IH]; simpl.
  - split; [intros _ k id c H; discriminate | reflexivity].
  - destruct (time_geb c0 t) eqn:E.
    + split; [discriminate|]. intros H. exfalso.
      apply time_geb_le in E. specialize (H 0 id0 c0 eq_refl).
      exact (Qlt_not_le _ _ H E).
    + rewrite IH. split.
      * intros H [|k] id c Hl; simpl in Hl.
        -- injection Hl as <- <-. now apply time_geb_lt.
        -- eauto.
      * intros H k id c Hl. apply (H (S k) id c). exact Hl.
Qed.

(** X5: when the runs of the workflow are listed, [get_latest_run_id]
    answers the first of the ten newest runs that was created at or
    after the trigger time, every run before it being older; it
    answers None exactly when none of the ten newest runs qualifies,
    whatever the list holds from the eleventh run on. *)
Theorem run_id_lookup_window
    (env : Env) (repo wf : string) (t : Q) (tr : trace) (runs : list (Z * Q)) :
  gh_get_repo env tr repo = Ok tt ->
  gh_get_workflow env (EvGetRepo repo :: tr) repo wf = Ok tt ->
  gh_get_runs env (EvGetWorkflow repo wf :: EvGetRepo repo :: tr) repo wf = Ok runs ->
  exists o,
    Trigger.get_latest_run_id env repo wf t tr
    = (Ok o, EvGetRuns repo wf :: EvGetWorkflow repo wf :: EvGetRepo repo :: tr)
    /\ (forall id, o = Some id ->
          exists k c,
            k < 10 /\ runs !! k = Some (id, c) /\ Qle t c
            /\ forall j id' c', j < k -> runs !! j = Some (id', c') -> Qlt c' t)
    /\ (o = None <->
        forall k id c, k < 10 -> runs !! k = Some (id, c) -> Qlt c t).
Proof.
  intros H1 H2 H3. unfold Trigger.get_latest_run_id. run_monad.
  rewrite H1, H2, H3. eexists. split; [reflexivity|]. split.
  - intros id Hid. apply first_created_after_some in Hid as (k & c & Hk & Hc & Hb).
    apply lookup_take_Some in Hk as [Hk Hlt].
    exists k, c. repeat split; auto.
    intros j id' c' Hj Hl. apply (Hb j id' c' Hj).
    apply lookup_take_Some. split; [exact Hl | lia].
  - rewrite first_created_after_none. split.
    + intros H k id c Hk Hl. apply (H k id c).
      apply lookup_take_Some. auto.
    + intros H k id c Hl. apply lookup_take_Some in Hl as [Hl Hk]. eauto.
Qed.

Lemma run_id_lookup_window_witness :
  Trigger.get_latest_run_id (runs_env eleven_runs) "org/fine" "ci.yml" 5%Q []
  = (Ok None, [EvGetRuns "org/fine" "ci.yml"; EvGetWorkflow "org/fine" "ci.yml";
               EvGetRepo "org/fine"])
  /\ eleven_runs !! 10 = Some (11%Z, 9%Q) /\ Qle 5 9.
Proof.
  destruct (run_id_lookup_window (runs_env eleven_runs) "org/fine" "ci.yml" 5%Q []
              eleven_runs eq_refl eq_refl eq_refl) as (o & E & _ & Hnone).
  assert (Ho : o = None).
  { apply Hnone. intros k id c Hk Hl.
    do 10 (destruct k as [|k]; [injection Hl as <- <-; reflexivity|]). lia. }
  subst o. split; [exact E|]. split; [reflexivity | discriminate].
Defined.

(** *** One dispatch per repository *)

Lemma dispatched_app (l2 l1 : trace) :
  dispatched (l2 ++ l1) = dispatched l1 ++ dispatched l2.
Proof.
  induction l2 as [|ev l2 IH]; simpl; [now rewrite app_nil_r|].
  destruct ev; try exact IH. rewrite IH. now rewrite app_assoc.
Qed.

(** The calls of one [trigger_workflow] hold at most the dispatch of
    its arguments, and none in a dry run. *)
Lemma trigger_workflow_dispatched (env : Env) (name wf br : string) (dry_run : bool)
    (tr : trace) :
  exists l,
    snd (Trigger.trigger_workflow env name wf br dry_run tr) = l ++ tr
    /\ (dispatched l = [] \/ (dry_run = false /\ dispatched l = [(name, wf, br)])).
Proof.
  unfold Trigger.trigger_workflow. run_monad. destruct dry_run.
  - exists [EvClock]. auto.
  - destruct (gh_get_repo env _ name) as [[]|[| |]]; simpl;
      try (exists [EvGetRepo name; EvClock]; now auto).
    destruct (gh_get_workflow env _ name wf) as [[]|[| |]]; simpl;
      try (exists [EvGetWorkflow name wf; EvGetRepo name; EvClock]; now auto).
    exists [EvCreateDispatch name wf br; EvGetWorkflow name wf; EvGetRepo name; EvClock].
    destruct (gh_create_dispatch env _ name wf br) as [[|]|[| |]]; simpl; auto.
Qed.

Lemma snd_bind {A B} (m : M A) (k : A -> M B) (tr : trace) :
  snd (bind m k tr)
  = match m tr with
    | (Ok a, tr1) => snd (k a tr1)
    | (Raise _, tr1) => tr1
    end.
Proof. unfold bind. destruct (m tr) as [[a|e] tr1]; reflexivity. Qed.

Lemma trigger_all_dispatched (env : Env) (repos : list Trigger.repo_config)
    (dry_run : bool) (tr : trace) :
  exists l,
    snd (Trigger.trigger_all env repos dry_run tr) = l ++ tr
    /\ sublist (dispatched l) (map dispatch_of repos)
    /\ (dry_run = true -> dispatched l = []).
Proof.
  revert tr. induction repos as [|rc rest IH]; intros tr; simpl.
  - exists []. split; [reflexivity|]. split; [constructor | reflexivity].
  - destruct (trigger_workflow_dispatched env (Trigger.rc_name rc)
                (Trigger.rc_workflow_file rc) (Trigger.rc_branch rc) dry_run tr)
      as (l1 & E1 & H1).
    assert (Hsub1 : sublist (dispatched l1) [dispatch_of rc]).
    { destruct H1 as [-> | [_ ->]]; [apply sublist_nil_l | reflexivity]. }
    assert (Hdry1 : dry_run = true -> dispatched l1 = []).
    { destruct H1 as [-> | [-> _]]; [reflexivity | discriminate]. }
    rewrite snd_bind.
    destruct (Trigger.trigger_workflow env _ _ _ dry_run tr) as [[r|e] tr1] eqn:E;
      simpl in E1; subst tr1.
    + destruct (IH (l1 ++ tr)) as (l2 & E2 & H2 & Hdry2).
      rewrite snd_bind.
      destruct (Trigger.trigger_all env rest dry_run (l1 ++ tr)) as [[rs|e] tr2];
        simpl in E2 |- *; subst tr2; exists (l2 ++ l1);
        (split; [now rewrite app_assoc|]); rewrite dispatched_app;
        (split; [exact (sublist_app _ _ _ _ Hsub1 H2)|]);
        intros Hd; rewrite (Hdry1 Hd), (Hdry2 Hd); reflexivity.
    + exists l1. split; [reflexivity|]. split; [|exact Hdry1].
      rewrite <- (app_nil_r (dispatched l1)).
      exact (sublist_app (dispatched l1) [dispatch_of rc] [] (map dispatch_of rest)
               Hsub1 (sublist_nil_l _)).
Qed.

Lemma get_latest_run_id_dispatched (env : Env) (name wf : string) (t : Q) (tr : trace) :
  exists l,
    snd (Trigger.get_latest_run_id env name wf t tr) = l ++ tr /\ dispatched l = [].
Proof.
  unfold Trigger.get_latest_run_id. run_monad.
  destruct (gh_get_repo env _ name) as [[]|[| |]]; simpl;
    try (exists [EvGetRepo name]; now auto).
  destruct (gh_get_workflow env _ name wf) as [[]|[| |]]; simpl;
    try (exists [EvGetWorkflow name wf; EvGetRepo name]; now auto).
  exists [EvGetRuns name wf; EvGetWorkflow name wf; EvGetRepo name].
  destruct (gh_get_runs env _ name wf) as [?|[| |]]; simpl; auto.
Qed.

Lemma fetch_run_ids_dispatched (env : Env) (t : Q) (rs : list Trigger.run_record)
    (tr : trace) :
  exists l,
    snd (Trigger.fetch_run_ids env t rs tr) = l ++ tr /\ dispatched l = [].
Proof.
  revert tr. induction rs as [|r rest IH]; intros tr; simpl.
  - exists []. auto.
  - rewrite snd_bind.
    assert (exists l1,
               snd ((if String.eqb (Trigger.status r) "triggered"
                     then
                       o <- Trigger.get_latest_run_id env (Trigger.repo r)
                              (Trigger.workflow_file r) t ;;
                       (if truthy_id o
                        then match o with
                             | Some i => ret (Trigger.set_run_id r i)
                             | None => ret r
                             end
                        else ret r)
                     else ret r) tr) = l1 ++ tr /\ dispatched l1 = []) as (l1 & E1 & H1).
    { destruct (String.eqb (Trigger.status r) "triggered").
      - destruct (get_latest_run_id_dispatched env (Trigger.repo r)
                    (Trigger.workflow_file r) t tr) as (l & E & H).
        exists l. split; [|exact H]. rewrite snd_bind.
        destruct (Trigger.get_latest_run_id env _ _ t tr) as [[o|e] tr1];
          simpl in E |- *; [|exact E].
        destruct o as [i|]; simpl; [destruct (negb (i =? 0)%Z)|]; exact E.
      - exists []. auto. }
    match goal with
    | |- context [match ?m tr with _ => _ end] =>
        destruct (m tr) as [[r'|e] tr1] eqn:E; simpl in E1; subst tr1
    end.
    + destruct (IH (l1 ++ tr)) as (l2 & E2 & H2). rewrite snd_bind.
      destruct (Trigger.fetch_run_ids env t rest (l1 ++ tr)) as [[rs'|e] tr2];
        simpl in E2 |- *; subst tr2; exists (l2 ++ l1);
        (split; [now rewrite app_assoc|]); rewrite dispatched_app, H1, H2; reflexivity.
    + exists l1. auto.
Qed.

(** X6: whatever the world answers and however [main] ends, the
    dispatches it issued are, in order, dispatches of entries of the
    repository list with their own workflow and branch, each entry at
    most once: nothing is dispatched twice or retried, and a dry run
    dispatches nothing. *)
Theorem at_most_one_dispatch_per_repository
    (env : Env) (repos : list Trigger.repo_config) (dry_run : bool) (tr : trace) :
  exists l,
    snd (Trigger.main env repos dry_run tr) = l ++ tr
    /\ sublist (dispatched l) (map dispatch_of repos)
    /\ (dry_run = true -> dispatched l = []).
Proof.
  unfold Trigger.main. destruct repos as [|rc rest].
  - exists []. split; [reflexivity|]. split; [constructor | reflexivity].
  - generalize (rc :: rest). clear rc rest. intros repos.
    rewrite snd_bind. unfold now at 1, call at 1. cbv beta iota.
    destruct (trigger_all_dispatched env repos dry_run (EvClock :: tr))
      as (l1 & E1 & H1 & Hdry).
    rewrite snd_bind.
    destruct (Trigger.trigger_all env repos dry_run (EvClock :: tr)) as [[rs|e] tr1];
      simpl in E1; subst tr1.
    + rewrite snd_bind. destruct dry_run.
      * unfold ret at 1. cbv beta iota. unfold ret. simpl.
        exists (l1 ++ [EvClock]). rewrite <- app_assoc. split; [reflexivity|].
        rewrite dispatched_app. simpl. auto.
      * destruct (fetch_run_ids_dispatched env (clock env tr) rs
                    (EvSleep 5 :: l1 ++ EvClock :: tr)) as (l2 & E2 & H2).
        unfold bind at 1, sleep, call at 1. simpl.
        destruct (os_sleep env (l1 ++ EvClock :: tr) 5) as [[]|e0].
        -- destruct (Trigger.fetch_run_ids env (clock env tr) rs
                       (EvSleep 5 :: l1 ++ EvClock :: tr)) as [[rs'|e] tr2];
             simpl in E2 |- *; subst tr2;
             exists (l2 ++ EvSleep 5 :: l1 ++ [EvClock]);
             (split; [rewrite <- !app_assoc; simpl; rewrite <- app_assoc; reflexivity|]);
             rewrite dispatched_app; simpl; rewrite dispatched_app, H2; simpl;
             rewrite app_nil_r; (split; [exact H1 | discriminate]).
        -- simpl. exists (EvSleep 5 :: l1 ++ [EvClock]).
           split; [simpl; rewrite <- app_assoc; reflexivity|].
           simpl. rewrite dispatched_app. simpl. split; [exact H1 | discriminate].
    + exists (l1 ++ [EvClock]). rewrite <- app_assoc. split; [reflexivity|].
      rewrite dispatched_app. simpl. auto.
Qed.

(** ** Configuration and credentials *)

Lemma split_comma_cons (s : string) :
  exists p ps, TriggerConfig.split_comma s = p :: ps.
Proof.
  induction s as [|c s (p & ps & IH)]; simpl; [eauto|].
  destruct (Ascii.eqb c ","); [eauto|]. rewrite IH. eauto.
Qed.

Lemma split_comma_piece (p : string) :
  has_char "," p = false -> TriggerConfig.split_comma p = [p].
Proof.
  induction p as [|c p IH]; simpl; [reflexivity|].
  intros H. apply orb_false_iff in H as [Hc Hp]. rewrite Hc, (IH Hp). reflexivity.
Qed.

Lemma split_comma_append (p rest : string) :
  has_char "," p = false ->
  TriggerConfig.split_comma (String.append p (String "," rest))
  = p :: TriggerConfig.split_comma rest.
Proof.
  induction p as [|c p IH]; simpl; [reflexivity|].
  intros H. apply orb_false_iff in H as [Hc Hp]. rewrite Hc, (IH Hp). reflexivity.
Qed.

(** Splitting undoes joining when no piece holds a comma. *)
Lemma split_join_comma (pieces : list string) :
  pieces <> [] ->
  Forall (fun p => has_char "," p = false) pieces ->
  TriggerConfig.split_comma (join_comma pieces) = pieces.
Proof.
  intros Hne H. induction H as [|p rest Hp Hrest IH]; [congruence|].
  destruct rest as [|q rest]; simpl.
  - now apply split_comma_piece.
  - rewrite (split_comma_append _ _ Hp). f_equal. apply IH. discriminate.
Qed.

Lemma specific_targets_names (wf br : Aggregate.json) (pieces : list string) :
  TriggerConfig.specific_targets wf br pieces
  = map (specific_target wf br) (nonblank_names pieces).
Proof.
  unfold nonblank_names. induction pieces as [|p rest IH]; simpl; [reflexivity|].
  destruct (negb (String.eqb (TriggerConfig.strip p) "")); simpl; now rewrite IH.
Qed.

(** X7: repositories named on the command line override the
    configuration.  For comma-free pieces joined by commas,
    [get_repos_to_scan] returns one target per piece that is not blank,
    in order, named by the stripped piece, with the default workflow
    and branch of the settings, whatever the [repos] of the
    configuration holds; names that need no stripping come back as
    they were given. *)
Theorem specific_repos_override
    (config settings : Aggregate.dict) (pieces : list string) :
  Aggregate.get_default config "settings" (Aggregate.JObj []) = Aggregate.JObj settings ->
  join_comma pieces <> "" ->
  Forall (fun p => has_char "," p = false) pieces ->
  TriggerConfig.get_repos_to_scan (Aggregate.JObj config) (join_comma pieces)
  = Ok (map (specific_target (default_workflow_of settings) (default_branch_of settings))
            (nonblank_names pieces))
  /\ (Forall (fun p => p <> "" /\ TriggerConfig.strip p = p) pieces ->
      nonblank_names pieces = pieces).
Proof.
  intros Hs Hne Hp. split.
  - unfold TriggerConfig.get_repos_to_scan. rewrite Hs.
    destruct (String.eqb (join_comma pieces) "") eqn:E;
      [apply String.eqb_eq in E; congruence|]. simpl.
    rewrite split_join_comma; [| |exact Hp].
    + now rewrite specific_targets_names.
    + intros ->. now apply Hne.
  - unfold nonblank_names. clear. induction 1 as [|p rest [Hp Hs] _ IH]; simpl;
      [reflexivity|].
    rewrite Hs. apply String.eqb_neq in Hp. rewrite Hp. simpl. now rewrite IH.
Qed.

Lemma specific_repos_override_witness :
  TriggerConfig.get_repos_to_scan sample_config " org/x ,, org/y-z,"
  = Ok [specific_target (Aggregate.JStr "ci.yml") (Aggregate.JStr "develop") "org/x";
        specific_target (Aggregate.JStr "ci.yml") (Aggregate.JStr "develop") "org/y-z"].
Proof.
  exact (proj1 (specific_repos_override sample_mapping
                  [("default_branch", Aggregate.JStr "develop")]
                  [" org/x "; ""; " org/y-z"; ""] eq_refl
                  ltac:(discriminate)
                  ltac:(repeat constructor))).
Defined.

Lemma has_char_append (c : ascii) (p q : string) :
  has_char c (String.append p q) = has_char c p || has_char c q.
Proof.
  induction p as [|x p IH]; simpl; [reflexivity|]. now rewrite IH, orb_assoc.
Qed.

(** Stripping on the left leaves a suffix of the string. *)
Lemma lstrip_suffix (s : string) :
  exists p, s = String.append p (TriggerConfig.lstrip s).
Proof.
  remember (String.length s) as n eqn:Hn. revert s Hn.
  induction n as [n IH] using lt_wf_ind. intros s Hn.
  destruct s as [|c1 r1]; [exists EmptyString; reflexivity|]. simpl.
  destruct (TriggerConfig.is_space1 c1).
  { destruct (IH (String.length r1) ltac:(simpl in Hn; lia) r1 eq_refl) as (p & Hp).
    exists (String c1 p). exact (f_equal (String c1) Hp). }
  destruct r1 as [|c2 r2]; [exists EmptyString; reflexivity|].
  destruct (TriggerConfig.is_space2 c1 c2).
  { destruct (IH (String.length r2) ltac:(simpl in Hn; lia) r2 eq_refl) as (p & Hp).
    exists (String c1 (String c2 p)).
    exact (f_equal (fun x => String c1 (String c2 x)) Hp). }
  destruct r2 as [|c3 r3]; [exists EmptyString; reflexivity|].
  destruct (TriggerConfig.is_space3 c1 c2 c3); [|exists EmptyString; reflexivity].
  destruct (IH (String.length r3) ltac:(simpl in Hn; lia) r3 eq_refl) as (p & Hp).
  exists (String c1 (String c2 (String c3 p))).
  exact (f_equal (fun x => String c1 (String c2 (String c3 x))) Hp).
Qed.

Lemma lstrip_reversed_suffix (s : string) :
  exists p, s = String.append p (TriggerConfig.lstrip_reversed s).
Proof.
  remember (String.length s) as n eqn:Hn. revert s Hn.
  induction n as [n IH] using lt_wf_ind. intros s Hn.
  destruct s as [|c1 r1]; [exists EmptyString; reflexivity|]. simpl.
  destruct (TriggerConfig.is_space1 c1).
  { destruct (IH (String.length r1) ltac:(simpl in Hn; lia) r1 eq_refl) as (p & Hp).
    exists (String c1 p). exact (f_equal (String c1) Hp). }
  destruct r1 as [|c2 r2]; [exists EmptyString; reflexivity|].
  destruct (TriggerConfig.is_space2 c2 c1).
  { destruct (IH (String.length r2) ltac:(simpl in Hn; lia) r2 eq_refl) as (p & Hp).
    exists (String c1 (String c2 p)).
    exact (f_equal (fun x => String c1 (String c2 x)) Hp). }
  destruct r2 as [|c3 r3]; [exists EmptyString; reflexivity|].
  destruct (TriggerConfig.is_space3 c3 c2 c1); [|exists EmptyString; reflexivity].
  destruct (IH (String.length r3) ltac:(simpl in Hn; lia) r3 eq_refl) as (p & Hp).
  exists (String c1 (String c2 (String c3 p))).
  exact (f_equal (fun x => String c1 (String c2 (String c3 x))) Hp).
Qed.

Lemma has_char_reverse_onto (c : ascii) (s acc : string) :
  has_char c (TriggerConfig.reverse_onto s acc) = has_char c s || has_char c acc.
Proof.
  revert acc. induction s as [|x s IH]; intros acc; simpl; [reflexivity|].
  rewrite IH. simpl. destruct (Ascii.eqb x c), (has_char c s), (has_char c acc); reflexivity.
Qed.

Lemma has_char_reverse (c : ascii) (s : string) :
  has_char c (TriggerConfig.reverse s) = has_char c s.
Proof. unfold TriggerConfig.reverse. rewrite has_char_reverse_onto. simpl. apply orb_false_r. Qed.

(** Stripping brings in no character. *)
Lemma has_char_strip (c : ascii) (s : string) :
  has_char c s = false -> has_char c (TriggerConfig.strip s) = false.
Proof.
  intros H. unfold TriggerConfig.strip, TriggerConfig.rstrip.
  assert (Hl : has_char c (TriggerConfig.lstrip s) = false).
  { destruct (lstrip_suffix s) as (p & Hp). rewrite Hp, has_char_append in H.
    now apply orb_false_iff in H. }
  rewrite has_char_reverse.
  destruct (lstrip_reversed_suffix (TriggerConfig.reverse (TriggerConfig.lstrip s)))
    as (p & Hp).
  rewrite <- has_char_reverse in Hl. rewrite Hp, has_char_append in Hl.
  now apply orb_false_iff in Hl.
Qed.

Lemma split_comma_pieces (s : string) :
  Forall (fun p => has_char "," p = false) (TriggerConfig.split_comma s).
Proof.
  induction s as [|c s IH]; simpl; [repeat constructor|].
  destruct (Ascii.eqb c ",") eqn:Ec; [constructor; [reflexivity | exact IH]|].
  destruct (TriggerConfig.split_comma s) as [|p ps]; [repeat constructor; simpl; now rewrite Ec|].
  inversion IH; subst. constructor; [simpl; now rewrite Ec | assumption].
Qed.

Lemma nonblank_names_proper (pieces : list string) :
  Forall (fun p => has_char "," p = false) pieces ->
  Forall (fun n => n <> "" /\ has_char "," n = false) (nonblank_names pieces)
  /\ length (nonblank_names pieces) <= length pieces.
Proof.
  unfold nonblank_names. induction 1 as [|p rest Hp _ [IH1 IH2]]; simpl;
    [split; [constructor | lia]|].
  destruct (String.eqb (TriggerConfig.strip p) "") eqn:E; simpl.
  - split; [exact IH1 | lia].
  - split; [|lia]. constructor; [|exact IH1].
    split; [now apply String.eqb_neq | now apply has_char_strip].
Qed.

(** X8: whatever non-empty string names the repositories on the
    command line, every target has a name that is a string, not empty
    and without comma, together with the default workflow and branch,
    an empty [exclude_dirs] and [enabled] true; there are at most as
    many targets as comma-separated pieces. *)
Theorem specific_names_are_proper
    (config settings : Aggregate.dict) (specific_repos : string) :
  Aggregate.get_default config "settings" (Aggregate.JObj []) = Aggregate.JObj settings ->
  specific_repos <> "" ->
  exists targets,
    TriggerConfig.get_repos_to_scan (Aggregate.JObj config) specific_repos = Ok targets
    /\ length targets <= length (TriggerConfig.split_comma specific_repos)
    /\ Forall (fun t => exists n,
                  n <> "" /\ has_char "," n = false
                  /\ t = specific_target (default_workflow_of settings)
                                         (default_branch_of settings) n)
              targets.
Proof.
  intros Hs Hne. unfold TriggerConfig.get_repos_to_scan. rewrite Hs.
  apply String.eqb_neq in Hne. rewrite Hne. simpl.
  eexists. split; [reflexivity|]. rewrite specific_targets_names.
  destruct (nonblank_names_proper _ (split_comma_pieces specific_repos)) as [H1 H2].
  split; [now rewrite length_map|].
  apply Forall_map. eapply Forall_impl; [exact H1|].
  intros n [Hn Hc]. simpl. eauto.
Qed.

Lemma specific_names_are_proper_witness :
  exists targets,
    TriggerConfig.get_repos_to_scan sample_config ", org/x ,," = Ok targets
    /\ length targets <= 4
    /\ Forall (fun t => exists n,
                  n <> "" /\ has_char "," n = false
                  /\ t = specific_target (Aggregate.JStr "ci.yml")
                                         (Aggregate.JStr "develop") n)
              targets.
Proof.
  exact (specific_names_are_proper sample_mapping
           [("default_branch", Aggregate.JStr "develop")] ", org/x ,," eq_refl
           ltac:(discriminate)).
Defined.

(** [str.strip] removes the white space of Unicode, also where it
    takes several bytes, and nothing inside the name. *)
Example strip_unicode_space :
  TriggerConfig.strip
    (String (ascii_of_nat 194) (String (ascii_of_nat 160)
       (String.append " org/a b	"
          (String (ascii_of_nat 227) (String (ascii_of_nat 128)
             (String (ascii_of_nat 128) (String (ascii_of_nat 10) EmptyString)))))))
  = "org/a b".
Proof. reflexivity. Qed.

Lemma config_targets_entries (settings : Aggregate.dict) (entries : list Aggregate.json) :
  TriggerConfig.config_targets (default_workflow_of settings) (default_branch_of settings)
                               entries
  = map (target_of_entry settings) (List.filter scanned_entry entries).
Proof.
  induction entries as [|e rest IH]; simpl; [reflexivity|].
  destruct e as [| | | | |repo]; simpl; try exact IH.
  destruct (Aggregate.truthy (Aggregate.get_default repo "enabled" (Aggregate.JBool true)));
    simpl; now rewrite IH.
Qed.

(** X9: without repositories on the command line, the targets are the
    entries of the configured list that are mappings whose [enabled]
    is absent or true in Python's sense, in the order of the list;
    other items and disabled entries are dropped.  A target takes
    workflow and branch from its entry or else from the settings, its
    name is None when the entry has none, and every target is
    enabled. *)
Theorem configured_repos_filter
    (config settings : Aggregate.dict) (entries : list Aggregate.json) :
  Aggregate.get_default config "settings" (Aggregate.JObj []) = Aggregate.JObj settings ->
  Aggregate.get_default config "repos" (Aggregate.JList []) = Aggregate.JList entries ->
  exists targets,
    TriggerConfig.get_repos_to_scan (Aggregate.JObj config) "" = Ok targets
    /\ targets = map (target_of_entry settings) (List.filter scanned_entry entries)
    /\ length targets <= length entries
    /\ Forall (fun t => TriggerConfig.enabled t = true) targets
    /\ (Forall (fun e => scanned_entry e = false) entries -> targets = []).
Proof.
  intros Hs Hr.
  exists (map (target_of_entry settings) (List.filter scanned_entry entries)).
  split.
  { unfold TriggerConfig.get_repos_to_scan. rewrite Hs, Hr.
    rewrite <- config_targets_entries. reflexivity. }
  split; [reflexivity|]. split; [|split].
  - rewrite length_map. apply List.filter_length_le.
  - apply Forall_map. apply Forall_forall. intros e He.
    apply list_elem_of_In, List.filter_In in He as [_ He].
    destruct e; try discriminate. reflexivity.
  - intros Hall. clear Hr. induction Hall as [|e rest He _ IH]; [reflexivity|].
    cbn [List.filter]. rewrite He. exact IH.
Qed.

Lemma configured_repos_filter_witness :
  TriggerConfig.get_repos_to_scan sample_config ""
  = Ok [ {| TriggerConfig.name := Aggregate.JStr "org/a";
            TriggerConfig.workflow_file := Aggregate.JStr "ci.yml";
            TriggerConfig.branch := Aggregate.JStr "develop";
            TriggerConfig.exclude_dirs := Aggregate.JStr "";
            TriggerConfig.enabled := true |};
         {| TriggerConfig.name := Aggregate.JNull;
            TriggerConfig.workflow_file := Aggregate.JStr "scan.yml";
            TriggerConfig.branch := Aggregate.JStr "main";
            TriggerConfig.exclude_dirs := Aggregate.JStr "";
            TriggerConfig.enabled := true |} ].
Proof.
  destruct (configured_repos_filter sample_mapping
              [("default_branch", Aggregate.JStr "develop")] _ eq_refl eq_refl)
    as (targets & E & Ht & _).
  unfold sample_config. rewrite E, Ht. reflexivity.
Defined.

(** X10: [get_repos_to_scan] returns a list exactly for the
    configurations that are a mapping whose [settings], when present,
    is a mapping and, unless repositories are named on the command
    line, whose [repos], when present, is a list, a mapping or a
    string; for every other configuration (an empty document, a null
    [settings] or [repos]) it raises AttributeError or TypeError. *)
Theorem get_repos_to_scan_accepts (config : Aggregate.json) (specific_repos : string) :
  ((exists targets, TriggerConfig.get_repos_to_scan config specific_repos = Ok targets)
   <-> accepted_config config specific_repos = true)
  /\ (accepted_config config specific_repos = false ->
      exists kind msg,
        TriggerConfig.get_repos_to_scan config specific_repos
        = Raise (OtherError kind msg)
        /\ (kind = "AttributeError" \/ kind = "TypeError")).
Proof.
  unfold TriggerConfig.get_repos_to_scan, accepted_config, Aggregate.get_default.
  destruct config as [| | | | |config];
    try (split; [split; [intros [? ?]; discriminate | discriminate]
                | intros _; eexists _, _; split; [reflexivity | auto]]).
  destruct (Aggregate.dict_get config "settings") as [[| | | | |settings]|];
    try (split; [split; [intros [? ?]; discriminate | discriminate]
                | intros _; eexists _, _; split; [reflexivity | auto]]);
    (destruct (String.eqb specific_repos ""); simpl;
     [|split; [split; eauto | discriminate]]);
    (destruct (Aggregate.dict_get config "repos") as [[| | | | |]|]; simpl;
     try (split; [split; eauto | discriminate]);
     try (split; [split; [intros [? ?]; discriminate | discriminate]
                 | intros _; eexists _, _; split; [reflexivity | auto]])).
Qed.

(** An empty YAML document is rejected, also when the repositories are
    named on the command line; a [repos] key without value is rejected
    unless they are. *)
Example rejected_configurations :
  TriggerConfig.get_repos_to_scan Aggregate.JNull "org/a"
  = Raise (OtherError "AttributeError" "object has no attribute 'get'")
  /\ TriggerConfig.get_repos_to_scan (Aggregate.JObj [("repos", Aggregate.JNull)]) ""
     = Raise (OtherError "TypeError" "object is not iterable")
  /\ TriggerConfig.get_repos_to_scan (Aggregate.JObj [("repos", Aggregate.JNull)]) "org/a"
     = Ok [specific_target (Aggregate.JStr "ci.yml") (Aggregate.JStr "main") "org/a"].
Proof. repeat split. Qed.

(** X11: [get_github_token] never returns an empty token.  It returns
    GITHUB_TOKEN when that is set and not empty, otherwise
    BP_GITHUB_TOKEN when that is set and not empty, and otherwise
    ends the process with exit code 1. *)
Theorem token_is_never_empty (env : TriggerConfig.environ) :
  match TriggerConfig.get_github_token env with
  | Ok t =>
      t <> ""
      /\ (env "GITHUB_TOKEN" = Some t
          \/ ((env "GITHUB_TOKEN" = None \/ env "GITHUB_TOKEN" = Some "")
              /\ env "BP_GITHUB_TOKEN" = Some t))
  | Raise e =>
      e = SystemExit 1
      /\ (env "GITHUB_TOKEN" = None \/ env "GITHUB_TOKEN" = Some "")
      /\ (env "BP_GITHUB_TOKEN" = None \/ env "BP_GITHUB_TOKEN" = Some "")
  end.
Proof.
  unfold TriggerConfig.get_github_token.
  destruct (env "GITHUB_TOKEN") as [g|] eqn:Eg.
  - destruct (String.eqb g "") eqn:E.
    + apply String.eqb_eq in E. subst g.
      destruct (env "BP_GITHUB_TOKEN") as [b|] eqn:Eb; [|auto].
      destruct (String.eqb b "") eqn:E'.
      * apply String.eqb_eq in E'. subst b. auto.
      * apply String.eqb_neq in E'. auto.
    + rewrite E. apply String.eqb_neq in E. auto.
  - destruct (env "BP_GITHUB_TOKEN") as [b|] eqn:Eb; [|auto].
    destruct (String.eqb b "") eqn:E'.
    + apply String.eqb_eq in E'. subst b. auto.
    + apply String.eqb_neq in E'. auto.
Qed.

(** An empty GITHUB_TOKEN gives way to BP_GITHUB_TOKEN. *)
Example empty_token_falls_back :
  TriggerConfig.get_github_token (token_environ (Some "") (Some "ghp_x")) = Ok "ghp_x"
  /\ TriggerConfig.get_github_token (token_environ (Some "") None) = Raise (SystemExit 1).
Proof. split; reflexivity. Qed.

(** ** The poll loop, continued *)

Lemma settled_kept_refl (r : Collect.run) : settled_kept r r.
Proof. unfold settled_kept. auto. Qed.

Lemma settled_kept_trans (r1 r2 r3 : Collect.run) :
  settled_kept r1 r2 -> settled_kept r2 r3 -> settled_kept r1 r3.
Proof.
  intros (Hr & Hi & Hc & Hu) (Hr' & Hi' & Hc' & Hu'). unfold settled_kept.
  repeat split; try congruence.
  - intros H. rewrite (Hc H) in *. auto.
  - intros H. rewrite (Hu H) in *. auto.
Qed.

Lemma settled_kept_all_refl (runs : list Collect.run) : Forall2 settled_kept runs runs.
Proof. induction runs; constructor; auto using settled_kept_refl. Qed.

Lemma settled_kept_all_trans (l1 l2 l3 : list Collect.run) :
  Forall2 settled_kept l1 l2 -> Forall2 settled_kept l2 l3 -> Forall2 settled_kept l1 l3.
Proof.
  intros H. revert l3. induction H; intros l3 H3; inversion H3; subst; constructor;
    eauto using settled_kept_trans.
Qed.

Lemma pending_valid_kept (pending : list nat) (runs runs' : list Collect.run) :
  Forall2 settled_kept runs runs' ->
  pending_valid pending runs -> pending_valid pending runs'.
Proof.
  intros H2 Hv. unfold pending_valid in *. eapply Forall_impl; [exact Hv|].
  intros i (r & Hl & Ht). simpl.
  destruct (Forall2_lookup_l _ _ _ _ _ H2 Hl) as (r' & Hl' & (_ & Hid & _)).
  exists r'. split; [exact Hl' | congruence].
Qed.

(** Whatever a status query answers, a poll changes a record only if
    it has a usable run id and is not completed yet. *)
Lemma poll_run_kept (env : Env) (r r' : Collect.run) (done : bool) (tr tr' : trace) :
  truthy_id (Collect.run_id r) = true ->
  Collect.poll_run env r tr = (Ok (r', done), tr') ->
  settled_kept r r'.
Proof.
  intros Ht. unfold Collect.poll_run.
  destruct (Collect.completed r) eqn:Ec.
  - intros [= <- <- <-]. apply settled_kept_refl.
  - destruct (Collect.run_id r) as [id|] eqn:Eid; [|discriminate].
    intros H. apply bind_ok in H as (st & tr1 & _ & H).
    unfold settled_kept.
    destruct (Collect.sd_completed st); injection H as <- <- <-; simpl;
      rewrite ?Eid, ?Ec; repeat split; auto; try discriminate;
      intros Hf; rewrite Hf in Ht; discriminate.
Qed.

Lemma poll_round_kept (env : Env) (pending : list nat) (st st' : Collect.round_state)
    (tr tr' : trace) :
  pending_valid pending (Collect.store st) ->
  Collect.poll_round env pending st tr = (Ok st', tr') ->
  Forall2 settled_kept (Collect.store st) (Collect.store st').
Proof.
  revert st tr. induction pending as [|i rest IH]; intros st tr Hv; simpl.
  - intros [= <- <-]. apply settled_kept_all_refl.
  - inversion Hv as [|? ? (r & Hl & Ht) Hrest]; subst. rewrite Hl.
    intros H. apply bind_ok in H as ([r' done] & tr1 & E & H).
    pose proof (poll_run_kept _ _ _ _ _ _ Ht E) as Hk.
    assert (Hstep : Forall2 settled_kept (Collect.store st)
                      (<[i:=r']> (Collect.store st))).
    { rewrite <- (list_insert_id _ _ _ Hl) at 1.
      apply Forall2_insert; [apply settled_kept_all_refl | exact Hk]. }
    apply IH in H; [|simpl; eapply pending_valid_kept; eauto].
    simpl in H. eapply settled_kept_all_trans; eauto.
Qed.

Lemma wait_loop_kept (env : Env) (fuel : nat) (start : Q) (timeout interval : Z)
    (pending : list nat) (runs runs' : list Collect.run) (tr tr' : trace) :
  pending_valid pending runs ->
  Collect.wait_loop env fuel start timeout interval pending runs tr = (Ok (Some runs'), tr') ->
  Forall2 settled_kept runs runs'.
Proof.
  revert runs tr. induction fuel as [|fuel IH]; intros runs tr Hv; simpl.
  - discriminate.
  - intros H. apply bind_ok in H as (t & tr0 & _ & H).
    destruct (time_gtb _ _).
    + injection H as <- <-. apply settled_kept_all_refl.
    + apply bind_ok in H as (st' & tr1 & E & H).
      pose proof (poll_round_kept env pending
                    {| Collect.store := runs; Collect.all_completed := true;
                       Collect.completed_count := 0 |} st' tr0 tr1 Hv E) as Hk.
      simpl in Hk.
      destruct (Collect.all_completed st').
      * injection H as <- <-. exact Hk.
      * apply bind_ok in H as (u & tr2 & _ & H).
        apply IH in H; [|eapply pending_valid_kept; eauto].
        eapply settled_kept_all_trans; eauto.
Qed.

Lemma wait_for_completion_kept
    (env : Env) (fuel : nat) (runs runs' : list Collect.run)
    (timeout_minutes interval : Z) (tr tr' : trace) :
  Collect.wait_for_completion env fuel runs timeout_minutes interval tr
  = (Ok (Some runs'), tr') ->
  Forall2 settled_kept runs runs'.
Proof.
  intros H. unfold Collect.wait_for_completion in H.
  apply bind_ok in H as (t & tr0 & _ & H).
  pose proof (pending_from_valid [] runs) as Hv. simpl in Hv.
  fold (Collect.pending_runs runs) in Hv.
  destruct (Collect.pending_runs runs) as [|i rest].
  - injection H as <- <-. apply settled_kept_all_refl.
  - eapply wait_loop_kept; eauto.
Qed.

(** X12: the records the poll loop returns are the given ones, in
    order and as many: each keeps its repository and run id, and a
    record that was already completed, or that has no usable run id,
    comes back unchanged. *)
Theorem poll_loop_keeps_settled_records
    (env : Env) (fuel : nat) (runs runs' : list Collect.run)
    (timeout_minutes interval : Z) (tr tr' : trace) :
  Collect.wait_for_completion env fuel runs timeout_minutes interval tr
  = (Ok (Some runs'), tr') ->
  length runs' = length runs
  /\ Forall2 (fun r r' =>
               Collect.repo r' = Collect.repo r
               /\ Collect.run_id r' = Collect.run_id r
               /\ (Collect.completed r = true -> r' = r)
               /\ (truthy_id (Collect.run_id r) = false -> r' = r))
            runs runs'.
Proof.
  intros H. pose proof (wait_for_completion_kept _ _ _ _ _ _ _ _ H) as Hk.
  split; [symmetry; exact (Forall2_length _ _ _ Hk) | exact Hk].
Qed.

Lemma poll_loop_keeps_settled_records_witness :
  match Collect.wait_for_completion patient_env 4
          [unresolved_run; completed_run; pending_run] 1 30 [] with
  | (Ok (Some runs'), _) =>
      length runs' = 3
      /\ Forall2 (fun r r' =>
                   Collect.repo r' = Collect.repo r
                   /\ Collect.run_id r' = Collect.run_id r
                   /\ (Collect.completed r = true -> r' = r)
                   /\ (truthy_id (Collect.run_id r) = false -> r' = r))
                [unresolved_run; completed_run; pending_run] runs'
  | _ => False
  end.
Proof.
  destruct (Collect.wait_for_completion patient_env 4
              [unresolved_run; completed_run; pending_run] 1 30 [])
    as [[[runs'|]|e] tr'] eqn:E.
  - exact (poll_loop_keeps_settled_records patient_env 4 _ runs' 1 30 [] tr' E).
  - vm_compute in E. discriminate.
  - vm_compute in E. discriminate.
Defined.

(** A round over records that are all completed asks nothing and
    changes nothing. *)
Lemma poll_round_settled (env : Env) (pending : list nat) (st : Collect.round_state)
    (tr : trace) :
  Forall (fun i => exists r, Collect.store st !! i = Some r
                             /\ Collect.completed r = true) pending ->
  exists n,
    Collect.poll_round env pending st tr
    = (Ok {| Collect.store := Collect.store st;
             Collect.all_completed := Collect.all_completed st;
             Collect.completed_count := n |}, tr).
Proof.
  revert st. induction pending as [|i rest IH]; intros st Hv; simpl.
  - exists (Collect.completed_count st). destruct st; reflexivity.
  - inversion Hv as [|? ? (r & Hl & Hc) Hrest]; subst. rewrite Hl.
    unfold bind, Collect.poll_run. rewrite Hc. unfold ret. simpl.
    rewrite (list_insert_id _ _ _ Hl).
    destruct (IH {| Collect.store := Collect.store st;
                    Collect.all_completed := Collect.all_completed st;
                    Collect.completed_count := S (Collect.completed_count st) |})
      as (n & E); [exact Hrest|].
    rewrite E. simpl. eauto.
Qed.

Lemma pending_valid_settled (pending : list nat) (runs : list Collect.run) :
  pending_valid pending runs ->
  Forall (fun r => settled r = true) runs ->
  Forall (fun i => exists r, runs !! i = Some r /\ Collect.completed r = true) pending.
Proof.
  intros Hv Hs. eapply Forall_impl; [exact Hv|].
  intros i (r & Hl & Ht). simpl. exists r. split; [exact Hl|].
  rewrite Forall_forall in Hs. specialize (Hs r).
  unfold settled in Hs. rewrite Ht in Hs. simpl in Hs. apply Hs.
  eapply list_elem_of_lookup_2. exact Hl.
Qed.

(** X13: when every record is either without usable run id or already
    completed, the poll loop returns the records as they are after one
    or two clock reads, in every world and for every timeout and poll
    interval: it makes no remote call and does not sleep. *)
Theorem nothing_to_wait_for
    (env : Env) (fuel : nat) (runs : list Collect.run)
    (timeout_minutes interval : Z) (tr : trace) :
  Forall (fun r => settled r = true) runs ->
  exists tr',
    Collect.wait_for_completion env (S fuel) runs timeout_minutes interval tr
    = (Ok (Some runs), tr')
    /\ (tr' = EvClock :: tr \/ tr' = EvClock :: EvClock :: tr).
Proof.
  intros Hs. unfold Collect.wait_for_completion, bind at 1, now, call at 1.
  pose proof (pending_from_valid [] runs) as Hv. simpl in Hv.
  fold (Collect.pending_runs runs) in Hv.
  destruct (Collect.pending_runs runs) as [|i rest] eqn:Ep.
  - unfold ret. eauto.
  - cbn [Collect.wait_loop]. unfold bind at 1, now, call at 1. cbv beta iota.
    destruct (time_gtb _ _); [unfold ret; eauto|].
    destruct (poll_round_settled env (i :: rest)
                {| Collect.store := runs; Collect.all_completed := true;
                   Collect.completed_count := 0 |} (EvClock :: EvClock :: tr))
      as (n & E); [exact (pending_valid_settled _ _ Hv Hs)|].
    unfold bind. rewrite E. simpl. unfold ret. eauto.
Qed.

Lemma nothing_to_wait_for_witness :
  exists tr',
    Collect.wait_for_completion offline_env 1 [unresolved_run; completed_run] 60 30 []
    = (Ok (Some [unresolved_run; completed_run]), tr')
    /\ (tr' = [EvClock] \/ tr' = [EvClock; EvClock]).
Proof.
  apply (nothing_to_wait_for offline_env 0 [unresolved_run; completed_run] 60 30 []).
  repeat constructor.
Defined.

(** *** The deadline *)


Lemma sleeps_app (l2 l1 : trace) : sleeps (l2 ++ l1) = sleeps l2 + sleeps l1.
Proof.
  induction l2 as [|ev l2 IH]; simpl; [reflexivity|].
  destruct ev; simpl; rewrite IH; reflexivity.
Qed.










(** With a timeout of one minute and a poll interval of 30 seconds the
    loop polls four times and sleeps three times: it returns 90
    seconds after the start. *)
Example one_minute_of_polling :
  sleeps (snd (Collect.wait_for_completion steady_env 4 [pending_run] 1 30 [])) = 3
  /\ waited (snd (Collect.wait_for_completion steady_env 4 [pending_run] 1 30 [])) = 90%Z.
Proof. split; reflexivity. Qed.

(** With a poll interval of one hour the same call returns an hour
    after the start, long after its deadline of one minute. *)
Example one_sleep_past_the_deadline :
  Collect.wait_for_completion steady_env 2 [pending_run] 1 3600 []
  = (Ok (Some [in_progress_run]),
     [EvClock; EvSleep 3600; EvGetWorkflowRun "org/fine" 17; EvGetRepo "org/fine";
      EvClock; EvClock]).
Proof. reflexivity. Qed.

(** ** Collection, continued *)

Lemma canonical_trace_downloads (repo dir : string) (artifacts : list artifact)
    (tr : trace) :
  exists d,
    canonical_trace repo dir artifacts tr = d ++ tr
    /\ Forall (download_of_match repo dir artifacts) d.
Proof.
  revert tr. induction artifacts as [|a rest IH]; intros tr; simpl.
  - exists []. auto.
  - assert (Hweak : forall d, Forall (download_of_match repo dir rest) d ->
                              Forall (download_of_match repo dir (a :: rest)) d).
    { intros d Hd. eapply Forall_impl; [exact Hd|]. intros ev (b & Hb & Hm & ->).
      exists b. simpl. auto. }
    destruct (Collect.is_canonical a) eqn:Ea.
    + destruct (IH (EvDownload repo (art_id a) dir :: tr)) as (d & E & Hd).
      exists (d ++ [EvDownload repo (art_id a) dir]). rewrite <- app_assoc.
      split; [exact E|]. apply Forall_app. split; [auto|].
      constructor; [|constructor]. exists a. simpl. auto.
    + destruct (IH tr) as (d & E & Hd). exists d. auto.
Qed.

Lemma fallback_trace_downloads (repo dir : string) (artifacts : list artifact)
    (tr : trace) :
  exists d,
    fallback_trace repo dir artifacts tr = d ++ tr
    /\ Forall (download_of_match repo dir artifacts) d.
Proof.
  revert tr. induction artifacts as [|a rest IH]; intros tr; simpl.
  - exists []. auto.
  - assert (Hweak : forall d, Forall (download_of_match repo dir rest) d ->
                              Forall (download_of_match repo dir (a :: rest)) d).
    { intros d Hd. eapply Forall_impl; [exact Hd|]. intros ev (b & Hb & Hm & ->).
      exists b. simpl. auto. }
    destruct (Collect.is_fallback a) eqn:Ea.
    + destruct (IH (EvDownload repo (art_id a) dir :: tr)) as (d & E & Hd).
      exists (d ++ [EvDownload repo (art_id a) dir]). rewrite <- app_assoc.
      split; [exact E|]. apply Forall_app. split; [auto|].
      constructor; [|constructor]. exists a. simpl. auto.
    + destruct (IH tr) as (d & E & Hd). exists d. auto.
Qed.

(** What the downloads of a collection give, once the artifacts are
    listed and the directory is made. *)
Lemma collect_downloads (env : Env) (out_dir : string) (r : Collect.run)
    (artifacts : list artifact) (tr0 : trace) :
  let repo := Collect.repo r in
  let dir := path_join out_dir (Collect.repo_dir_name repo) in
  exists c d,
    (found_report <- Collect.download_canonical env repo dir artifacts false ;;
     if found_report then ret (Collect.with_dir repo "collected" dir)
     else
       found_report <- Collect.download_fallback env repo dir artifacts false ;;
       if found_report then ret (Collect.with_dir repo "partial" dir)
       else ret (Collect.no_artifacts repo)) tr0
    = (Ok c, d ++ tr0)
    /\ result_of out_dir r c
    /\ Forall (download_of_match repo dir artifacts) d.
Proof.
  intros repo dir. unfold bind at 1. rewrite download_canonical_run.
  cbv beta iota delta [orb].
  destruct (canonical_trace_downloads repo dir artifacts tr0) as (d1 & E1 & H1).
  rewrite E1.
  destruct (canonical_found env repo dir artifacts tr0).
  - unfold ret. eexists _, d1. split; [reflexivity|]. split; [|exact H1].
    unfold result_of. fold repo dir. auto.
  - unfold bind. rewrite download_fallback_run. cbv beta iota delta [orb].
    destruct (fallback_trace_downloads repo dir artifacts (d1 ++ tr0)) as (d2 & E2 & H2).
    rewrite E2.
    destruct (existsb Collect.is_fallback artifacts); unfold ret;
      (eexists _, (d2 ++ d1); rewrite <- app_assoc; split; [reflexivity|];
       split; [unfold result_of; fold repo dir; auto 10 | apply Forall_app; auto]).
Qed.

(** The calls and the result of [collect_one], in a world whose remote
    errors are GithubExceptions. *)
Lemma collect_one_shape (env : Env) (Hgh : github_errors_only env) (out_dir : string)
    (r : Collect.run) (tr : trace) :
  exists c l,
    Collect.collect_one env out_dir r tr = (Ok c, l ++ tr)
    /\ result_of out_dir r c.
Proof.
  unfold Collect.collect_one.
  destruct (truthy_id (Collect.run_id r)) eqn:Et; simpl.
  2:{ unfold ret. exists (Collect.skipped (Collect.repo r) "no_run_id"), [].
      split; [reflexivity|]. unfold result_of. auto. }
  destruct (Collect.completed r); simpl.
  2:{ unfold ret. exists (Collect.skipped (Collect.repo r) "not_completed"), [].
      split; [reflexivity|]. unfold result_of. auto. }
  destruct (Collect.run_id r) as [id|]; [|discriminate].
  unfold except_github, bind at 1, get_repo, call at 1.
  github_cases Hgh.
  2:{ unfold ret. eexists _, [EvGetRepo (Collect.repo r)]. split; [reflexivity|].
      unfold result_of. eauto 10. }
  unfold bind at 1, get_workflow_run, call at 1.
  github_cases Hgh.
  2:{ unfold ret. eexists _, [EvGetWorkflowRun (Collect.repo r) id; EvGetRepo (Collect.repo r)].
      split; [reflexivity|]. unfold result_of. eauto 10. }
  unfold bind at 1, get_artifacts, call at 1.
  github_cases Hgh.
  2:{ unfold ret. eexists _, [EvGetArtifacts (Collect.repo r) id;
                              EvGetWorkflowRun (Collect.repo r) id;
                              EvGetRepo (Collect.repo r)].
      split; [reflexivity|]. unfold result_of. eauto 10. }
  unfold bind at 1, mkdir, call at 1.
  match goal with
  | |- context [Collect.download_canonical env _ _ ?arts false] =>
      destruct (collect_downloads env out_dir r arts
                  (EvMkdir (path_join out_dir (Collect.repo_dir_name (Collect.repo r)))
                   :: EvGetArtifacts (Collect.repo r) id
                   :: EvGetWorkflowRun (Collect.repo r) id
                   :: EvGetRepo (Collect.repo r) :: tr)) as (c & d & E & Hc & _)
  end.
  cbv zeta in E. rewrite E.
  exists c, (d ++ [EvMkdir (path_join out_dir (Collect.repo_dir_name (Collect.repo r)));
                   EvGetArtifacts (Collect.repo r) id;
                   EvGetWorkflowRun (Collect.repo r) id;
                   EvGetRepo (Collect.repo r)]).
  rewrite <- app_assoc. split; [reflexivity | exact Hc].
Qed.

(** X15: in a world whose remote errors are GithubExceptions,
    [collect_reports] returns one result per record, in order, for the
    record's repository: a skip with its reason, "collected" or
    "partial" with the directory of the repository, "no_artifacts", or
    "error" with the message; no record ends the loop. *)
Theorem collect_reports_one_result_per_record
    (env : Env) (runs : list Collect.run) (out_dir : string) (tr : trace) :
  github_errors_only env ->
  exists results tr',
    Collect.collect_reports env runs out_dir tr = (Ok results, tr')
    /\ Forall2 (result_of out_dir) runs results
    /\ map Collect.cr_repo results = map Collect.repo runs.
Proof.
  intros Hgh. unfold Collect.collect_reports, bind at 1, mkdir, call at 1.
  cbv beta iota. generalize (EvMkdir out_dir :: tr). clear tr.
  induction runs as [|r rest IH]; intros tr; simpl.
  - exists [], tr. repeat split; constructor.
  - destruct (collect_one_shape env Hgh out_dir r tr) as (c & l & E & Hc).
    destruct (IH (l ++ tr)) as (cs & tr' & E' & Hcs & Hm).
    unfold bind at 1. rewrite E. unfold bind at 1. rewrite E'. unfold ret.
    exists (c :: cs), tr'. split; [reflexivity|]. split; [constructor; auto|].
    simpl. f_equal; [|exact Hm].
    unfold result_of in Hc.
    destruct Hc as [->|[->|[->|[->|[->|[msg ->]]]]]]; reflexivity.
Qed.

Lemma collect_reports_one_result_per_record_witness :
  exists results tr',
    Collect.collect_reports no_listing_env [unresolved_run; completed_run; pending_run]
      "reports" [] = (Ok results, tr')
    /\ Forall2 (result_of "reports") [unresolved_run; completed_run; pending_run] results
    /\ map Collect.cr_repo results = ["org/fine"; "org/fine"; "org/fine"].
Proof.
  apply (collect_reports_one_result_per_record no_listing_env
           [unresolved_run; completed_run; pending_run] "reports" []).
  constructor; intros; exact I.
Defined.

(** X16: when one of the calls that list the artifacts of a completed
    run raises a GithubException, the result for the record is "error"
    with the message of the exception, and nothing was written: no
    directory made, no artifact downloaded. *)
Theorem listing_error_writes_nothing
    (env : Env) (out_dir : string) (r : Collect.run) (id : Z) (msg : string)
    (tr : trace) :
  Collect.run_id r = Some id -> id <> 0%Z -> Collect.completed r = true ->
  listing_fails env tr (Collect.repo r) id msg ->
  exists l,
    Collect.collect_one env out_dir r tr
    = (Ok (Collect.errored (Collect.repo r) msg), l ++ tr)
    /\ Forall (fun ev => writes_files ev = false) l.
Proof.
  intros Hid Hnz Hc Hfail. unfold Collect.collect_one. rewrite Hid, Hc.
  apply Z.eqb_neq in Hnz. unfold truthy_id. rewrite Hnz. cbv beta iota delta [negb].
  unfold except_github, bind at 1, get_repo, call at 1.
  destruct Hfail as [H1 | [(H1 & H2) | (H1 & (x & H2) & H3)]]; rewrite H1.
  - unfold ret. exists [EvGetRepo (Collect.repo r)]. split; [reflexivity|].
    repeat constructor.
  - unfold bind at 1, get_workflow_run, call at 1. rewrite H2. unfold ret.
    exists [EvGetWorkflowRun (Collect.repo r) id; EvGetRepo (Collect.repo r)].
    split; [reflexivity | repeat constructor].
  - unfold bind at 1, get_workflow_run, call at 1. rewrite H2.
    unfold bind at 1, get_artifacts, call at 1. rewrite H3. unfold ret.
    exists [EvGetArtifacts (Collect.repo r) id; EvGetWorkflowRun (Collect.repo r) id;
            EvGetRepo (Collect.repo r)].
    split; [reflexivity | repeat constructor].
Qed.

Lemma listing_error_writes_nothing_witness :
  exists l,
    Collect.collect_one no_listing_env "reports" completed_run []
    = (Ok (Collect.errored "org/fine" "410 Gone"), l ++ [])
    /\ Forall (fun ev => writes_files ev = false) l.
Proof.
  apply (listing_error_writes_nothing no_listing_env "reports" completed_run 17%Z
           "410 Gone" []).
  - reflexivity.
  - discriminate.
  - reflexivity.
  - right. right. split; [reflexivity|]. split; [eexists; reflexivity | reflexivity].
Defined.

(** X17: once the artifacts of a completed run are listed, the
    collection makes the directory of the repository and then only
    downloads: each one fetches, into that directory, a listed artifact
    whose name carries the canonical token or a fallback token.  No
    other artifact is fetched and nothing is written elsewhere. *)
Theorem downloads_are_matches_into_repo_dir
    (env : Env) (out_dir : string) (r : Collect.run) (id : Z)
    (artifacts : list artifact) (tr : trace) :
  Collect.run_id r = Some id -> id <> 0%Z -> Collect.completed r = true ->
  listing_succeeds env tr (Collect.repo r) id artifacts ->
  let repo := Collect.repo r in
  let dir := path_join out_dir (Collect.repo_dir_name repo) in
  exists c d,
    Collect.collect_one env out_dir r tr
    = (Ok c, d ++ EvMkdir dir :: EvGetArtifacts repo id :: EvGetWorkflowRun repo id
                :: EvGetRepo repo :: tr)
    /\ Forall (download_of_match repo dir artifacts) d.
Proof.
  intros Hid Hnz Hc (Hrepo & (x & Hrun) & Harts). cbv zeta.
  unfold Collect.collect_one. rewrite Hid, Hc.
  apply Z.eqb_neq in Hnz. unfold truthy_id. rewrite Hnz. cbv beta iota delta [negb].
  unfold except_github, bind at 1, get_repo, call at 1. rewrite Hrepo.
  unfold bind at 1, get_workflow_run, call at 1. rewrite Hrun.
  unfold bind at 1, get_artifacts, call at 1. rewrite Harts.
  unfold bind at 1, mkdir, call at 1.
  destruct (collect_downloads env out_dir r artifacts
              (EvMkdir (path_join out_dir (Collect.repo_dir_name (Collect.repo r)))
               :: EvGetArtifacts (Collect.repo r) id
               :: EvGetWorkflowRun (Collect.repo r) id
               :: EvGetRepo (Collect.repo r) :: tr)) as (c & d & E & _ & Hd).
  cbv zeta in E. rewrite E. exists c, d. split; [reflexivity | exact Hd].
Qed.

Lemma downloads_are_matches_into_repo_dir_witness :
  exists c d,
    Collect.collect_one
      (artifacts_env [other_artifact; canonical_artifact; docker_artifact] false)
      "reports" completed_run []
    = (Ok c, d ++ [EvMkdir "reports/org-fine"; EvGetArtifacts "org/fine" 17;
                   EvGetWorkflowRun "org/fine" 17; EvGetRepo "org/fine"])
    /\ Forall (download_of_match "org/fine" "reports/org-fine"
                 [other_artifact; canonical_artifact; docker_artifact]) d.
Proof.
  apply (downloads_are_matches_into_repo_dir
           (artifacts_env [other_artifact; canonical_artifact; docker_artifact] false)
           "reports" completed_run 17%Z
           [other_artifact; canonical_artifact; docker_artifact] []).
  - reflexivity.
  - discriminate.
  - reflexivity.
  - split; [reflexivity|]. split; [eexists; reflexivity | reflexivity].
Defined.

(** *** The entry point *)

Lemma except_github_ok {A} (m : M A) (h : string -> M A) (tr tr' : trace) (a : A) :
  except_github m h tr = (Ok a, tr') ->
  m tr = (Ok a, tr')
  \/ exists msg tr1, m tr = (Raise (GithubException msg), tr1) /\ h msg tr1 = (Ok a, tr').
Proof.
  unfold except_github. destruct (m tr) as [[x|[msg| |]] tr1]; intros H;
    try discriminate; eauto.
Qed.

(** A result of [collect_one] has one of the six shapes, whatever the
    world does. *)
Lemma collect_one_result (env : Env) (out_dir : string) (r : Collect.run)
    (tr tr' : trace) (c : Collect.collection_result) :
  Collect.collect_one env out_dir r tr = (Ok c, tr') -> result_of out_dir r c.
Proof.
  unfold Collect.collect_one.
  destruct (truthy_id (Collect.run_id r)); simpl;
    [|intros [= <- <-]; unfold result_of; auto].
  destruct (Collect.completed r); simpl;
    [|intros [= <- <-]; unfold result_of; auto].
  destruct (Collect.run_id r) as [id|]; [|discriminate].
  intros H. apply except_github_ok in H as [H | (msg & tr1 & _ & H)].
  - apply bind_ok in H as (u1 & t1 & _ & H).
    apply bind_ok in H as (u2 & t2 & _ & H).
    apply bind_ok in H as (arts & t3 & _ & H).
    apply bind_ok in H as (u4 & t4 & _ & H).
    destruct (collect_downloads env out_dir r arts t4) as (c' & d & E & Hc & _).
    cbv zeta in E. rewrite E in H. injection H as <- _. exact Hc.
  - injection H as <- <-. unfold result_of. eauto 10.
Qed.

Lemma collect_loop_results (env : Env) (out_dir : string) (runs : list Collect.run)
    (tr tr' : trace) (rs : list Collect.collection_result) :
  Collect.collect_loop env out_dir runs tr = (Ok rs, tr') ->
  Forall2 (result_of out_dir) runs rs.
Proof.
  revert tr rs. induction runs as [|r rest IH]; intros tr rs; simpl.
  - intros [= <- <-]. constructor.
  - intros H. apply bind_ok in H as (c & t1 & E1 & H).
    apply bind_ok in H as (cs & t2 & E2 & H). injection H as <- <-.
    constructor; [eapply collect_one_result; eauto | eauto].
Qed.

Lemma result_of_repo (out_dir : string) (r : Collect.run) (c : Collect.collection_result) :
  result_of out_dir r c -> Collect.cr_repo c = Collect.repo r.
Proof.
  unfold result_of. intros [->|[->|[->|[->|[->|[msg ->]]]]]]; reflexivity.
Qed.

Lemma count_results_partition (out_dir : string) (runs : list Collect.run)
    (rs : list Collect.collection_result) :
  Forall2 (result_of out_dir) runs rs ->
  CollectMain.count_results (fun s => String.eqb s "collected") rs
  + CollectMain.count_results (fun s => String.eqb s "partial") rs
  + CollectMain.count_results
      (fun s => String.eqb s "error" || String.eqb s "no_artifacts"
                || String.eqb s "skipped") rs
  = length rs.
Proof.
  unfold CollectMain.count_results.
  induction 1 as [|r c runs' rs' Hc _ IH]; [reflexivity|].
  cbn [List.filter]. unfold result_of in Hc.
  destruct Hc as [->|[->|[->|[->|[->|[msg ->]]]]]]; simpl in *; lia.
Qed.

(** X18: the summary of a collection counts every result once: the
    counts of collected, partial and failed results add up to the
    number of results, which is the number of records of the runs
    file, each result being for the repository of its record.  A runs
    file from a dry run, or without records, ends the process with
    code 0 before any call. *)
Theorem collection_summary_counts_every_result
    (env : Env) (fuel : nat) (dry_run : bool) (runs : list Collect.run)
    (skip_wait : bool) (timeout_minutes interval : Z) (out_dir : string) (tr : trace) :
  (dry_run = true \/ runs = [] ->
     CollectMain.main env fuel dry_run runs skip_wait timeout_minutes interval out_dir tr
     = (Raise (SystemExit 0), tr))
  /\ (forall res tr',
       CollectMain.main env fuel dry_run runs skip_wait timeout_minutes interval out_dir tr
       = (Ok (Some res), tr') ->
       let s := CollectMain.results_summary res in
       CollectMain.n_collected s + CollectMain.n_partial s + CollectMain.n_failed s
       = length (CollectMain.results res)
       /\ length (CollectMain.results res) = length runs
       /\ map Collect.cr_repo (CollectMain.results res) = map Collect.repo runs
       /\ CollectMain.output_dir res = out_dir).
Proof.
  unfold CollectMain.main. split.
  - intros [-> | ->]; [reflexivity | destruct dry_run; reflexivity].
  - intros res tr'. destruct dry_run; [discriminate|].
    destruct runs as [|r0 rest]; [discriminate|].
    generalize (r0 :: rest). clear r0 rest. intros runs H.
    apply bind_ok in H as (waited & t1 & Ew & H).
    assert (exists runs', waited = Some runs' /\ Forall2 settled_kept runs runs')
      as (runs' & -> & Hk).
    { destruct skip_wait.
      - injection Ew as <- <-. eauto using settled_kept_all_refl.
      - destruct waited as [runs'|].
        + exists runs'. split; [reflexivity|].
          eapply wait_for_completion_kept; eauto.
        + injection H as H. discriminate. }
    apply bind_ok in H as (rs & t2 & Er & H).
    apply bind_ok in H as (t & t3 & _ & H). injection H as <- <-. simpl.
    unfold Collect.collect_reports in Er.
    apply bind_ok in Er as (u & t0 & _ & Er).
    apply collect_loop_results in Er.
    split; [exact (count_results_partition _ _ _ Er)|].
    split; [|split; [|reflexivity]].
    + rewrite <- (Forall2_length _ _ _ Er). symmetry. exact (Forall2_length _ _ _ Hk).
    + clear -Er Hk. revert rs Er.
      induction Hk as [|r r' l l' (Hr & _) _ IH]; intros rs Er;
        inversion Er as [|? c ? cs Hc Hcs]; subst; [reflexivity|]. simpl.
      rewrite (result_of_repo _ _ _ Hc), Hr. f_equal. auto.
Qed.

Lemma collection_summary_counts_every_result_witness :
  match CollectMain.main no_listing_env 4 false
          [unresolved_run; completed_run; pending_run] true 60 30 "reports" [] with
  | (Ok (Some res), _) =>
      let s := CollectMain.results_summary res in
      CollectMain.n_collected s + CollectMain.n_partial s + CollectMain.n_failed s
      = length (CollectMain.results res)
      /\ length (CollectMain.results res) = 3
      /\ map Collect.cr_repo (CollectMain.results res) = ["org/fine"; "org/fine"; "org/fine"]
      /\ CollectMain.output_dir res = "reports"
  | _ => False
  end.
Proof.
  destruct (CollectMain.main no_listing_env 4 false
              [unresolved_run; completed_run; pending_run] true 60 30 "reports" [])
    as [[[res|]|e] tr'] eqn:E.
  - exact (proj2 (collection_summary_counts_every_result no_listing_env 4 false
                    [unresolved_run; completed_run; pending_run] true 60 30 "reports" [])
                 res tr' E).
  - vm_compute in E. discriminate.
  - vm_compute in E. discriminate.
Defined.

Lemma collect_loop_unfinished (env : Env) (out_dir : string) (runs : list Collect.run)
    (tr : trace) :
  Forall (fun r => Collect.completed r = false) runs ->
  Collect.collect_loop env out_dir runs tr
  = (Ok (map (fun r => Collect.skipped (Collect.repo r)
                         (if truthy_id (Collect.run_id r) then "not_completed"
                          else "no_run_id")) runs), tr).
Proof.
  induction 1 as [|r rest Hr _ IH]; simpl; [reflexivity|].
  unfold bind at 1, Collect.collect_one. rewrite Hr.
  destruct (truthy_id (Collect.run_id r)); simpl; unfold bind; rewrite IH; reflexivity.
Qed.

Lemma count_results_skipped (p : string -> bool) (rs : list Collect.collection_result) :
  Forall (fun c => Collect.cr_status c = "skipped") rs ->
  CollectMain.count_results p rs = if p "skipped" then length rs else 0.
Proof.
  unfold CollectMain.count_results. induction 1 as [|c rest Hc _ IH]; simpl.
  - destruct (p "skipped"); reflexivity.
  - rewrite Hc. destruct (p "skipped"); simpl; rewrite IH; reflexivity.
Qed.

(** X19: the collect script run with [--skip-wait] on the records as
    the trigger script wrote them collects nothing.  The records carry
    no [completed] key, which only the poll loop sets, so that every
    record is skipped, those with a run id as "not_completed"; no
    remote call is made, and the summary counts every record as
    failed. *)
Theorem skip_wait_on_trigger_output_collects_nothing
    (env : Env) (fuel : nat) (records : list Trigger.run_record)
    (timeout_minutes interval : Z) (out_dir : string) (tr : trace) :
  records <> [] ->
  exists res,
    CollectMain.main env fuel false (map CollectMain.of_trigger records) true
      timeout_minutes interval out_dir tr
    = (Ok (Some res), EvClock :: EvMkdir out_dir :: tr)
    /\ CollectMain.results res
       = map (fun r => Collect.skipped (Trigger.repo r)
                         (if truthy_id (Trigger.run_id r) then "not_completed"
                          else "no_run_id")) records
    /\ CollectMain.n_collected (CollectMain.results_summary res) = 0
    /\ CollectMain.n_partial (CollectMain.results_summary res) = 0
    /\ CollectMain.n_failed (CollectMain.results_summary res) = length records.
Proof.
  intros Hne.
  assert (Hun : Forall (fun r => Collect.completed r = false)
                       (map CollectMain.of_trigger records)).
  { apply Forall_map. apply Forall_forall. reflexivity. }
  assert (Hmap : map (fun r => Collect.skipped (Collect.repo r)
                                 (if truthy_id (Collect.run_id r) then "not_completed"
                                  else "no_run_id"))
                     (map CollectMain.of_trigger records)
                 = map (fun r => Collect.skipped (Trigger.repo r)
                                   (if truthy_id (Trigger.run_id r) then "not_completed"
                                    else "no_run_id")) records).
  { rewrite map_map. reflexivity. }
  assert (Hlen : length (map CollectMain.of_trigger records) = length records)
    by apply length_map.
  unfold CollectMain.main.
  destruct (map CollectMain.of_trigger records) as [|x xs];
    [destruct records; [congruence | discriminate]|].
  remember (x :: xs) as runs eqn:Eruns. clear Eruns x xs.
  unfold bind at 1, ret at 1. unfold bind at 1.
  unfold Collect.collect_reports, bind at 1, mkdir, call at 1.
  rewrite (collect_loop_unfinished env out_dir runs _ Hun).
  unfold bind, now, call, ret. rewrite Hmap.
  eexists. split; [reflexivity|]. cbn [CollectMain.results CollectMain.results_summary
    CollectMain.n_collected CollectMain.n_partial CollectMain.n_failed].
  assert (Hsk : Forall (fun c => Collect.cr_status c = "skipped")
                  (map (fun r => Collect.skipped (Trigger.repo r)
                                   (if truthy_id (Trigger.run_id r) then "not_completed"
                                    else "no_run_id")) records)).
  { apply Forall_map. apply Forall_forall. reflexivity. }
  rewrite !(count_results_skipped _ _ Hsk). simpl.
  rewrite length_map. auto.
Qed.

Lemma skip_wait_on_trigger_output_collects_nothing_witness :
  match Trigger.main flaky_env three_repos false [] with
  | (Ok out, _) =>
      exists res,
        CollectMain.main offline_env 0 false
          (map CollectMain.of_trigger (Trigger.runs out)) true 60 30 "reports" []
        = (Ok (Some res), [EvClock; EvMkdir "reports"])
        /\ map Collect.cr_reason (CollectMain.results res)
           = [Some "no_run_id"; Some "no_run_id"; Some "not_completed"]
        /\ CollectMain.n_failed (CollectMain.results_summary res) = 3
  | _ => False
  end.
Proof.
  destruct (Trigger.main flaky_env three_repos false []) as [[out|e] tr'] eqn:E;
    [|vm_compute in E; discriminate].
  destruct (skip_wait_on_trigger_output_collects_nothing offline_env 0
              (Trigger.runs out) 60 30 "reports" [])
    as (res & Em & Hr & _ & _ & Hf).
  - vm_compute in E. injection E as <- _. discriminate.
  - exists res. split; [exact Em|]. rewrite Hr, Hf.
    vm_compute in E. injection E as <- _. split; reflexivity.
Defined.

Lemma collect_loop_each (env : Env) (out_dir : string) (runs : list Collect.run)
    (tr tr' : trace) (rs : list Collect.collection_result) :
  Collect.collect_loop env out_dir runs tr = (Ok rs, tr') ->
  Forall2 (fun r c => exists t t', Collect.collect_one env out_dir r t = (Ok c, t'))
          runs rs.
Proof.
  revert tr rs. induction runs as [|r rest IH]; intros tr rs; simpl.
  - intros [= <- <-]. constructor.
  - intros H. apply bind_ok in H as (c & t1 & E1 & H).
    apply bind_ok in H as (cs & t2 & E2 & H). injection H as <- <-.
    constructor; eauto.
Qed.

(** X20: from dispatch to collection.  A record that the trigger
    script wrote with a status other than "triggered" has no run id;
    read back by the collect script, it is left alone by the poll loop
    and its result is the skip "no_run_id", in every world and with or
    without waiting. *)
Theorem undispatched_records_are_skipped
    (env env' : Env) (repos : list Trigger.repo_config) (dry_run : bool)
    (tr tr1 : trace) (out : Trigger.output)
    (fuel : nat) (skip_wait : bool) (timeout_minutes interval : Z) (out_dir : string)
    (tr2 tr3 : trace) (res : CollectMain.collection_results) :
  Trigger.main env repos dry_run tr = (Ok out, tr1) ->
  CollectMain.main env' fuel false (map CollectMain.of_trigger (Trigger.runs out))
    skip_wait timeout_minutes interval out_dir tr2 = (Ok (Some res), tr3) ->
  Forall2 (fun r c => Trigger.status r <> "triggered" ->
                      c = Collect.skipped (Trigger.repo r) "no_run_id")
          (Trigger.runs out) (CollectMain.results res).
Proof.
  intros Ht Hc.
  assert (Hid : Forall (fun r => Trigger.status r <> "triggered" ->
                                 Trigger.run_id r = None) (Trigger.runs out)).
  { destruct (main_records _ _ _ _ _ _ Ht) as (rs & Hf & Hr & _).
    clear Ht Hc. revert Hr. generalize (Trigger.runs out).
    induction Hf as [|rc r ? ? (_ & _ & _ & Hnone & _) _ IH]; intros rs' Hr;
      inversion Hr as [|? r' ? ? (_ & _ & _ & Hst & _ & Hrun) Hrest]; subst;
      constructor; auto.
    intros Hne. destruct Hrun as [-> | (Htr & _)]; [exact Hnone|].
    rewrite Hst in Hne. contradiction. }
  unfold CollectMain.main in Hc.
  destruct (map CollectMain.of_trigger (Trigger.runs out)) as [|x xs] eqn:Em;
    [discriminate|]. rewrite <- Em in Hc. clear x xs Em.
  apply bind_ok in Hc as (waited & t1 & Ew & Hc).
  assert (exists runs', waited = Some runs'
                        /\ Forall2 settled_kept
                              (map CollectMain.of_trigger (Trigger.runs out)) runs')
    as (runs' & -> & Hk).
  { destruct skip_wait.
    - injection Ew as <- <-. eauto using settled_kept_all_refl.
    - destruct waited as [runs'|].
      + exists runs'. split; [reflexivity|]. eapply wait_for_completion_kept; eauto.
      + injection Hc as Hc. discriminate. }
  apply bind_ok in Hc as (rs & t2 & Er & Hc).
  apply bind_ok in Hc as (t & t3 & _ & Hc). injection Hc as <- _. simpl.
  unfold Collect.collect_reports in Er.
  apply bind_ok in Er as (u & t0 & _ & Er). apply collect_loop_each in Er.
  clear -Hid Hk Er. revert runs' rs Hk Er.
  induction Hid as [|r rest Hr _ IH]; intros runs' rs Hk Er; simpl in Hk;
    inversion Hk as [|? r' ? runs'' (_ & _ & _ & Hun) Hk']; subst;
    inversion Er as [|? c ? cs (t & t' & Ec) Er']; subst; constructor; eauto.
  intros Hne. specialize (Hr Hne).
  assert (r' = CollectMain.of_trigger r) as ->.
  { apply Hun. simpl. rewrite Hr. reflexivity. }
  unfold Collect.collect_one in Ec. simpl in Ec. rewrite Hr in Ec. simpl in Ec.
  injection Ec as <- _. reflexivity.
Qed.

Lemma undispatched_records_are_skipped_witness :
  match Trigger.main flaky_env three_repos false [] with
  | (Ok out, _) =>
      match CollectMain.main steady_env 4 false
              (map CollectMain.of_trigger (Trigger.runs out)) false 1 30 "reports" [] with
      | (Ok (Some res), _) =>
          Forall2 (fun r c => Trigger.status r <> "triggered" ->
                              c = Collect.skipped (Trigger.repo r) "no_run_id")
                  (Trigger.runs out) (CollectMain.results res)
      | _ => False
      end
  | _ => False
  end.
Proof.
  destruct (Trigger.main flaky_env three_repos false []) as [[out|e] tr1] eqn:E;
    [|vm_compute in E; discriminate].
  destruct (CollectMain.main steady_env 4 false
              (map CollectMain.of_trigger (Trigger.runs out)) false 1 30 "reports" [])
    as [[[res|]|e] tr3] eqn:Ec.
  - exact (undispatched_records_are_skipped flaky_env steady_env three_repos false []
             tr1 out 4 false 1 30 "reports" [] tr3 res E Ec).
  - vm_compute in E. injection E as <- _. vm_compute in Ec. discriminate.
  - vm_compute in E. injection E as <- _. vm_compute in Ec. discriminate.
Defined.

(** X21: the directory name of a repository holds no "/" and has the
    length of the identifier: it is a single path component, so that
    the directory of a repository is a direct child of the output
    directory; the transform changes nothing in a name without "/". *)
Theorem repo_dir_name_is_one_component (repo_name : string) :
  has_char "/" (Collect.repo_dir_name repo_name) = false
  /\ String.length (Collect.repo_dir_name repo_name) = String.length repo_name
  /\ Collect.repo_dir_name (Collect.repo_dir_name repo_name)
     = Collect.repo_dir_name repo_name.
Proof.
  unfold Collect.repo_dir_name.
  assert (H : has_char "/" (Collect.replace_slash repo_name) = false).
  { induction repo_name as [|c s IH]; simpl; [reflexivity|].
    rewrite IH. destruct (Ascii.eqb c "/") eqn:E; [reflexivity|].
    rewrite E. reflexivity. }
  split; [exact H|]. split.
  - clear H. induction repo_name as [|c s IH]; simpl; [reflexivity | now rewrite IH].
  - now apply replace_slash_without_slash.
Qed.

(** ** Aggregation, continued *)

(** *** Discovery *)

Lemma dict_get_set_same (d : Aggregate.dict) (k : string) (v : Aggregate.json) :
  Aggregate.dict_get (Aggregate.dict_set d k v) k = Some v.
Proof.
  induction d as [|[k' v'] rest IH]; simpl.
  - now rewrite String.eqb_refl.
  - destruct (String.eqb k' k) eqn:E; simpl; rewrite E; [reflexivity | exact IH].
Qed.

Lemma dict_get_set_other (d : Aggregate.dict) (k k' : string) (v : Aggregate.json) :
  k <> k' ->
  Aggregate.dict_get (Aggregate.dict_set d k v) k' = Aggregate.dict_get d k'.
Proof.
  intros Hne. induction d as [|[k0 v0] rest IH]; simpl.
  - apply String.eqb_neq in Hne. now rewrite Hne.
  - destruct (String.eqb k0 k) eqn:E; simpl.
    + apply String.eqb_eq in E. subst k0. apply String.eqb_neq in Hne.
      now rewrite Hne.
    + destruct (String.eqb k0 k'); [reflexivity | exact IH].
Qed.

(** Storing a key that starts with an underscore does not show after
    cleaning. *)
Lemma clean_set_private (d : Aggregate.dict) (k : string) (v : Aggregate.json) :
  String.prefix "_" k = true ->
  Aggregate.clean (Aggregate.dict_set d k v) = Aggregate.clean d.
Proof.
  intros Hk. unfold Aggregate.clean, Aggregate.dict in *.
  induction d as [|[k' v'] rest IH]; cbn [Aggregate.dict_set].
  - rewrite filter_cons. destruct (decide _) as [H|_]; [|reflexivity].
    simpl in H. congruence.
  - destruct (String.eqb k' k) eqn:E.
    + apply String.eqb_eq in E. subst k'. rewrite !filter_cons.
      repeat (destruct (decide _) as [H|_]; [simpl in H; congruence|]). reflexivity.
    + rewrite !filter_cons. rewrite IH. reflexivity.
Qed.

Lemma dict_get_clean (d : Aggregate.dict) (k : string) :
  Aggregate.dict_get (Aggregate.clean d) k
  = if String.prefix "_" k then None else Aggregate.dict_get d k.
Proof.
  unfold Aggregate.clean, Aggregate.dict in *. induction d as [|[k' v'] rest IH].
  - simpl. destruct (String.prefix "_" k); reflexivity.
  - rewrite filter_cons. destruct (decide _) as [H|H]; simpl in H;
      cbn [Aggregate.dict_get].
    + destruct (String.eqb k' k) eqn:E; [|exact IH].
      apply String.eqb_eq in E. subst k'. now rewrite H.
    + rewrite IH. destruct (String.eqb k' k) eqn:E; [|reflexivity].
      apply String.eqb_eq in E. subst k'.
      destruct (String.prefix "_" k); [reflexivity | congruence].
Qed.

Lemma clean_no_private_key (d : Aggregate.dict) : no_private_key (Aggregate.clean d).
Proof. intros k Hk. rewrite dict_get_clean, Hk. reflexivity. Qed.

Lemma clean_without_private_key (d : Aggregate.dict) :
  Forall (fun kv => String.prefix "_" (fst kv) = false) d -> Aggregate.clean d = d.
Proof.
  unfold Aggregate.clean, Aggregate.dict in *.
  induction 1 as [|kv rest Hkv _ IH]; [reflexivity|].
  rewrite filter_cons. destruct (decide _) as [_|H]; [now rewrite IH | contradiction].
Qed.

Lemma find_file_some (name : string) (files : list Aggregate.file) (f : Aggregate.file) :
  Aggregate.find_file name files = Some f -> In f files /\ Aggregate.f_name f = name.
Proof.
  induction files as [|g rest IH]; simpl; [discriminate|].
  destruct (String.eqb (Aggregate.f_name g) name) eqn:E.
  - intros [= <-]. apply String.eqb_eq in E. auto.
  - intros H. destruct (IH H). auto.
Qed.

(** What one file contributes. *)
Lemma load_file_report (repo_dir : string) (source : option string) (f : Aggregate.file)
    (report : Aggregate.dict) :
  In report (Aggregate.load_file repo_dir source f) ->
  exists d,
    Aggregate.f_content f = Some (Aggregate.JObj d)
    /\ Aggregate.clean report = Aggregate.clean d
    /\ Aggregate.dict_get report "_source_dir" = Some (Aggregate.JStr repo_dir)
    /\ (forall name, source = Some name ->
          Aggregate.dict_get report "_source_file" = Some (Aggregate.JStr name)).
Proof.
  unfold Aggregate.load_file.
  destruct (Aggregate.f_content f) as [[| | | | |d]|]; try (intros []).
  destruct source as [name|]; intros [<-|[]]; exists d; split; try reflexivity.
  - split; [now rewrite !clean_set_private|]. split.
    + rewrite dict_get_set_other by discriminate. apply dict_get_set_same.
    + intros ? [= <-]. apply dict_get_set_same.
  - split; [now rewrite clean_set_private|]. split.
    + apply dict_get_set_same.
    + discriminate.
Qed.

Lemma load_fallback_report (repo_dir : string) (files : list Aggregate.file)
    (report : Aggregate.dict) :
  In report (Aggregate.load_fallback repo_dir files) ->
  exists f,
    In f files
    /\ ends_with ".json" (Aggregate.f_name f) = true
    /\ contains "report" (lower (Aggregate.f_name f)) = true
    /\ In report (Aggregate.load_file repo_dir (Some (Aggregate.f_name f)) f).
Proof.
  induction files as [|f rest IH]; simpl; [intros []|].
  intros H. apply in_app_or in H as [H|H].
  - destruct (ends_with ".json" (Aggregate.f_name f)) eqn:E1; [|destruct H].
    destruct (contains "report" (lower (Aggregate.f_name f))) eqn:E2; [|destruct H].
    exists f. simpl in H. auto.
  - destruct (IH H) as (g & Hg & H'). exists g. tauto.
Qed.

(** X22: every report [load_repo_reports] returns is the content of a
    file that holds a JSON object and lies in a directory of the
    reports directory whose name does not start with a dot: either the
    file nim-scan-report.json, or, in a directory without that file, a
    file whose name ends in ".json" and contains "report" in any case.
    The report is the object of the file with the directory stored
    under [_source_dir] (and the file name under [_source_file] for a
    fallback file): cleaned, the two are the same. *)
Theorem loaded_reports_come_from_report_files
    (reports_dir : string) (entries : list Aggregate.dir_entry) (report : Aggregate.dict) :
  In report (Aggregate.load_repo_reports reports_dir (Some entries)) ->
  exists e f d,
    In e entries /\ loaded_from reports_dir e f d report.
Proof.
  simpl. intros H. apply in_flat_map in H as (e & He & H).
  unfold Aggregate.load_entry in H.
  destruct (Aggregate.e_is_dir e) eqn:Edir; simpl in H; [|destruct H].
  destruct (String.prefix "." (Aggregate.e_name e)) eqn:Edot; [destruct H|].
  destruct (Aggregate.find_file "nim-scan-report.json" (Aggregate.e_files e))
    as [f|] eqn:Ef.
  - apply find_file_some in Ef as [Hin Hname].
    apply load_file_report in H as (d & Hd & Hc & Hs & _).
    exists e, f, d. unfold loaded_from. auto 10.
  - apply load_fallback_report in H as (f & Hin & H1 & H2 & H).
    apply load_file_report in H as (d & Hd & Hc & Hs & Hf).
    exists e, f, d. unfold loaded_from. repeat split; auto.
    right. repeat split; auto.
Qed.

Lemma loaded_reports_come_from_report_files_witness :
  exists e f d,
    In e two_fallback_files
    /\ loaded_from "reports" e f d
         [("note", Aggregate.JStr "n/a");
          ("_source_dir", Aggregate.JStr "reports/org-fine");
          ("_source_file", Aggregate.JStr "Hosted-NIM-Report.json")].
Proof.
  apply (loaded_reports_come_from_report_files "reports" two_fallback_files).
  vm_compute. auto.
Defined.

(** *** Tallies *)

Lemma values_total_incr (c : Aggregate.counter) (k : Aggregate.json) :
  values_total (Aggregate.incr c k) = (values_total c + 1)%Z.
Proof.
  induction c as [|[k' n] rest IH]; simpl; [reflexivity|].
  destruct (Aggregate.key_eqb k' k); simpl; lia.
Qed.

Lemma positive_incr (c : Aggregate.counter) (k : Aggregate.json) :
  Forall (fun kn => (1 <= snd kn)%Z) c ->
  Forall (fun kn => (1 <= snd kn)%Z) (Aggregate.incr c k).
Proof.
  induction 1 as [|[k' n] rest Hn Hrest IH]; simpl.
  - constructor; [simpl; lia | constructor].
  - destruct (Aggregate.key_eqb k' k); constructor; simpl in *; auto; lia.
Qed.

(** Equality of keys is symmetric, and equal keys are equal to the
    same keys. *)
Lemma key_eqb_sym (a b : Aggregate.json) :
  Aggregate.key_eqb a b = Aggregate.key_eqb b a.
Proof.
  destruct a as [|x|x|x|x|x], b as [|y|y|y|y|y]; simpl; try reflexivity;
    try apply Z.eqb_sym; try apply String.eqb_sym.
Qed.

Lemma key_eqb_trans (a b c : Aggregate.json) :
  Aggregate.key_eqb a b = true -> Aggregate.key_eqb a c = Aggregate.key_eqb b c.
Proof.
  destruct a as [|x|x|x|x|x], b as [|y|y|y|y|y]; simpl; try discriminate;
    try reflexivity; intros H;
    try (apply Z.eqb_eq in H); try (apply String.eqb_eq in H);
    destruct c as [|z|z|z|z|z]; simpl; try reflexivity;
    try (rewrite H; reflexivity); try (subst; reflexivity).
Qed.

(** [c[k0] += 1] adds one to the count of every key equal to [k0] and
    leaves the other counts. *)
Lemma count_incr_key (c : Aggregate.counter) (k0 k : Aggregate.json) :
  Aggregate.count (Aggregate.incr c k0) k
  = (Aggregate.count c k + if Aggregate.key_eqb k0 k then 1 else 0)%Z.
Proof.
  induction c as [|[k1 n] rest IH]; simpl.
  - destruct (Aggregate.key_eqb k0 k); reflexivity.
  - destruct (Aggregate.key_eqb k1 k0) eqn:E10; simpl.
    + rewrite <- (key_eqb_trans _ _ k E10).
      destruct (Aggregate.key_eqb k1 k); lia.
    + destruct (Aggregate.key_eqb k1 k) eqn:E1.
      * assert (Aggregate.key_eqb k0 k = false) as ->; [|lia].
        destruct (Aggregate.key_eqb k0 k) eqn:E0; [|reflexivity].
        rewrite (key_eqb_trans k1 k k0 E1) in E10.
        rewrite key_eqb_sym in E10. congruence.
      * exact IH.
Qed.

(** What one report adds to each table. *)
Lemma tally_step (acc acc' : Aggregate.statistics) (report : Aggregate.dict) :
  Aggregate.tally acc report = Ok acc' ->
  Aggregate.by_classification acc'
  = Aggregate.incr (Aggregate.by_classification acc) (classification_of report)
  /\ Aggregate.by_support_type acc'
     = Aggregate.incr (Aggregate.by_support_type acc) (support_of report)
  /\ Aggregate.by_actions_usage acc'
     = Aggregate.incr (Aggregate.by_actions_usage acc) (usage_of report)
  /\ readable report = true.
Proof.
  unfold Aggregate.tally, classification_of, support_of, usage_of, summary_of, readable.
  destruct (Aggregate.hashable _); simpl; [|discriminate].
  destruct (Aggregate.get_default report "summary" _) as [| | | | |summary];
    try discriminate.
  intros [= <-]. simpl. auto.
Qed.

Lemma tally_all_tables (reports : list Aggregate.dict) (acc stats : Aggregate.statistics) :
  Aggregate.tally_all acc reports = Ok stats ->
  (forall k,
      Aggregate.count (Aggregate.by_classification stats) k
      = (Aggregate.count (Aggregate.by_classification acc) k
         + Z.of_nat (counted_under classification_of k reports))%Z
      /\ Aggregate.count (Aggregate.by_support_type stats) k
         = (Aggregate.count (Aggregate.by_support_type acc) k
            + Z.of_nat (counted_under support_of k reports))%Z
      /\ Aggregate.count (Aggregate.by_actions_usage stats) k
         = (Aggregate.count (Aggregate.by_actions_usage acc) k
            + Z.of_nat (counted_under usage_of k reports))%Z)
  /\ values_total (Aggregate.by_classification stats)
     = (values_total (Aggregate.by_classification acc) + Z.of_nat (length reports))%Z
  /\ (Forall (fun kn => (1 <= snd kn)%Z) (Aggregate.by_classification acc) ->
      Forall (fun kn => (1 <= snd kn)%Z) (Aggregate.by_classification stats))
  /\ (Forall (fun kn => (1 <= snd kn)%Z) (Aggregate.by_support_type acc) ->
      Forall (fun kn => (1 <= snd kn)%Z) (Aggregate.by_support_type stats))
  /\ (Forall (fun kn => (1 <= snd kn)%Z) (Aggregate.by_actions_usage acc) ->
      Forall (fun kn => (1 <= snd kn)%Z) (Aggregate.by_actions_usage stats))
  /\ forallb readable reports = true.
Proof.
  revert acc. induction reports as [|r rest IH]; intros acc; cbn [Aggregate.tally_all].
  - intros [= ->]. unfold counted_under. simpl.
    repeat split; auto; lia.
  - destruct (Aggregate.tally acc r) as [acc'|] eqn:E; [|discriminate].
    intros H. destruct (IH acc' H) as (Hc & Hv & Hp1 & Hp2 & Hp3 & Hr).
    destruct (tally_step _ _ _ E) as (E1 & E2 & E3 & Hread).
    rewrite E1, E2, E3 in *.
    split; [|split; [|split; [|split; [|split]]]].
    + intros k. destruct (Hc k) as (H1 & H2 & H3).
      rewrite H1, H2, H3, !count_incr_key. unfold counted_under.
      cbn [List.filter].
      destruct (Aggregate.key_eqb (classification_of r) k),
               (Aggregate.key_eqb (support_of r) k),
               (Aggregate.key_eqb (usage_of r) k); simpl; lia.
    + rewrite Hv, values_total_incr. simpl length. lia.
    + intros Hp. apply Hp1. now apply positive_incr.
    + intros Hp. apply Hp2. now apply positive_incr.
    + intros Hp. apply Hp3. now apply positive_incr.
    + simpl. rewrite Hread. exact Hr.
Qed.

(** X23: in the statistics of any report sequence, the counts of the
    classification table add up to the number of reports, a report
    without classification being counted under "UNKNOWN", and no
    table holds a count below 1: a label or bucket that no report
    falls into is absent, not zero. *)
Theorem classification_counts_sum_to_total
    (reports : list Aggregate.dict) (stats : Aggregate.statistics) :
  Aggregate.aggregate_statistics reports = Ok stats ->
  values_total (Aggregate.by_classification stats) = Z.of_nat (length reports)
  /\ Aggregate.count (Aggregate.by_classification stats) (Aggregate.JStr "UNKNOWN")
     = Z.of_nat (counted_under classification_of (Aggregate.JStr "UNKNOWN") reports)
  /\ Forall (fun kn => (1 <= snd kn)%Z) (Aggregate.by_classification stats)
  /\ Forall (fun kn => (1 <= snd kn)%Z) (Aggregate.by_support_type stats)
  /\ Forall (fun kn => (1 <= snd kn)%Z) (Aggregate.by_actions_usage stats).
Proof.
  unfold Aggregate.aggregate_statistics. intros H.
  destruct (tally_all_tables _ _ _ H) as (Hc & Hv & Hp1 & Hp2 & Hp3 & _).
  simpl in *. split; [exact Hv|]. split; [apply Hc|]. auto.
Qed.

Lemma classification_counts_sum_to_total_witness :
  exists stats,
    Aggregate.aggregate_statistics [local_report; bare_report; bare_report] = Ok stats
    /\ values_total (Aggregate.by_classification stats) = 3%Z
    /\ Aggregate.count (Aggregate.by_classification stats) (Aggregate.JStr "UNKNOWN") = 2%Z.
Proof.
  destruct (Aggregate.aggregate_statistics [local_report; bare_report; bare_report])
    as [stats|e] eqn:E; [|vm_compute in E; discriminate].
  exists stats. split; [reflexivity|].
  destruct (classification_counts_sum_to_total _ _ E) as (Hv & Hu & _).
  split; [exact Hv | exact Hu].
Defined.

Lemma counted_under_permutation (key_of : Aggregate.dict -> Aggregate.json)
    (k : Aggregate.json) (l l' : list Aggregate.dict) :
  Permutation l l' -> counted_under key_of k l = counted_under key_of k l'.
Proof.
  unfold counted_under. induction 1 as [|x l l' _ IH|x y l|l l' l'' _ IH1 _ IH2];
    cbn [List.filter].
  - reflexivity.
  - destruct (Aggregate.key_eqb (key_of x) k); simpl; now rewrite IH.
  - destruct (Aggregate.key_eqb (key_of x) k), (Aggregate.key_eqb (key_of y) k);
      reflexivity.
  - congruence.
Qed.

Lemma forallb_permutation {A} (p : A -> bool) (l l' : list A) :
  Permutation l l' -> forallb p l = forallb p l'.
Proof.
  induction 1 as [|x l l' _ IH|x y l|l l' l'' _ IH1 _ IH2]; simpl.
  - reflexivity.
  - now rewrite IH.
  - destruct (p x), (p y); reflexivity.
  - congruence.
Qed.

(** X24: the counts do not depend on the order of the reports.  When
    the statistics of a sequence are computed, those of any
    rearrangement of it are computed too, and in each of the three
    tables every key has the same count: the number of reports counted
    under it. *)
Theorem counts_are_order_independent
    (reports reports' : list Aggregate.dict) (stats : Aggregate.statistics) :
  Permutation reports reports' ->
  Aggregate.aggregate_statistics reports = Ok stats ->
  exists stats',
    Aggregate.aggregate_statistics reports' = Ok stats'
    /\ forall k,
         Aggregate.count (Aggregate.by_classification stats') k
         = Aggregate.count (Aggregate.by_classification stats) k
         /\ Aggregate.count (Aggregate.by_support_type stats') k
            = Aggregate.count (Aggregate.by_support_type stats) k
         /\ Aggregate.count (Aggregate.by_actions_usage stats') k
            = Aggregate.count (Aggregate.by_actions_usage stats) k
         /\ Aggregate.count (Aggregate.by_classification stats) k
            = Z.of_nat (counted_under classification_of k reports).
Proof.
  intros Hperm H. unfold Aggregate.aggregate_statistics in *.
  destruct (tally_all_tables _ _ _ H) as (Hc & _ & _ & _ & _ & Hr).
  rewrite (forallb_permutation _ _ _ Hperm) in Hr.
  destruct (aggregate_statistics_readable reports' Hr) as (stats' & H').
  unfold Aggregate.aggregate_statistics in H'.
  exists stats'. split; [exact H'|].
  destruct (tally_all_tables _ _ _ H') as (Hc' & _).
  intros k. destruct (Hc k) as (H1 & H2 & H3), (Hc' k) as (H1' & H2' & H3').
  rewrite H1, H2, H3, H1', H2', H3'.
  rewrite !(counted_under_permutation _ k _ _ Hperm). simpl. auto.
Qed.

Lemma counts_are_order_independent_witness :
  exists stats stats',
    Aggregate.aggregate_statistics [local_report; bare_report; local_report] = Ok stats
    /\ Aggregate.aggregate_statistics [bare_report; local_report; local_report] = Ok stats'
    /\ forall k,
         Aggregate.count (Aggregate.by_classification stats') k
         = Aggregate.count (Aggregate.by_classification stats) k.
Proof.
  destruct (Aggregate.aggregate_statistics [local_report; bare_report; local_report])
    as [stats|e] eqn:E; [|vm_compute in E; discriminate].
  destruct (counts_are_order_independent
              [local_report; bare_report; local_report]
              [bare_report; local_report; local_report] stats
              (perm_swap _ _ _) E) as (stats' & E' & H).
  exists stats, stats'. split; [reflexivity|]. split; [exact E'|].
  intros k. exact (proj1 (H k)).
Defined.

(** The first spelling of a label names its row: the keys of a table
    keep the order in which they were first seen. *)
Example tables_keep_first_seen_order :
  option_map (fun s => keys (Aggregate.by_classification s))
    (match Aggregate.aggregate_statistics [bare_report; local_report; bare_report] with
     | Ok s => Some s | Raise _ => None end)
  = Some [Aggregate.JStr "UNKNOWN"; Aggregate.JStr "LOCAL"].
Proof. reflexivity. Qed.

(** *** The written aggregate *)

Lemma clean_public_part (d : Aggregate.dict) : public_part d (Aggregate.clean d).
Proof.
  unfold public_part. split; [|split; [|split]].
  - unfold Aggregate.clean. apply sublist_filter.
  - unfold Aggregate.clean. apply Forall_forall. intros kv Hkv.
    apply list_elem_of_filter in Hkv. tauto.
  - intros kv Hin Hkv. apply list_elem_of_In. unfold Aggregate.clean.
    apply list_elem_of_filter. split; [exact Hkv | now apply list_elem_of_In].
  - intros k Hk. rewrite dict_get_clean, Hk. reflexivity.
Qed.

(** X25: the [repositories] of the aggregate written for at least one
    loaded report are the loaded reports in discovery order, as many
    as [total_repos] says, each without the keys that start with an
    underscore and otherwise as it was loaded: every other entry is
    kept, in its place and with its value, and nothing is added.  The
    provenance keys of the discovery never reach the output, and
    neither does a key of the report itself that starts with an
    underscore. *)
Theorem repositories_are_cleaned_reports
    (reports_dir : string) (listing : option (list Aggregate.dir_entry))
    (aggregation_time : string) (out : Aggregate.json) :
  Aggregate.load_repo_reports reports_dir listing <> [] ->
  Aggregate.main reports_dir listing aggregation_time = Ok out ->
  exists written,
    Aggregate.lookup1 out "repositories"
    = Some (Aggregate.JList (map Aggregate.JObj written))
    /\ Forall2 public_part (Aggregate.load_repo_reports reports_dir listing) written
    /\ Forall no_private_key written
    /\ Aggregate.lookup2 out "metadata" "total_repos"
       = Some (Aggregate.JInt (Z.of_nat (length written))).
Proof.
  intros Hne H. unfold Aggregate.main in H.
  destruct (Aggregate.load_repo_reports reports_dir listing) as [|r rest];
    [congruence|].
  destruct (Aggregate.aggregate_statistics (r :: rest)); [|discriminate].
  injection H as <-. exists (map Aggregate.clean (r :: rest)).
  split; [|split; [|split]].
  - cbn [Aggregate.lookup1 Aggregate.dict_get String.eqb Ascii.eqb Bool.eqb].
    now rewrite map_map.
  - generalize (r :: rest). intros l. induction l; constructor;
      auto using clean_public_part.
  - apply Forall_map. apply Forall_forall. intros d _. apply clean_no_private_key.
  - cbn [Aggregate.lookup2 Aggregate.dict_get String.eqb Ascii.eqb Bool.eqb].
    now rewrite length_map.
Qed.

Lemma repositories_are_cleaned_reports_witness :
  exists out written,
    Aggregate.main "reports" (Some private_listing) "T" = Ok out
    /\ Aggregate.lookup1 out "repositories"
       = Some (Aggregate.JList (map Aggregate.JObj written))
    /\ Forall2 public_part
         (Aggregate.load_repo_reports "reports" (Some private_listing)) written
    /\ Forall no_private_key written.
Proof.
  destruct (Aggregate.main "reports" (Some private_listing) "T") as [out|e] eqn:E;
    [|vm_compute in E; discriminate].
  assert (Hne : Aggregate.load_repo_reports "reports" (Some private_listing) <> [])
    by (vm_compute; discriminate).
  destruct (repositories_are_cleaned_reports "reports" (Some private_listing) "T" out
              Hne E) as (written & Hr & Hp & Hk & _).
  exists out, written. split; [reflexivity|]. split; [exact Hr|].
  split; [exact Hp | exact Hk].
Defined.

(** What is written for a report with keys of its own that start with
    an underscore. *)
Example private_keys_are_not_written :
  option_map (fun out => Aggregate.lookup1 out "repositories")
    (match Aggregate.main "reports" (Some private_listing) "T" with
     | Ok out => Some out
     | Raise _ => None
     end)
  = Some (Some (Aggregate.JList
                  [Aggregate.JObj [("classification", Aggregate.JStr "LOCAL")]])).
Proof. reflexivity. Qed.

(** ** The poll loop when the runs complete *)

Section AllCompleted.

Variable env : Env.
Variable conclusion : string -> option string.
Hypothesis Hrepo : forall tr repo, gh_get_repo env tr repo = Ok tt.
Hypothesis Hrun : forall tr repo id,
    gh_get_workflow_run env tr repo id = Ok ("completed", conclusion repo).

Lemma poll_run_finishes (r : Collect.run) (tr : trace) :
  truthy_id (Collect.run_id r) = true ->
  exists l,
    Collect.poll_run env r tr = (Ok (finish conclusion r, true), l ++ tr)
    /\ sleeps l = 0.
Proof.
  intros Ht. unfold Collect.poll_run, finish, settled. rewrite Ht. simpl.
  destruct (Collect.completed r) eqn:Ec.
  - exists []. split; reflexivity.
  - destruct (Collect.run_id r) as [id|] eqn:Eid; [|discriminate].
    unfold Collect.check_run_status. run_monad. rewrite Hrepo, Hrun. simpl.
    exists [EvGetWorkflowRun (Collect.repo r) id; EvGetRepo (Collect.repo r)].
    split; [|reflexivity]. unfold completed_with, Collect.set_completed,
      Collect.store_status. simpl. rewrite Eid. reflexivity.
Qed.

Lemma poll_round_finishes (suffix pre : list Collect.run) (st : Collect.round_state)
    (tr : trace) :
  Collect.store st = pre ++ suffix ->
  exists n l,
    Collect.poll_round env (Collect.pending_from (length pre) suffix) st tr
    = (Ok {| Collect.store := pre ++ map (finish conclusion) suffix;
             Collect.all_completed := Collect.all_completed st;
             Collect.completed_count := n |}, l ++ tr)
    /\ sleeps l = 0.
Proof.
  revert pre st tr. induction suffix as [|r rest IH]; intros pre st tr Hst; simpl.
  - exists (Collect.completed_count st), []. rewrite <- Hst. destruct st. auto.
  - assert (Hnext : forall (x : Collect.run) t, (pre ++ [x]) ++ t = pre ++ x :: t)
      by (intros; now rewrite <- app_assoc).
    assert (Hlen : forall x : Collect.run, length (pre ++ [x]) = S (length pre))
      by (intros; rewrite length_app; simpl; lia).
    destruct (truthy_id (Collect.run_id r)) eqn:Et.
    + cbn [Collect.poll_round]. rewrite Hst.
      rewrite (list_lookup_middle pre rest r (length pre) eq_refl).
      destruct (poll_run_finishes r tr Et) as (l1 & E1 & Hs1).
      unfold bind at 1. rewrite E1. cbn [fst snd].
      rewrite insert_app_r_alt by lia. rewrite Nat.sub_diag. cbn [insert list_insert].
      match goal with
      | |- context [Collect.poll_round env _ ?s (l1 ++ tr)] =>
          destruct (IH (pre ++ [finish conclusion r]) s (l1 ++ tr)) as (n & l2 & E2 & Hs2)
      end.
      { simpl. now rewrite Hnext. }
      rewrite Hlen in E2. rewrite E2. simpl.
      exists n, (l2 ++ l1). rewrite Hnext, <- app_assoc, sleeps_app, Hs1, Hs2. auto.
    + destruct (IH (pre ++ [r]) st tr) as (n & l & E & Hs); [now rewrite Hnext|].
      rewrite Hlen in E. rewrite E. exists n, l. rewrite Hnext.
      unfold finish at 2, settled. rewrite Et. simpl. auto.
Qed.

(** X26: when the remote reports every run completed, and the deadline
    has not passed at the first check, the poll loop needs one round:
    it returns every record that had a usable run id and was not yet
    completed as completed, with status "completed" and the reported
    conclusion stored, and the other records unchanged; it does not
    sleep. *)
Theorem poll_loop_completes_in_one_round
    (fuel : nat) (runs : list Collect.run) (timeout_minutes interval : Z) (tr : trace) :
  time_gtb (Qminus (clock env (EvClock :: tr)) (clock env tr))
           (inject_Z (timeout_minutes * 60)) = false ->
  exists l,
    Collect.wait_for_completion env (S fuel) runs timeout_minutes interval tr
    = (Ok (Some (map (finish conclusion) runs)), l ++ tr)
    /\ sleeps l = 0.
Proof.
  intros Hdeadline.
  unfold Collect.wait_for_completion, bind at 1, now, call at 1. cbv beta iota.
  unfold Collect.pending_runs.
  destruct (Collect.pending_from 0 runs) as [|i rest] eqn:Ep.
  - unfold ret. exists [EvClock]. split; [|reflexivity]. repeat f_equal.
    assert (H : forall k (l : list Collect.run),
               Collect.pending_from k l = [] -> map (finish conclusion) l = l).
    { clear. intros k l. revert k. induction l as [|r l IH]; intros k; simpl;
        [reflexivity|].
      destruct (truthy_id (Collect.run_id r)) eqn:Et; [discriminate|].
      intros H. rewrite (IH _ H). unfold finish, settled. now rewrite Et. }
    symmetry. eapply H; eauto.
  - rewrite <- Ep. clear Ep i rest. rewrite wait_loop_round.
    unfold bind at 1, now, call at 1. cbv beta iota. rewrite Hdeadline.
    destruct (poll_round_finishes runs []
                {| Collect.store := runs; Collect.all_completed := true;
                   Collect.completed_count := 0 |} (EvClock :: EvClock :: tr) eq_refl)
      as (n & l & E & Hs).
    simpl in E. unfold bind at 1. rewrite E. simpl. unfold ret.
    exists (l ++ [EvClock; EvClock]). rewrite <- app_assoc.
    split; [reflexivity|]. rewrite sleeps_app, Hs. reflexivity.
Qed.

End AllCompleted.

Lemma poll_loop_completes_in_one_round_witness :
  exists l,
    Collect.wait_for_completion (all_done_env (fun _ => Some "failure")) 1
      [unresolved_run; completed_run; pending_run] 60 30 []
    = (Ok (Some [unresolved_run; completed_run;
                 completed_with (Some "failure") pending_run]), l ++ [])
    /\ sleeps l = 0.
Proof.
  apply (poll_loop_completes_in_one_round (all_done_env (fun _ => Some "failure"))
           (fun _ => Some "failure") (fun _ _ => eq_refl) (fun _ _ _ => eq_refl)
           0 [unresolved_run; completed_run; pending_run] 60 30 []).
  reflexivity.
Defined.
